(** * MapNetwork: link geometry, link store and path-editing session

    A shallow embedding of [src/MapNetwork.tsx].

    Numbers.  A TypeScript [number] is modelled as a real number: the
    embedding computes with exact arithmetic, so rounding, overflow, [NaN]
    and signed zeros are outside the model.  [Infinity] occurs once in the
    source, as the initial best distance of [nearestSegmentIndex]; it is
    modelled by [None] in an [option R].  Where rounding decides what the
    program returns, the samples of [curvedPath] for a self-loop, the module
    [Binary64] evaluates the same function on binary64 numbers.

    State.  The component keeps its data in React state cells.  A handler
    reads the cells of the render it was created in and queues updates;
    the updates of [links] and [devices] are functional
    ([setLinks(p => ...)]) and apply in the order they were queued.  A
    handler therefore is a function from the state of its render to the
    next state.  The marker registry, the popup draft and the pan
    bridge belong to the rendering layer and are not part of the state. *)

From stdpp Require Import list strings.
From Stdlib Require Import Reals Lra Lia.
From Stdlib Require Import DecimalString DecimalNat.
From Stdlib Require PrimFloat.

Open Scope R_scope.

(** ** Geometry *)

Module Geometry.

Definition Point : Type := R * R.

(** [Math.hypot(x, y)]. *)
Definition hypot (x y : R) : R := sqrt (x * x + y * y).

(** [x || d] on numbers: [d] when [x] is falsy, that is zero. *)
Definition orElse (x d : R) : R := if Req_dec_T x 0 then d else x.

(** [plen] of [curvedPath]: the length of the rotated edge vector, or [1]. *)
Definition plen (a b : Point) : R :=
  let vx := fst b - fst a in
  let vy := snd b - snd a in
  orElse (hypot (- vy) vx) 1.

(** The control point [(cx, cy)] of [curvedPath]. *)
Definition control (a b : Point) (curvature : R) : Point :=
  let '(alat, alng) := a in
  let '(blat, blng) := b in
  let mid := ((alat + blat) / 2, (alng + blng) / 2) in
  let vx := blat - alat in
  let vy := blng - alng in
  let px := - vy / plen a b in
  let py := vx / plen a b in
  let d := hypot vx vy in
  let k := d * curvature in
  (fst mid + px * k, snd mid + py * k).

(** The point pushed by the loop body of [curvedPath] at counter [i]. *)
Definition curveSample (a b c : Point) (segments i : nat) : Point :=
  let t := INR i / INR segments in
  let omt := 1 - t in
  (omt * omt * fst a + 2 * omt * t * fst c + t * t * fst b,
   omt * omt * snd a + 2 * omt * t * snd c + t * t * snd b).

(** [curvedPath(a, b, segments, curvature)]: the loop runs [i = 0 .. segments]. *)
Definition curvedPath (a b : Point) (segments : nat) (curvature : R) : list Point :=
  let c := control a b curvature in
  List.map (curveSample a b c segments) (seq 0 (S segments)).

(** One coordinate of the Catmull-Rom sample of [catmullRomSpline]. *)
Definition crCoord (p0 p1 p2 p3 t : R) : R :=
  let t2 := t * t in
  let t3 := t2 * t in
  0.5 * ((2 * p1) + (- p0 + p2) * t
         + (2 * p0 - 5 * p1 + 4 * p2 - p3) * t2
         + (- p0 + 3 * p1 - 3 * p2 + p3) * t3).

(** The inner loop of [catmullRomSpline] for the window starting at [i]. *)
Definition crWindow (P : list Point) (samplesPerSeg i : nat) : list Point :=
  let p0 := nth i P (0, 0) in
  let p1 := nth (i + 1) P (0, 0) in
  let p2 := nth (i + 2) P (0, 0) in
  let p3 := nth (i + 3) P (0, 0) in
  List.map (fun j : nat =>
              let t := INR j / INR samplesPerSeg in
              (crCoord (fst p0) (fst p1) (fst p2) (fst p3) t,
               crCoord (snd p0) (snd p1) (snd p2) (snd p3) t))
           (seq 0 samplesPerSeg).

(** [catmullRomSpline(points, samplesPerSeg)].  [P] pads [points] with a copy
    of its first and of its last element; every index read is in range. *)
Definition catmullRomSpline (points : list Point) (samplesPerSeg : nat) : list Point :=
  if (length points <=? 2)%nat then points
  else
    let lastp := nth (length points - 1) points (0, 0) in
    let P := nth 0 points (0, 0) :: points ++ [lastp] in
    flat_map (crWindow P samplesPerSeg) (seq 0 (length P - 3)) ++ [lastp].

(** [vv] of [nearestSegmentIndex]: the squared segment length, or [1e-9]. *)
Definition vv (a b : Point) : R :=
  let vx := fst b - fst a in
  let vy := snd b - snd a in
  orElse (vx * vx + vy * vy) 1e-9.

(** The distance [d] computed by the loop body of [nearestSegmentIndex] for
    the segment from [a] to [b]. *)
Definition segmentD (a b p : Point) : R :=
  let ax := fst a in
  let ay := snd a in
  let bx := fst b in
  let by' := snd b in
  let px := fst p in
  let py := snd p in
  let vx := bx - ax in
  let vy := by' - ay in
  let wx := px - ax in
  let wy := py - ay in
  let t := (vx * wx + vy * wy) / vv a b in
  let t := Rmax 0 (Rmin 1 t) in
  let cx := ax + t * vx in
  let cy := ay + t * vy in
  (px - cx) * (px - cx) + (py - cy) * (py - cy).

(** [d] at loop counter [i]: the segment [(vertices[i], vertices[i+1])]. *)
Definition distAt (vertices : list Point) (p : Point) (i : nat) : R :=
  segmentD (nth i vertices (0, 0)) (nth (i + 1) vertices (0, 0)) p.

(** [d < bestD], where [bestD = None] stands for [Infinity]. *)
Definition ltBest (d : R) (bestD : option R) : bool :=
  match bestD with
  | None => true
  | Some b => if Rlt_dec d b then true else false
  end.

(** One iteration of the loop of [nearestSegmentIndex] on [(bestI, bestD)]. *)
Definition nearestStep (vertices : list Point) (p : Point)
    (best : nat * option R) (i : nat) : nat * option R :=
  let d := distAt vertices p i in
  if ltBest d (snd best) then (i, Some d) else best.

(** [nearestSegmentIndex(vertices, p)]: [i] runs over [0 .. length - 2]. *)
Definition nearestSegmentIndex (vertices : list Point) (p : Point) : nat :=
  fst (fold_left (nearestStep vertices p)
                 (seq 0 (length vertices - 1)) (0%nat, None)).

End Geometry.

Import Geometry.

(** ** The curved path on binary64 numbers *)

Module Binary64.
Import PrimFloat.
#[local] Set Warnings "-inexact-float".
#[local] Open Scope float_scope.

Definition Point : Type := float * float.

(** [Math.hypot(x, y)] as the rounded square root of the rounded sum of the
    squares.  At the arguments of a self-loop, which are zeros, the result
    is the [0] that every implementation of [Math.hypot] returns. *)
Definition hypot (x y : float) : float := sqrt (x * x + y * y).

(** [x || d] on numbers: [d] when [x] is falsy, that is zero or [NaN]. *)
Definition orElse (x d : float) : float :=
  if (x =? 0) || is_nan x then d else x.

(** The loop counter [i] after [n] increments [i++], starting from [0]. *)
Fixpoint counter (n : nat) : float :=
  match n with
  | O => 0
  | S m => counter m + 1
  end.

(** [curvedPath(a, b, segments, curvature)], each operation rounded as the
    source writes it; the loop runs [i = 0 .. segments]. *)
Definition curvedPath (a b : Point) (segments : nat) (curvature : float) : list Point :=
  let '(alat, alng) := a in
  let '(blat, blng) := b in
  let mid := ((alat + blat) / 2, (alng + blng) / 2) in
  let vx := blat - alat in
  let vy := blng - alng in
  let px := - vy in
  let py := vx in
  let plen := orElse (hypot px py) 1 in
  let px := px / plen in
  let py := py / plen in
  let d := hypot vx vy in
  let k := d * curvature in
  let cx := fst mid + px * k in
  let cy := snd mid + py * k in
  List.map (fun n : nat =>
              let t := counter n / counter segments in
              let omt := 1 - t in
              (omt * omt * alat + 2 * omt * t * cx + t * t * blat,
               omt * omt * alng + 2 * omt * t * cy + t * t * blng))
           (seq 0 (S segments)).

(** [p[0] === q[0] && p[1] === q[1]]. *)
Definition samePoint (p q : Point) : bool :=
  (fst p =? fst q) && (snd p =? snd q).

(** The position [[lat, lng]] of the device a of [sampleData], whose
    [coords] are [[100.5018, 13.7563]]. *)
Definition positionA : Point := (13.7563, 100.5018).

End Binary64.

(** ** Devices, links and the component state *)

Module Store.

Inductive DeviceStatus : Type := available | connected | disabled.

Record Device : Type := {
  id : string;
  label : string;
  coords : R * R;            (* [lng, lat] *)
  status : DeviceStatus;
  width : R;
  height : R
}.

Inductive LinkStyle : Type := straight | curved | custom.

(** [waypoints] and [curvy] are optional fields: [None] is [undefined]. *)
Record Link : Type := {
  source : string;
  target : string;
  style : LinkStyle;
  waypoints : option (list Point);   (* [lat, lng] *)
  curvy : option bool
}.

(** The state cells of [MapNetwork] that the handlers below read or write. *)
Record State : Type := {
  devices : list Device;
  links : list Link;
  selectedId : option string;
  openPopupId : option string;
  editingLink : option (string * string);
  draggingWp : option (string * string * nat)
}.

(** [l.source === s && l.target === t]. *)
Definition sameLink (s t : string) (l : Link) : bool :=
  String.eqb (source l) s && String.eqb (target l) t.

(** [l.source === id || l.target === id]. *)
Definition touches (i : string) (l : Link) : bool :=
  String.eqb (source l) i || String.eqb (target l) i.

(** [l.waypoints ?? []]. *)
Definition wpsOf (l : Link) : list Point := default [] (waypoints l).

(** Truthiness of the optional [curvy]. *)
Definition isCurvy (l : Link) : bool := default false (curvy l).

(** The endpoint [[d.coords[1], d.coords[0]]] of a device, as (lat, lng). *)
Definition latlng (d : Device) : Point := (snd (coords d), fst (coords d)).

Definition withStyle (l : Link) (sty : LinkStyle) : Link :=
  {| source := source l; target := target l; style := sty;
     waypoints := waypoints l; curvy := curvy l |}.

Definition withCurvy (l : Link) (c : bool) : Link :=
  {| source := source l; target := target l; style := style l;
     waypoints := waypoints l; curvy := Some c |}.

Definition withWaypoints (l : Link) (wps : list Point) : Link :=
  {| source := source l; target := target l; style := style l;
     waypoints := Some wps; curvy := curvy l |}.

(** [setLinks(f)], [setEditingLink(v)], [setDraggingWp(v)]. *)
Definition setLinks (f : list Link -> list Link) (st : State) : State :=
  {| devices := devices st; links := f (links st);
     selectedId := selectedId st; openPopupId := openPopupId st;
     editingLink := editingLink st; draggingWp := draggingWp st |}.

Definition setEditingLink (v : option (string * string)) (st : State) : State :=
  {| devices := devices st; links := links st;
     selectedId := selectedId st; openPopupId := openPopupId st;
     editingLink := v; draggingWp := draggingWp st |}.

Definition setDraggingWp (v : option (string * string * nat)) (st : State) : State :=
  {| devices := devices st; links := links st;
     selectedId := selectedId st; openPopupId := openPopupId st;
     editingLink := editingLink st; draggingWp := v |}.

Definition setSelectedId (v : option string) (st : State) : State :=
  {| devices := devices st; links := links st;
     selectedId := v; openPopupId := openPopupId st;
     editingLink := editingLink st; draggingWp := draggingWp st |}.

Definition setOpenPopupId (v : option string) (st : State) : State :=
  {| devices := devices st; links := links st;
     selectedId := selectedId st; openPopupId := v;
     editingLink := editingLink st; draggingWp := draggingWp st |}.

Definition findDevice (st : State) (i : string) : option Device :=
  List.find (fun d => String.eqb (id d) i) (devices st).

Definition findLink (st : State) (s t : string) : option Link :=
  List.find (sameLink s t) (links st).

(** [c => c === id ? null : c]. *)
Definition clearIf (i : string) (c : option string) : option string :=
  match c with
  | Some j => if String.eqb j i then None else Some j
  | None => None
  end.

(** [removeDevice(id)].  The marker registry is not modelled. *)
Definition removeDevice (i : string) (st : State) : State :=
  {| devices := List.filter (fun d => negb (String.eqb (id d) i)) (devices st);
     links := List.filter (fun l => negb (String.eqb (source l) i)
                                    && negb (String.eqb (target l) i)) (links st);
     selectedId := clearIf i (selectedId st);
     openPopupId := clearIf i (openPopupId st);
     editingLink :=
       match editingLink st with
       | Some (s, t) => if String.eqb s i || String.eqb t i then None else Some (s, t)
       | None => None
       end;
     draggingWp := draggingWp st |}.

(** [addLink(s, t)]. *)
Definition addLink (s t : string) (st : State) : State :=
  setLinks (fun p =>
              if existsb (sameLink s t) p then p
              else p ++ [ {| source := s; target := t; style := straight;
                             waypoints := Some []; curvy := None |} ]) st.

Definition setLinkStyle (s t : string) (sty : LinkStyle) (st : State) : State :=
  setLinks (List.map (fun l => if sameLink s t l then withStyle l sty else l)) st.

Definition setLinkCurvy (s t : string) (c : bool) (st : State) : State :=
  setLinks (List.map (fun l => if sameLink s t l then withCurvy l c else l)) st.

Definition setLinkWaypoints (s t : string) (wps : list Point) (st : State) : State :=
  setLinks (List.map (fun l => if sameLink s t l then withWaypoints l wps else l)) st.

(** Is [editingLink] the link [(s, t)]? *)
Definition isEditing (st : State) (s t : string) : bool :=
  match editingLink st with
  | Some (es, et) => String.eqb es s && String.eqb et t
  | None => false
  end.

(** [removeLink(s, t)]. *)
Definition removeLink (s t : string) (st : State) : State :=
  let st1 := setLinks (List.filter (fun l => negb (sameLink s t l))) st in
  if isEditing st s t then setEditingLink None st1 else st1.

(** [linkVertices(l)]: called only for links whose two devices exist. *)
Definition linkVertices (a b : Device) (l : Link) : list Point :=
  latlng a :: wpsOf l ++ [latlng b].

(** [wps.splice(seg, 0, ll)]. *)
Definition splice0 (seg : nat) (ll : Point) (wps : list Point) : list Point :=
  take seg wps ++ ll :: drop seg wps.

(** [insertWp(l, ll)] for a link of the current render whose devices are
    [a] and [b]: the queued state update and the returned index. *)
Definition insertWp (a b : Device) (l : Link) (ll : Point) (st : State) : State * nat :=
  let verts := linkVertices a b l in
  let seg := nearestSegmentIndex verts ll in
  (setLinkWaypoints (source l) (target l) (splice0 seg ll (wpsOf l)) st, seg).

(** [arr.slice(1, -1)]. *)
Definition sliceInner {A : Type} (l : list A) : list A := removelast (tl l).

(** [arr.filter((_, i) => f(i))]. *)
Definition filterIndex {A : Type} (f : nat -> bool) (l : list A) : list A :=
  List.map snd (List.filter (fun ix => f (fst ix)) (combine (seq 0 (length l)) l)).

(** The waypoints that [seedFromCurve] stores for endpoints [A] and [B]. *)
Definition seedPoints (A B : Point) (samples : nat) : list Point :=
  let curve := curvedPath A B 36 0.28 in
  let inner := sliceInner curve in
  let step := Nat.max 1 (length inner / samples) in
  filterIndex (fun i => (i mod step =? 0)%nat) inner.

(** [seedFromCurve(l, samples)]: the devices are those of the render [st0]
    the handler was created in; the update is queued on [st]. *)
Definition seedFromCurve (st0 : State) (l : Link) (samples : nat) (st : State) : State :=
  match findDevice st0 (source l), findDevice st0 (target l) with
  | Some a, Some b =>
      setLinkWaypoints (source l) (target l)
                       (seedPoints (latlng a) (latlng b) samples) st
  | _, _ => st
  end.

(** The [positions] computed for a link by [renderedLinks]; [None] is the
    [null] returned for a link with a missing device.  The specification
    calls this [computeRenderPath]. *)
Definition computeRenderPath (st : State) (l : Link) : option (list Point) :=
  match findDevice st (source l), findDevice st (target l) with
  | Some a, Some b =>
      let A := latlng a in
      let B := latlng b in
      Some match style l with
           | straight => [A; B]
           | curved => curvedPath A B 28 0.28
           | custom =>
               let ctrl := A :: wpsOf l ++ [B] in
               if isCurvy l then catmullRomSpline ctrl 14 else ctrl
           end
  | _, _ => None
  end.

Definition renderedLinks (st : State) : list (option (list Point)) :=
  List.map (computeRenderPath st) (links st).

End Store.

Import Store.

(** ** The editing session: event handlers *)

Module Session.

Inductive Key : Type := Escape | Delete | Backspace | OtherKey.

(** [onKey]: [typing] is the result of [isFormTyping()]. *)
Definition onKey (key : Key) (typing : bool) (st : State) : State :=
  let st1 :=
    match key, editingLink st with
    | Escape, Some _ => setDraggingWp None (setEditingLink None st)
    | _, _ => st
    end in
  match selectedId st with
  | None => st1
  | Some sel =>
      if typing then st1
      else match key with
           | Delete | Backspace => removeDevice sel st1
           | _ => st1
           end
  end.

(** The store updates shared by the two "begin edit" handlers, for the link
    [l] of the render [st0]. *)
Definition beginEditUpdates (st0 : State) (l : Link) (st : State) : State :=
  let s := source l in
  let t := target l in
  match style l with
  | curved =>
      seedFromCurve st0 l 10 (setLinkCurvy s t true (setLinkStyle s t custom st))
  | straight =>
      let st2 := setLinkCurvy s t false (setLinkStyle s t custom st) in
      match waypoints l with
      | None => setLinkWaypoints s t [] st2
      | Some _ => st2
      end
  | custom => st
  end.

(** [onContextMenu] of a rendered link. *)
Definition onContextMenu (l : Link) (st : State) : State :=
  setEditingLink (Some (source l, target l)) (beginEditUpdates st l st).

(** [findLink(l.source, l.target)?.style === "custom"]. *)
Definition storedCustom (st : State) (s t : string) : bool :=
  match findLink st s t with
  | Some l' => match style l' with custom => true | _ => false end
  | None => false
  end.

(** [onClick] of a rendered link with devices [a] and [b]. *)
Definition onClick (a b : Device) (l : Link) (ll : Point) (st : State) : State :=
  if isEditing st (source l) (target l) && storedCustom st (source l) (target l)
  then fst (insertWp a b l ll st)
  else st.

(** [onMouseDown] of a rendered link with devices [a] and [b]. *)
Definition onMouseDown (a b : Device) (l : Link) (ll : Point) (st : State) : State :=
  if isEditing st (source l) (target l) && storedCustom st (source l) (target l)
  then let '(st1, idx) := insertWp a b l ll st in
       setDraggingWp (Some (source l, target l, idx)) st1
  else st.

(** The map's [mousemove] handler of [WaypointDragOverlay].  [wps[index]] is
    a pair when the index is in range and [undefined] otherwise. *)
Definition onMouseMove (ll : Point) (st : State) : State :=
  match draggingWp st with
  | None => st
  | Some (s, t, index) =>
      match findLink st s t with
      | None => st
      | Some l =>
          match style l with
          | custom =>
              let wps := wpsOf l in
              match wps !! index with
              | None => st
              | Some _ => setLinkWaypoints s t (<[index := ll]> wps) st
              end
          | _ => st
          end
      end
  end.

(** The map's [mouseup] handler. *)
Definition onMouseUp (st : State) : State :=
  match draggingWp st with
  | Some _ => setDraggingWp None st
  | None => st
  end.

(** The map's [contextmenu] handler. *)
Definition onMapContextMenu (st : State) : State :=
  match editingLink st with
  | Some _ => setDraggingWp None (setEditingLink None st)
  | None => st
  end.

(** [active] of [LinkPathEditor]: the edited link, when it is stored with
    style [custom]; the handles exist for its waypoints only. *)
Definition activeLink (st : State) : option Link :=
  match editingLink st with
  | Some (s, t) =>
      match findLink st s t with
      | Some l => match style l with custom => Some l | _ => None end
      | None => None
      end
  | None => None
  end.

Definition onHandleDragStart (active : Link) (i : nat) (st : State) : State :=
  setDraggingWp (Some (source active, target active, i)) st.

Definition onHandleDragEnd (active : Link) (i : nat) (ll : Point) (st : State) : State :=
  setDraggingWp None
    (setLinkWaypoints (source active) (target active) (<[i := ll]> (wpsOf active)) st).

Definition onHandleAltClick (active : Link) (i : nat) (st : State) : State :=
  setLinkWaypoints (source active) (target active)
    (filterIndex (fun j => negb (j =? i)%nat) (wpsOf active)) st.

(** A device marker's [click] handler. *)
Definition onDeviceClick (d : Device) (st : State) : State :=
  let st1 := setSelectedId (Some (id d)) st in
  match openPopupId st with
  | Some o =>
      if String.eqb o (id d) then st1 else setOpenPopupId None st1
  | None => st1
  end.

(** The style [select] of a link row in a device popup. *)
Definition onStyleSelect (l : Link) (ns : LinkStyle) (st : State) : State :=
  let s := source l in
  let t := target l in
  let leave (st' : State) := if isEditing st s t then setEditingLink None st' else st' in
  match ns with
  | straight =>
      leave (setLinkCurvy s t false (setLinkWaypoints s t [] (setLinkStyle s t straight st)))
  | curved =>
      leave (setLinkCurvy s t true (setLinkWaypoints s t [] (setLinkStyle s t curved st)))
  | custom =>
      let st1 := setLinkStyle s t custom st in
      match style l with
      | curved => seedFromCurve st l 10 (setLinkCurvy s t true st1)
      | _ =>
          let st2 := setLinkCurvy s t (isCurvy l) st1 in
          match waypoints l with
          | None => setLinkWaypoints s t [] st2
          | Some _ => st2
          end
      end
  end.

(** The "Edit Path" button of a link row. *)
Definition onEditPath (l : Link) (st : State) : State :=
  setEditingLink (Some (source l, target l)) (beginEditUpdates st l st).

(** The events of the host.  A link event names the link by its position
    [k] in [links]; a handle event names the handle by its position [i]. *)
Inductive Event : Type :=
  | LinkContextMenu (k : nat)
  | LinkClick (k : nat) (ll : Point)
  | LinkMouseDown (k : nat) (ll : Point)
  | MapMouseMove (ll : Point)
  | MapMouseUp
  | MapContextMenu
  | KeyDown (key : Key) (typing : bool)
  | HandleDragStart (i : nat)
  | HandleDragEnd (i : nat) (ll : Point)
  | HandleAltClick (i : nat)
  | DeviceClick (d : string)
  | PopupDelete (d : string)
  | PopupAddLink (d t : string)
  | PopupStyleSelect (k : nat) (ns : LinkStyle)
  | PopupCurvySelect (k : nat) (c : bool)
  | PopupEditPath (k : nat)
  | PopupClearPts (k : nat)
  | PopupRemoveLink (k : nat).

(** The link at position [k] with its two devices, when it is rendered. *)
Definition renderedAt (st : State) (k : nat) : option (Link * Device * Device) :=
  match links st !! k with
  | Some l =>
      match findDevice st (source l), findDevice st (target l) with
      | Some a, Some b => Some (l, a, b)
      | _, _ => None
      end
  | None => None
  end.

(** The link at position [k], when some device popup lists it as incident. *)
Definition incidentAt (st : State) (k : nat) : option Link :=
  match links st !! k with
  | Some l => if existsb (fun d => touches (id d) l) (devices st) then Some l else None
  | None => None
  end.

(** The handle [i] of the active link, when it is shown. *)
Definition handleAt (st : State) (i : nat) : option Link :=
  match activeLink st with
  | Some l => if (i <? length (wpsOf l))%nat then Some l else None
  | None => None
  end.

(** One event: an event whose element is not on screen changes nothing. *)
Definition step (st : State) (e : Event) : State :=
  match e with
  | LinkContextMenu k =>
      match renderedAt st k with Some (l, _, _) => onContextMenu l st | None => st end
  | LinkClick k ll =>
      match renderedAt st k with Some (l, a, b) => onClick a b l ll st | None => st end
  | LinkMouseDown k ll =>
      match renderedAt st k with Some (l, a, b) => onMouseDown a b l ll st | None => st end
  | MapMouseMove ll => onMouseMove ll st
  | MapMouseUp => onMouseUp st
  | MapContextMenu => onMapContextMenu st
  | KeyDown key typing => onKey key typing st
  | HandleDragStart i =>
      match handleAt st i with Some l => onHandleDragStart l i st | None => st end
  | HandleDragEnd i ll =>
      match handleAt st i with Some l => onHandleDragEnd l i ll st | None => st end
  | HandleAltClick i =>
      match handleAt st i with Some l => onHandleAltClick l i st | None => st end
  | DeviceClick d =>
      match findDevice st d with Some dev => onDeviceClick dev st | None => st end
  | PopupDelete d =>
      match findDevice st d with Some dev => removeDevice (id dev) st | None => st end
  | PopupAddLink d t =>
      match findDevice st d with
      | Some dev => if String.eqb t "" then st else addLink (id dev) t st
      | None => st
      end
  | PopupStyleSelect k ns =>
      match incidentAt st k with Some l => onStyleSelect l ns st | None => st end
  | PopupCurvySelect k c =>
      match incidentAt st k with
      | Some l => match style l with
                  | custom => setLinkCurvy (source l) (target l) c st
                  | _ => st
                  end
      | None => st
      end
  | PopupEditPath k =>
      match incidentAt st k with Some l => onEditPath l st | None => st end
  | PopupClearPts k =>
      match incidentAt st k with
      | Some l => match style l with
                  | custom => setLinkWaypoints (source l) (target l) [] st
                  | _ => st
                  end
      | None => st
      end
  | PopupRemoveLink k =>
      match incidentAt st k with
      | Some l => removeLink (source l) (target l) st
      | None => st
      end
  end.

(** The devices and links of [sampleData]. *)
Definition deviceA : Device :=
  {| id := "a"; label := "Bangkok"; coords := (100.5018, 13.7563);
     status := available; width := 0; height := 0 |}.

Definition deviceB : Device :=
  {| id := "b"; label := "Tokyo"; coords := (139.6917, 35.6895);
     status := connected; width := 0; height := 0 |}.

Definition deviceC : Device :=
  {| id := "c"; label := "Paris"; coords := (2.3522, 48.8566);
     status := available; width := 0; height := 0 |}.

Definition deviceD : Device :=
  {| id := "d"; label := "New York"; coords := (- 74.006, 40.7128);
     status := disabled; width := 0; height := 0 |}.

Definition linkAB : Link :=
  {| source := "a"; target := "b"; style := straight;
     waypoints := None; curvy := None |}.

Definition linkBC : Link :=
  {| source := "b"; target := "c"; style := curved;
     waypoints := None; curvy := None |}.

Definition linkAC : Link :=
  {| source := "a"; target := "c"; style := straight;
     waypoints := None; curvy := None |}.

Definition linkCD : Link :=
  {| source := "c"; target := "d"; style := custom;
     waypoints := Some [(45, 10)]; curvy := Some false |}.

(** [sampleData], the initial contents of the state cells. *)
Definition sampleData : State :=
  {| devices := [deviceA; deviceB; deviceC; deviceD];
     links := [linkAB; linkBC; linkAC; linkCD];
     selectedId := None;
     openPopupId := None;
     editingLink := None;
     draggingWp := None |}.

(** The states that the events of the edit session reach from
    [sampleData].  The handlers that write [devices] only are added by
    [Nodes.appReachable], those that write the selection and the open popup
    only by [Component.uiReachable]. *)
Inductive reachable : State -> Prop :=
  | reachable_init : reachable sampleData
  | reachable_step st e : reachable st -> reachable (step st e).

(** The session invariant of the design: a waypoint drag is recorded only
    for the link that is being edited. *)
Definition dragWithinEdit (st : State) : Prop :=
  match draggingWp st with
  | Some (s, t, _) => editingLink st = Some (s, t)
  | None => True
  end.

(** No link is being edited: [editingLink] is [null].  The record of a
    waypoint drag is not looked at; see [sessionIdle]. *)
Definition Idle (st : State) : Prop := editingLink st = None.

(** The state [Idle] of the design: no link is being edited and no waypoint
    drag is recorded. *)
Definition sessionIdle (st : State) : Prop :=
  editingLink st = None /\ draggingWp st = None.

End Session.

Import Session.

(** ** Vocabulary of the geometric statements *)

Module Plane.

Definition dot (u v : Point) : R := fst u * fst v + snd u * snd v.

Definition vec (A B : Point) : Point := (fst B - fst A, snd B - snd A).

(** [|B - A|]. *)
Definition edgeLength (A B : Point) : R := hypot (fst B - fst A) (snd B - snd A).

Definition midpoint (A B : Point) : Point :=
  ((fst A + fst B) / 2, (snd A + snd B) / 2).

(** The edge vector turned a quarter to the left, [(-vy, vx)]. *)
Definition leftTurn (A B : Point) : Point := (- (snd B - snd A), fst B - fst A).

(** The unit vector of [leftTurn A B], for [A <> B]. *)
Definition leftNormal (A B : Point) : Point :=
  (fst (leftTurn A B) / edgeLength A B, snd (leftTurn A B) / edgeLength A B).

(** [M + k * P]. *)
Definition offsetBy (M P : Point) (k : R) : Point :=
  (fst M + fst P * k, snd M + snd P * k).

End Plane.

Import Plane.

(** ** Vocabulary of the store statements *)

Module Facts.

(** A link with the ordered pair [(s, t)] is stored. *)
Definition hasLink (s t : string) (p : list Link) : Prop :=
  exists l, In l p /\ source l = s /\ target l = t.

(** The number of stored links with the ordered pair [(s, t)]. *)
Definition pairCount (s t : string) (p : list Link) : nat :=
  length (List.filter (sameLink s t) p).

(** The invariant of the data model: no two links share an ordered pair. *)
Definition uniquePairs (p : list Link) : Prop :=
  forall s t, (pairCount s t p <= 1)%nat.

(** The link that [addLink] appends. *)
Definition freshLink (s t : string) : Link :=
  {| source := s; target := t; style := straight;
     waypoints := Some []; curvy := None |}.

(** Nothing in the state mentions the device id [i]. *)
Definition absent (i : string) (st : State) : Prop :=
  (forall d, In d (devices st) -> id d <> i)
  /\ (forall l, In l (links st) -> source l <> i /\ target l <> i)
  /\ selectedId st <> Some i
  /\ openPopupId st <> Some i
  /\ (forall s t, editingLink st = Some (s, t) -> s <> i /\ t <> i).

End Facts.

Import Facts.

(** ** Position of a point relative to an edge *)

Module Side.

(** The foot of [p] on the line through [A] and [B] lies strictly between
    [A] and [B]. *)
Definition betweenEnds (A B p : Point) : Prop :=
  0 < dot (vec A p) (vec A B) < dot (vec A B) (vec A B).

(** [p] lies strictly on the side of the line through [A] and [B] to which
    the curve bows, the side of [leftTurn A B]. *)
Definition onBowSide (A B p : Point) : Prop :=
  0 < dot (vec A p) (leftTurn A B).

(** The loop counters whose samples [seedFromCurve] keeps. *)
Definition seedCounters : list nat := [1; 4; 7; 10; 13; 16; 19; 22; 25; 28; 31; 34]%nat.


(** What the loop of [nearestSegmentIndex] has established after [n]
    iterations, [d] being the distance computed at each counter. *)
Definition loopInv (d : nat -> R) (n : nat) (best : nat * option R) : Prop :=
  match n with
  | O => best = (0%nat, None)
  | S _ =>
      (fst best < n)%nat
      /\ snd best = Some (d (fst best))
      /\ (forall j, (j < n)%nat -> d (fst best) <= d j)
      /\ (forall j, (j < fst best)%nat -> d (fst best) < d j)
  end.

End Side.

Import Side.

(** ** Vocabulary of the session statements *)

Module Trace.

(** [sampleData] after a click on the device c, a right click on the
    [custom] link (c, d) and the start of a drag of that link's only handle. *)
Definition draggingState : State :=
  step (step (step sampleData (DeviceClick "c")) (LinkContextMenu 3))
       (HandleDragStart 0).

(** [sampleData] with a link from the device a to itself. *)
Definition selfLoopState : State := addLink "a" "a" sampleData.

(** The link that [selfLoopState] adds, in each of the styles. *)
Definition selfLoop (sty : LinkStyle) : Link :=
  {| source := "a"; target := "a"; style := sty;
     waypoints := Some []; curvy := None |}.

(** The events whose handlers never leave a drag recorded outside the edit
    session of its link. *)
Definition keepsSession (e : Event) : Prop :=
  match e with
  | LinkContextMenu _ | PopupEditPath _ => False
  | PopupDelete _ | PopupRemoveLink _ => False
  | KeyDown Delete _ | KeyDown Backspace _ => False
  | PopupStyleSelect _ straight | PopupStyleSelect _ curved => False
  | _ => True
  end.

End Trace.

Import Trace.


(** ** Distances to a segment *)

Module Distance.

(** The squared distance between two points. *)
Definition sqDist (p q : Point) : R :=
  (fst p - fst q) * (fst p - fst q) + (snd p - snd q) * (snd p - snd q).

(** The point of the line through [a] and [b] at parameter [s]. *)
Definition along (a b : Point) (s : R) : Point :=
  (fst a + s * (fst b - fst a), snd a + s * (snd b - snd a)).

(** The point of the chord from [A] to [B] at parameter [t], moved by
    [2 t (1 - t) c] times the left turn of the edge. *)
Definition bowed (A B : Point) (c t : R) : Point :=
  (fst A + t * (fst B - fst A) + 2 * t * (1 - t) * c * fst (leftTurn A B),
   snd A + t * (snd B - snd A) + 2 * t * (1 - t) * c * snd (leftTurn A B)).

(** Three control points of a worked spline. *)
Definition threePoints : list Point := [(0, 0); (1, 1); (2, 0)].

End Distance.

Import Distance.

(** ** Waypoints and styles *)

Module Shape.

(** Only a link of style [custom] carries waypoints. *)
Definition waypointsOnlyCustom (p : list Link) : Prop :=
  forall l, In l p -> style l <> custom -> wpsOf l = [].

(** Every stored link with the pair [(s, t)] has style [custom]. *)
Definition pairIsCustom (s t : string) (p : list Link) : Prop :=
  forall l, In l p -> sameLink s t l = true -> style l = custom.

End Shape.

Import Shape.

(** ** Adding, updating and moving devices *)

Module Nodes.

(** [setDevices(f)]. *)
Definition setDevices (f : list Device -> list Device) (st : State) : State :=
  {| devices := f (devices st); links := links st;
     selectedId := selectedId st; openPopupId := openPopupId st;
     editingLink := editingLink st; draggingWp := draggingWp st |}.

(** The decimal numeral that a template string prints for a counter. *)
Definition numeral (n : nat) : string := NilEmpty.string_of_uint (Nat.to_uint n).

(** [`n${k}`]. *)
Definition nodeId (k : nat) : string := "n" ++ numeral k.

(** The device that [addNodeAt] creates for the counter [k] at [ll], a
    (lat, lng) pair: [coords] is [[ll.lng, ll.lat]]. *)
Definition newNode (k : nat) (ll : Point) : Device :=
  {| id := nodeId k; label := "Node " ++ nodeId k; coords := (snd ll, fst ll);
     status := available; width := 0; height := 0 |}.

(** [addNodeAt(ll)] with the counter [nextId.current]: the state update and
    the incremented counter.  The deferred [openPopupWhenReady] acts through
    the marker registry and is not modelled. *)
Definition addNodeAt (nextId : nat) (ll : Point) (st : State) : State * nat :=
  (setDevices (fun p => p ++ [newNode nextId ll]) st, S nextId).

(** A [Partial<Device>]: [None] is a key that the patch does not have. *)
Record DevicePatch : Type := {
  patchId : option string;
  patchLabel : option string;
  patchCoords : option (R * R);
  patchStatus : option DeviceStatus;
  patchWidth : option R;
  patchHeight : option R
}.

(** [{...d, ...patch}]. *)
Definition applyPatch (d : Device) (patch : DevicePatch) : Device :=
  {| id := default (id d) (patchId patch);
     label := default (label d) (patchLabel patch);
     coords := default (coords d) (patchCoords patch);
     status := default (status d) (patchStatus patch);
     width := default (width d) (patchWidth patch);
     height := default (height d) (patchHeight patch) |}.

(** [updateDevice(id, patch)]. *)
Definition updateDevice (i : string) (patch : DevicePatch) (st : State) : State :=
  setDevices (List.map (fun d => if String.eqb (id d) i then applyPatch d patch else d)) st.

(** The patch [{label, status, width, height}] that the popup form submits. *)
Definition formPatch (lbl : string) (sts : DeviceStatus) (w h : R) : DevicePatch :=
  {| patchId := None; patchLabel := Some lbl; patchCoords := None;
     patchStatus := Some sts; patchWidth := Some w; patchHeight := Some h |}.

(** The [dragend] handler of the marker of the device [d], released at the
    (lat, lng) pair [ll]. *)
Definition onMarkerDragEnd (d : Device) (ll : Point) (st : State) : State :=
  setDevices
    (List.map (fun x =>
                 if String.eqb (id x) (id d)
                 then {| id := id x; label := label x; coords := (snd ll, fst ll);
                         status := status x; width := width x; height := height x |}
                 else x)) st.

(** The events of the component: those of the edit session, a double click
    on the map, the submission of a device's popup form and the end of a
    marker drag. *)
Inductive AppEvent : Type :=
  | Host (e : Event)
  | MapDblClick (ll : Point)
  | FormSubmit (d : string) (lbl : string) (sts : DeviceStatus) (w h : R)
  | MarkerDragEnd (d : string) (ll : Point).

(** One event on the state cells together with the counter [nextId].  The
    form's handler runs for the popup of a stored device; closing the popup
    afterwards is the marker's business. *)
Definition appStep (s : State * nat) (e : AppEvent) : State * nat :=
  match e with
  | Host e' => (step (fst s) e', snd s)
  | MapDblClick ll => addNodeAt (snd s) ll (fst s)
  | FormSubmit d lbl sts w h =>
      match findDevice (fst s) d with
      | Some dev => (updateDevice (id dev) (formPatch lbl sts w h) (fst s), snd s)
      | None => s
      end
  | MarkerDragEnd d ll =>
      match findDevice (fst s) d with
      | Some dev => (onMarkerDragEnd dev ll (fst s), snd s)
      | None => s
      end
  end.

(** The states and counters the component can be in; [nextId] starts at 1. *)
Inductive appReachable : State * nat -> Prop :=
  | appReachable_init : appReachable (sampleData, 1%nat)
  | appReachable_step s e : appReachable s -> appReachable (appStep s e).

(** The ids in use are pairwise different and none is a node id that the
    counter has yet to hand out. *)
Definition idsFresh (s : State * nat) : Prop :=
  NoDup (List.map id (devices (fst s)))
  /\ forall d k, In d (devices (fst s)) -> (snd s <= k)%nat -> id d <> nodeId k.

End Nodes.

Import Nodes.

(** ** Selection and popups: the remaining handlers *)

Module Component.

(** [openPopupWhenReady(id)]; [ref] tells whether the marker registry holds
    a marker for [id].  The popup draft is not part of the state. *)
Definition openPopupWhenReady (i : string) (ref : bool) (st : State) : State :=
  if ref then setSelectedId (Some i) (setOpenPopupId (Some i) st) else st.

(** The [onClick] of [ClosePopupOnMapClick]; the empty string is falsy. *)
Definition onMapClick (st : State) : State :=
  setSelectedId None
    match openPopupId st with
    | Some o => if String.eqb o "" then st else setOpenPopupId None st
    | None => st
    end.

(** A device marker's [dblclick] handler; the popup it opens reports back
    through [popupopen]. *)
Definition onMarkerDblClick (d : Device) (ref : bool) (st : State) : State :=
  openPopupWhenReady (id d) ref st.

(** A device marker's [popupopen] handler. *)
Definition onPopupOpen (d : Device) (st : State) : State :=
  setOpenPopupId (Some (id d)) st.

(** A device marker's [popupclose] handler. *)
Definition onPopupClose (d : Device) (st : State) : State :=
  match openPopupId st with
  | Some o => if String.eqb o (id d) then setOpenPopupId None st else st
  | None => st
  end.

(** Every event of the component whose handler writes a state cell: the
    events of [AppEvent], a click on the map, a marker's [dblclick],
    [popupopen] and [popupclose], and the timer that [addNodeAt] starts for
    [openPopupWhenReady]. *)
Inductive UiEvent : Type :=
  | App (e : AppEvent)
  | MapClick
  | MarkerDblClick (d : string) (ref : bool)
  | PopupOpen (d : string)
  | PopupClose (d : string)
  | PopupTimer (i : string) (ref : bool).

(** One event; a marker event whose device is not stored changes nothing. *)
Definition uiStep (s : State * nat) (e : UiEvent) : State * nat :=
  match e with
  | App e' => appStep s e'
  | MapClick => (onMapClick (fst s), snd s)
  | MarkerDblClick d ref =>
      match findDevice (fst s) d with
      | Some dev => (onMarkerDblClick dev ref (fst s), snd s)
      | None => s
      end
  | PopupOpen d =>
      match findDevice (fst s) d with
      | Some dev => (onPopupOpen dev (fst s), snd s)
      | None => s
      end
  | PopupClose d =>
      match findDevice (fst s) d with
      | Some dev => (onPopupClose dev (fst s), snd s)
      | None => s
      end
  | PopupTimer i ref => (openPopupWhenReady i ref (fst s), snd s)
  end.

(** The states and counters the component can be in. *)
Inductive uiReachable : State * nat -> Prop :=
  | uiReachable_init : uiReachable (sampleData, 1%nat)
  | uiReachable_step s e : uiReachable s -> uiReachable (uiStep s e).

End Component.

Import Component.

(** ** The pan overlay *)

Module Pan.

Inductive PointerEvents : Type := peNone | peAuto.

(** The refs [dragging] and [last] and the state cell [pe] of
    [GraphPanOverlay]. *)
Record Overlay : Type := {
  dragging : bool;
  last : option (R * R);
  pe : PointerEvents
}.

(** The overlay when the component mounts. *)
Definition mounted : Overlay :=
  {| dragging := false; last := None; pe := peNone |}.

(** Truthiness of a number. *)
Definition nonzero (x : R) : bool := if Req_dec_T x 0 then false else true.

(** [onDown]: [button] is [e.button], [(x, y)] is [(e.clientX, e.clientY)]. *)
Definition onDown (button : nat) (x y : R) (o : Overlay) : Overlay :=
  if (button =? 0)%nat
  then {| dragging := true; last := Some (x, y); pe := peAuto |}
  else o.

(** [onMove]: the next overlay and the calls of [onPanBy], in order. *)
Definition onMove (x y : R) (o : Overlay) : Overlay * list (R * R) :=
  if dragging o then
    match last o with
    | Some (lx, ly) =>
        let dx := x - lx in
        let dy := y - ly in
        if nonzero dx || nonzero dy
        then ({| dragging := dragging o; last := Some (x, y); pe := pe o |},
              [(- dx, - dy)])
        else (o, [])
    | None => (o, [])
    end
  else (o, []).

(** [onUp]. *)
Definition onUp (o : Overlay) : Overlay :=
  {| dragging := false; last := None; pe := peNone |}.

(** A run of mouse moves: the last overlay and all calls of [onPanBy]. *)
Fixpoint moves (ps : list (R * R)) (o : Overlay) : Overlay * list (R * R) :=
  match ps with
  | [] => (o, [])
  | (x, y) :: rest =>
      let '(o1, out1) := onMove x y o in
      let '(o2, out2) := moves rest o1 in
      (o2, out1 ++ out2)
  end.

(** The sum of the pan vectors. *)
Definition total (out : list (R * R)) : R * R :=
  fold_right (fun v acc => (fst v + fst acc, snd v + snd acc)) (0, 0) out.

End Pan.
(** * Properties *)

(** ** Lists read by index *)

Lemma lookup_nth_error {A : Type} (l : list A) (i : nat) :
  l !! i = nth_error l i.
Proof.
  revert i. induction l as [|x l IH]; intros [|i]; simpl; auto.
Qed.

Lemma lookup_map_seq {A : Type} (f : nat -> A) (n i : nat) :
  (i < n)%nat -> List.map f (seq 0 n) !! i = Some (f i).
Proof.
  intros Hi. rewrite lookup_nth_error.
  rewrite nth_error_map, nth_error_seq.
  destruct (Nat.ltb_spec i n); [reflexivity | lia].
Qed.

(** ** The curved path *)

Lemma curvedPath_length (a b : Point) (n : nat) (c : R) :
  length (curvedPath a b n c) = S n.
Proof. unfold curvedPath. rewrite length_map, length_seq. reflexivity. Qed.

Lemma curvedPath_lookup (a b : Point) (n i : nat) (c : R) :
  (i <= n)%nat ->
  curvedPath a b n c !! i = Some (curveSample a b (control a b c) n i).
Proof. intros Hi. unfold curvedPath. apply lookup_map_seq. lia. Qed.

Lemma curveSample_first (a b c : Point) (n : nat) :
  curveSample a b c n 0 = a.
Proof.
  unfold curveSample. destruct a as [alat alng]. simpl.
  unfold Rdiv. rewrite Rmult_0_l. f_equal; ring.
Qed.

Lemma curveSample_last (a b c : Point) (n : nat) :
  n <> 0%nat -> curveSample a b c n n = b.
Proof.
  intros Hn. unfold curveSample. destruct b as [blat blng]. simpl.
  assert (Ht : INR n / INR n = 1) by (field; apply not_0_INR; exact Hn).
  rewrite Ht. f_equal; ring.
Qed.

Lemma hypot_nonneg (x y : R) : 0 <= hypot x y.
Proof. apply sqrt_pos. Qed.

Lemma hypot_sqr (x y : R) : hypot x y * hypot x y = x * x + y * y.
Proof. unfold hypot. apply sqrt_sqrt. nra. Qed.

Lemma hypot_turn (x y : R) : hypot (- y) x = hypot x y.
Proof. unfold hypot. f_equal. ring. Qed.

Lemma hypot_zero : hypot 0 0 = 0.
Proof. unfold hypot. replace (0 * 0 + 0 * 0) with 0 by ring. apply sqrt_0. Qed.

Lemma hypot_pos (x y : R) : x <> 0 \/ y <> 0 -> 0 < hypot x y.
Proof.
  intros H. unfold hypot. apply sqrt_lt_R0.
  destruct H as [H | H]; nra.
Qed.

Lemma points_differ (A B : Point) :
  A <> B -> fst B - fst A <> 0 \/ snd B - snd A <> 0.
Proof.
  destruct A as [a1 a2], B as [b1 b2]; simpl. intros H.
  destruct (Req_dec_T (b1 - a1) 0) as [E1 | N1]; [|now left].
  destruct (Req_dec_T (b2 - a2) 0) as [E2 | N2]; [|now right].
  exfalso. apply H. f_equal; lra.
Qed.

Lemma edgeLength_pos (A B : Point) : A <> B -> 0 < edgeLength A B.
Proof. intros H. apply hypot_pos, points_differ, H. Qed.

Lemma orElse_nonzero (x d : R) : d <> 0 -> orElse x d <> 0.
Proof. intros Hd. unfold orElse. destruct (Req_dec_T x 0); auto. Qed.

Lemma orElse_keep (x d : R) : x <> 0 -> orElse x d = x.
Proof. intros Hx. unfold orElse. destruct (Req_dec_T x 0); [contradiction | reflexivity]. Qed.

Lemma orElse_zero (d : R) : orElse 0 d = d.
Proof. unfold orElse. destruct (Req_dec_T 0 0); [reflexivity | contradiction]. Qed.

Lemma plen_nonzero (a b : Point) : plen a b <> 0.
Proof. unfold plen. apply orElse_nonzero. lra. Qed.

Lemma vv_pos (a b : Point) : 0 < vv a b.
Proof.
  unfold vv, orElse.
  destruct (Req_dec_T _ 0) as [E | N]; [clear E; lra|].
  set (x := fst b - fst a) in *. set (y := snd b - snd a) in *. nra.
Qed.

Lemma plen_distinct (A B : Point) : A <> B -> plen A B = edgeLength A B.
Proof.
  intros H. pose proof (edgeLength_pos A B H) as Hp.
  unfold plen, edgeLength in *. cbv zeta. rewrite hypot_turn.
  apply orElse_keep. apply Rgt_not_eq, Hp.
Qed.

(** The control point of a curved link with distinct endpoints is the
    midpoint pushed along the left unit normal by [|B - A| * curvature]. *)
Lemma control_distinct (A B : Point) (c : R) :
  A <> B ->
  control A B c = offsetBy (midpoint A B) (leftNormal A B) (edgeLength A B * c).
Proof.
  intros H. unfold control. rewrite (plen_distinct A B H).
  destruct A as [alat alng], B as [blat blng]. reflexivity.
Qed.

Lemma leftNormal_unit (A B : Point) :
  A <> B -> dot (leftNormal A B) (leftNormal A B) = 1.
Proof.
  intros H. pose proof (edgeLength_pos A B H) as Hp.
  pose proof (hypot_sqr (fst B - fst A) (snd B - snd A)) as Hs.
  fold (edgeLength A B) in Hs.
  unfold dot, leftNormal, leftTurn. simpl.
  set (d := edgeLength A B) in *. set (x := fst B - fst A) in *.
  set (y := snd B - snd A) in *.
  assert (Hd : d <> 0) by lra.
  replace (- y / d * (- y / d) + x / d * (x / d)) with ((x * x + y * y) / (d * d))
    by (field; exact Hd).
  rewrite <- Hs. field. exact Hd.
Qed.

Lemma leftNormal_orthogonal (A B : Point) :
  dot (leftNormal A B) (vec A B) = 0.
Proof. unfold dot, leftNormal, leftTurn, vec. simpl. unfold Rdiv. ring. Qed.

Lemma INR_14_28 : INR 14 / INR 28 = 1 / 2.
Proof. simpl. lra. Qed.

(** The sample of the curve at [t = 1/2]. *)
Lemma curveSample_half (A B : Point) (P : Point) (k : R) :
  curveSample A B (offsetBy (midpoint A B) P k) 28 14
  = offsetBy (midpoint A B) P (k / 2).
Proof.
  unfold curveSample. rewrite INR_14_28.
  unfold offsetBy, midpoint. simpl. f_equal; field.
Qed.

(** ** Rendering a link *)

(** C1. A link of style [straight] whose two devices exist is rendered as
    exactly the two points [A; B], the (lat, lng) positions of its source
    and target device. *)
Theorem straight_render_is_endpoints (st : State) (l : Link) (a b : Device) :
  findDevice st (source l) = Some a ->
  findDevice st (target l) = Some b ->
  style l = straight ->
  computeRenderPath st l = Some [latlng a; latlng b].
Proof.
  intros Ha Hb Hs. unfold computeRenderPath. rewrite Ha, Hb, Hs. reflexivity.
Qed.

(** C2. A link of style [curved] is rendered as 29 points, the first being
    [A] and the last [B]; for [A <> B] the sample at [t = 1/2] (index 14) is
    the midpoint of [A] and [B] moved by [|B - A| * 0.28 / 2] along the unit
    vector that is perpendicular to the edge. *)
Theorem curved_render_shape (st : State) (l : Link) (a b : Device) :
  findDevice st (source l) = Some a ->
  findDevice st (target l) = Some b ->
  style l = curved ->
  exists path,
    computeRenderPath st l = Some path
    /\ length path = 29%nat
    /\ path !! 0%nat = Some (latlng a)
    /\ path !! 28%nat = Some (latlng b)
    /\ (latlng a <> latlng b ->
        path !! 14%nat
        = Some (offsetBy (midpoint (latlng a) (latlng b))
                         (leftNormal (latlng a) (latlng b))
                         (edgeLength (latlng a) (latlng b) * 0.28 / 2))
        /\ dot (leftNormal (latlng a) (latlng b)) (leftNormal (latlng a) (latlng b)) = 1
        /\ dot (leftNormal (latlng a) (latlng b)) (vec (latlng a) (latlng b)) = 0).
Proof.
  intros Ha Hb Hs. unfold computeRenderPath. rewrite Ha, Hb, Hs.
  set (A := latlng a). set (B := latlng b).
  exists (curvedPath A B 28 0.28). split; [reflexivity|].
  split; [apply curvedPath_length|].
  split; [rewrite curvedPath_lookup by lia; f_equal; apply curveSample_first|].
  split; [rewrite curvedPath_lookup by lia; f_equal; apply curveSample_last; lia|].
  intros Hne. split; [|split].
  - rewrite curvedPath_lookup by lia. f_equal.
    rewrite (control_distinct A B _ Hne), curveSample_half.
    f_equal.
  - apply leftNormal_unit, Hne.
  - apply leftNormal_orthogonal.
Qed.

(** ** The spline through the control points *)

Lemma catmullRomSpline_short (points : list Point) (n : nat) :
  (length points <= 2)%nat -> catmullRomSpline points n = points.
Proof.
  intros H. unfold catmullRomSpline.
  destruct (Nat.leb_spec (length points) 2); [reflexivity | lia].
Qed.

Lemma crCoord_start (p0 p1 p2 p3 : R) : crCoord p0 p1 p2 p3 0 = p1.
Proof. unfold crCoord. lra. Qed.

Lemma nth_last_snoc {A : Type} (l : list A) (x d : A) :
  nth (length (l ++ [x]) - 1) (l ++ [x]) d = x.
Proof.
  rewrite length_app. simpl.
  replace (length l + 1 - 1)%nat with (length l) by lia.
  rewrite app_nth2 by lia. rewrite Nat.sub_diag. reflexivity.
Qed.

(** With at least one waypoint the spline starts with the first control
    point and ends with the last one. *)
Lemma catmullRomSpline_ends (A B w : Point) (wps : list Point) (n : nat) :
  exists mid, catmullRomSpline (A :: (w :: wps) ++ [B]) (S n) = A :: mid ++ [B].
Proof.
  unfold catmullRomSpline.
  set (points := A :: (w :: wps) ++ [B]).
  assert (Hlen : length points = S (S (S (length wps)))).
  { unfold points. simpl. rewrite length_app. simpl. lia. }
  destruct (Nat.leb_spec (length points) 2) as [Hle | _]; [lia|].
  assert (Hlast : nth (length points - 1) points (0, 0) = B).
  { unfold points. change (A :: (w :: wps) ++ [B]) with ((A :: w :: wps) ++ [B]).
    apply nth_last_snoc. }
  rewrite Hlast. cbv zeta.
  set (P := nth 0 points (0, 0) :: points ++ [B]).
  assert (HP : (length P - 3 = S (S (length wps)))%nat).
  { unfold P. cbn [length]. rewrite length_app, Hlen. simpl. lia. }
  rewrite HP.
  change (flat_map (crWindow P (S n)) (seq 0 (S (S (length wps)))))
    with (crWindow P (S n) 0
          ++ flat_map (crWindow P (S n)) (seq 1 (S (length wps)))).
  assert (Hw : exists rest, crWindow P (S n) 0 = A :: rest).
  { unfold crWindow. change (seq 0 (S n)) with (0%nat :: seq 1 n).
    cbn [List.map]. eexists. f_equal.
    change (INR 0) with 0. unfold Rdiv. rewrite Rmult_0_l, !crCoord_start.
    unfold P, points. simpl. destruct A; reflexivity. }
  destruct Hw as [rest ->].
  exists (rest ++ flat_map (crWindow P (S n)) (seq 1 (S (length wps)))).
  reflexivity.
Qed.

(** C3. A link of style [custom] that is not curvy is rendered as its
    control points [A :: waypoints ++ [B]]; a curvy one is rendered as a
    sequence that starts with [A] and ends with [B], and as the control
    points themselves when there are at most two of them. *)
Theorem custom_render_shape (st : State) (l : Link) (a b : Device) :
  findDevice st (source l) = Some a ->
  findDevice st (target l) = Some b ->
  style l = custom ->
  (isCurvy l = false ->
   computeRenderPath st l = Some (latlng a :: wpsOf l ++ [latlng b]))
  /\ (isCurvy l = true ->
      exists mid, computeRenderPath st l = Some (latlng a :: mid ++ [latlng b]))
  /\ (isCurvy l = true ->
      (length (latlng a :: wpsOf l ++ [latlng b]) <= 2)%nat ->
      computeRenderPath st l = Some (latlng a :: wpsOf l ++ [latlng b])).
Proof.
  intros Ha Hb Hs. unfold computeRenderPath. rewrite Ha, Hb, Hs. cbv zeta.
  split; [|split].
  - intros Hc. rewrite Hc. reflexivity.
  - intros Hc. rewrite Hc. destruct (wpsOf l) as [|w wps].
    + exists []. reflexivity.
    + destruct (catmullRomSpline_ends (latlng a) (latlng b) w wps 13) as [mid Hmid].
      exists mid. f_equal. exact Hmid.
  - intros Hc Hlen. rewrite Hc. f_equal. apply catmullRomSpline_short, Hlen.
Qed.

(** ** The nearest segment *)

Section NearestLoop.
Variable vertices : list Point.
Variable p : Point.

Lemma nearestStep_inv (n : nat) (best : nat * option R) :
  loopInv (distAt vertices p) n best ->
  loopInv (distAt vertices p) (S n) (nearestStep vertices p best n).
Proof.
  unfold nearestStep. set (d := distAt vertices p). destruct n as [|n].
  - simpl. intros ->. simpl. repeat split; try lia.
    + intros j Hj. assert (j = 0%nat) by lia. subst. lra.
  - intros (Hi & Hd & Hmin & Hfirst). destruct best as [bi bd]. simpl in *.
    subst bd. simpl. destruct (Rlt_dec (d (S n)) (d bi)) as [Hlt | Hge]; simpl.
    + repeat split; try lia.
      * intros j Hj. destruct (Nat.eq_dec j (S n)) as [-> | Hne]; [lra|].
        specialize (Hmin j ltac:(lia)). lra.
      * intros j Hj. specialize (Hmin j ltac:(lia)). lra.
    + repeat split; try lia; auto.
      intros j Hj. destruct (Nat.eq_dec j (S n)) as [-> | Hne]; [lra|].
      apply Hmin. lia.
Qed.

Lemma nearestLoop_inv (n : nat) :
  loopInv (distAt vertices p) n
          (fold_left (nearestStep vertices p) (seq 0 n) (0%nat, None)).
Proof.
  induction n as [|n IH]; [reflexivity|].
  rewrite seq_S, fold_left_app. simpl fold_left.
  apply nearestStep_inv, IH.
Qed.
End NearestLoop.




(** The distance computed for a segment is the least squared distance
    from [p] to a point of the segment. *)
Lemma segmentD_closest (a b p : Point) (s : R) :
  0 <= s <= 1 ->
  segmentD a b p
  <= (fst p - (fst a + s * (fst b - fst a))) * (fst p - (fst a + s * (fst b - fst a)))
     + (snd p - (snd a + s * (snd b - snd a))) * (snd p - (snd a + s * (snd b - snd a))).
Proof.
  intros Hs. unfold segmentD, vv. cbv zeta.
  set (vx := fst b - fst a). set (vy := snd b - snd a).
  set (wx := fst p - fst a). set (wy := snd p - snd a).
  replace (fst p - (fst a + s * vx)) with (wx - s * vx) by (unfold wx; ring).
  replace (snd p - (snd a + s * vy)) with (wy - s * vy) by (unfold wy; ring).
  set (t0 := (vx * wx + vy * wy) / orElse (vx * vx + vy * vy) 1e-9).
  set (t := Rmax 0 (Rmin 1 t0)).
  replace (fst p - (fst a + t * vx)) with (wx - t * vx) by (unfold wx; ring).
  replace (snd p - (snd a + t * vy)) with (wy - t * vy) by (unfold wy; ring).
  assert (Hkey : (wx - s * vx) * (wx - s * vx) + (wy - s * vy) * (wy - s * vy)
                 - ((wx - t * vx) * (wx - t * vx) + (wy - t * vy) * (wy - t * vy))
                 = (s - t) * ((s + t) * (vx * vx + vy * vy)
                              - 2 * (vx * wx + vy * wy))) by ring.
  assert (Hd : (vx * wx + vy * wy) = t0 * (vx * vx + vy * vy)).
  { unfold t0, orElse. destruct (Req_dec_T (vx * vx + vy * vy) 0) as [E | N].
    - assert (vx = 0) by nra. assert (vy = 0) by nra. subst vx vy.
      rewrite H, H0. ring.
    - field. exact N. }
  assert (Hv : 0 <= vx * vx + vy * vy) by nra.
  rewrite Hd in Hkey.
  clearbody vx vy wx wy t0. set (v := vx * vx + vy * vy) in *. clearbody v.
  assert (Hgoal : 0 <= (s - t) * ((s + t) * v - 2 * (t0 * v))); [|lra].
  assert (Ht : (1 <= t0 /\ t = 1) \/ (0 <= t0 < 1 /\ t = t0) \/ (t0 < 0 /\ t = 0)).
  { unfold t, Rmax, Rmin.
    destruct (Rle_dec 1 t0) as [H1 | H1]; destruct (Rle_dec 0 _) as [H2 | H2];
      cbv iota;
      first [ left; split; [lra | reflexivity]
            | right; left; split; [lra | reflexivity]
            | right; right; split; [lra | reflexivity]
            | lra ]. }
  clearbody t. destruct Ht as [[H1 ->] | [[H1 ->] | [H1 ->]]].
  - replace ((s - 1) * ((s + 1) * v - 2 * (t0 * v)))
      with (v * ((1 - s) * (2 * t0 - s - 1))) by ring.
    apply Rmult_le_pos; [exact Hv|]. apply Rmult_le_pos; lra.
  - replace ((s - t0) * ((s + t0) * v - 2 * (t0 * v)))
      with (v * ((s - t0) * (s - t0))) by ring.
    apply Rmult_le_pos; [exact Hv|]. apply Rle_0_sqr.
  - replace ((s - 0) * ((s + 0) * v - 2 * (t0 * v)))
      with (v * (s * (s - 2 * t0))) by ring.
    apply Rmult_le_pos; [exact Hv|]. apply Rmult_le_pos; lra.
Qed.

(** ** The link store *)

Lemma sameLink_true (s t : string) (l : Link) :
  sameLink s t l = true <-> source l = s /\ target l = t.
Proof.
  unfold sameLink. rewrite andb_true_iff, !String.eqb_eq. reflexivity.
Qed.

Lemma existsb_sameLink (s t : string) (p : list Link) :
  existsb (sameLink s t) p = true <-> hasLink s t p.
Proof.
  rewrite existsb_exists. unfold hasLink.
  split; intros (l & Hin & H); exists l; split; auto; apply sameLink_true; exact H.
Qed.

Lemma state_eta (st : State) :
  {| devices := devices st; links := links st; selectedId := selectedId st;
     openPopupId := openPopupId st; editingLink := editingLink st;
     draggingWp := draggingWp st |} = st.
Proof. destruct st; reflexivity. Qed.

Lemma addLink_present (s t : string) (st : State) :
  hasLink s t (links st) -> addLink s t st = st.
Proof.
  intros H. apply existsb_sameLink in H. unfold addLink, setLinks.
  rewrite H. apply state_eta.
Qed.

Lemma addLink_absent (s t : string) (st : State) :
  ~ hasLink s t (links st) ->
  links (addLink s t st) = links st ++ [freshLink s t].
Proof.
  intros H. unfold addLink, setLinks. simpl.
  destruct (existsb (sameLink s t) (links st)) eqn:E; [|reflexivity].
  exfalso. apply H, existsb_sameLink, E.
Qed.

Lemma hasLink_after_addLink (s t : string) (st : State) :
  hasLink s t (links (addLink s t st)).
Proof.
  destruct (existsb (sameLink s t) (links st)) eqn:E.
  - rewrite addLink_present; apply existsb_sameLink; exact E.
  - rewrite addLink_absent.
    + exists (freshLink s t). split; [apply in_or_app; right; left|]; auto.
    + intros H. apply existsb_sameLink in H. congruence.
Qed.

Lemma pairCount_absent (s t : string) (p : list Link) :
  ~ hasLink s t p -> pairCount s t p = 0%nat.
Proof.
  intros H. unfold pairCount. induction p as [|l p IH]; [reflexivity|].
  simpl. destruct (sameLink s t l) eqn:E.
  - exfalso. apply H. exists l. split; [left; reflexivity | apply sameLink_true, E].
  - apply IH. intros (l' & Hin & Hl'). apply H. exists l'. split; [right|]; auto.
Qed.

Lemma pairCount_present (s t : string) (p : list Link) :
  hasLink s t p -> (1 <= pairCount s t p)%nat.
Proof.
  intros (l & Hin & Hl). unfold pairCount.
  assert (Hf : In l (List.filter (sameLink s t) p)).
  { apply List.filter_In. split; [exact Hin | apply sameLink_true, Hl]. }
  destruct (List.filter (sameLink s t) p); [destruct Hf | simpl; lia].
Qed.

Lemma pairCount_app (s t : string) (p q : list Link) :
  pairCount s t (p ++ q) = (pairCount s t p + pairCount s t q)%nat.
Proof. unfold pairCount. rewrite List.filter_app, length_app. reflexivity. Qed.

Lemma pairCount_fresh (s t : string) : pairCount s t [freshLink s t] = 1%nat.
Proof.
  unfold pairCount. simpl.
  assert (E : sameLink s t (freshLink s t) = true) by (apply sameLink_true; auto).
  rewrite E. reflexivity.
Qed.

(** ** Uniqueness of the ordered pairs *)

Lemma pairCount_map_keep (s t : string) (g : Link -> Link) (p : list Link) :
  (forall l, sameLink s t (g l) = sameLink s t l) ->
  pairCount s t (List.map g p) = pairCount s t p.
Proof.
  intros Hg. unfold pairCount. induction p as [|l p IH]; [reflexivity|].
  simpl. rewrite Hg. destruct (sameLink s t l); simpl; rewrite IH; reflexivity.
Qed.

Lemma pairCount_filter (s t : string) (f : Link -> bool) (p : list Link) :
  (pairCount s t (List.filter f p) <= pairCount s t p)%nat.
Proof.
  unfold pairCount. induction p as [|l p IH]; [reflexivity|].
  simpl. destruct (f l); simpl; destruct (sameLink s t l); simpl; lia.
Qed.

Lemma sameLink_update (s t s' t' : string) (g : Link -> Link) (l : Link) :
  (forall x, source (g x) = source x /\ target (g x) = target x) ->
  sameLink s t (if sameLink s' t' l then g l else l) = sameLink s t l.
Proof.
  intros Hg. destruct (sameLink s' t' l); [|reflexivity].
  unfold sameLink. destruct (Hg l) as [-> ->]. reflexivity.
Qed.

Lemma uniquePairs_setLinkStyle (s t : string) (sty : LinkStyle) (st : State) :
  uniquePairs (links st) -> uniquePairs (links (setLinkStyle s t sty st)).
Proof.
  intros H s' t'. unfold setLinkStyle, setLinks. simpl.
  rewrite pairCount_map_keep; [apply H|].
  intros l. apply (sameLink_update s' t' s t (fun x => withStyle x sty)). auto.
Qed.

Lemma uniquePairs_setLinkCurvy (s t : string) (c : bool) (st : State) :
  uniquePairs (links st) -> uniquePairs (links (setLinkCurvy s t c st)).
Proof.
  intros H s' t'. unfold setLinkCurvy, setLinks. simpl.
  rewrite pairCount_map_keep; [apply H|].
  intros l. apply (sameLink_update s' t' s t (fun x => withCurvy x c)). auto.
Qed.

Lemma uniquePairs_setLinkWaypoints (s t : string) (wps : list Point) (st : State) :
  uniquePairs (links st) -> uniquePairs (links (setLinkWaypoints s t wps st)).
Proof.
  intros H s' t'. unfold setLinkWaypoints, setLinks. simpl.
  rewrite pairCount_map_keep; [apply H|].
  intros l. apply (sameLink_update s' t' s t (fun x => withWaypoints x wps)). auto.
Qed.

Lemma uniquePairs_filter (f : Link -> bool) (p : list Link) :
  uniquePairs p -> uniquePairs (List.filter f p).
Proof.
  intros H s t. pose proof (pairCount_filter s t f p). specialize (H s t). lia.
Qed.

Lemma uniquePairs_removeDevice (i : string) (st : State) :
  uniquePairs (links st) -> uniquePairs (links (removeDevice i st)).
Proof. intros H. unfold removeDevice. simpl. apply uniquePairs_filter, H. Qed.

Lemma uniquePairs_removeLink (s t : string) (st : State) :
  uniquePairs (links st) -> uniquePairs (links (removeLink s t st)).
Proof.
  intros H. unfold removeLink. destruct (isEditing st s t); simpl;
    apply uniquePairs_filter, H.
Qed.

Lemma pairCount_other (s t s' t' : string) :
  (s', t') <> (s, t) -> pairCount s' t' [freshLink s t] = 0%nat.
Proof.
  intros Hne. unfold pairCount. simpl.
  destruct (sameLink s' t' (freshLink s t)) eqn:E; [|reflexivity].
  apply sameLink_true in E. simpl in E. destruct E as [-> ->]. contradiction.
Qed.

Lemma uniquePairs_addLink (s t : string) (st : State) :
  uniquePairs (links st) -> uniquePairs (links (addLink s t st)).
Proof.
  intros H s' t'.
  destruct (existsb (sameLink s t) (links st)) eqn:E.
  - apply existsb_sameLink in E. rewrite (addLink_present s t st E). apply H.
  - assert (Hno : ~ hasLink s t (links st)).
    { intros Hh. apply existsb_sameLink in Hh. congruence. }
    rewrite (addLink_absent s t st Hno), pairCount_app.
    destruct (String.string_dec s' s) as [-> | Hs].
    + destruct (String.string_dec t' t) as [-> | Ht].
      * rewrite (pairCount_absent s t _ Hno), pairCount_fresh. lia.
      * rewrite pairCount_other by congruence. specialize (H s t'). lia.
    + rewrite pairCount_other by congruence. specialize (H s' t'). lia.
Qed.

Lemma uniquePairs_seedFromCurve (st0 : State) (l : Link) (n : nat) (st : State) :
  uniquePairs (links st) -> uniquePairs (links (seedFromCurve st0 l n st)).
Proof.
  intros H. unfold seedFromCurve.
  destruct (findDevice st0 (source l)); [|exact H].
  destruct (findDevice st0 (target l)); [|exact H].
  apply uniquePairs_setLinkWaypoints, H.
Qed.

Lemma uniquePairs_setEditingLink (e : option (string * string)) (st : State) :
  uniquePairs (links st) -> uniquePairs (links (setEditingLink e st)).
Proof. intros H. exact H. Qed.

Create HintDb links.

#[local] Hint Resolve uniquePairs_setLinkStyle uniquePairs_setLinkCurvy
  uniquePairs_setLinkWaypoints uniquePairs_removeDevice uniquePairs_removeLink
  uniquePairs_addLink uniquePairs_seedFromCurve uniquePairs_setEditingLink
  : links.

Lemma uniquePairs_beginEdit (st0 : State) (l : Link) (st : State) :
  uniquePairs (links st) -> uniquePairs (links (beginEditUpdates st0 l st)).
Proof.
  intros H. unfold beginEditUpdates.
  destruct (style l); [destruct (waypoints l)| |]; auto 6 with links.
Qed.

Lemma uniquePairs_styleSelect (l : Link) (ns : LinkStyle) (st : State) :
  uniquePairs (links st) -> uniquePairs (links (onStyleSelect l ns st)).
Proof.
  intros H. unfold onStyleSelect. cbv zeta beta.
  destruct ns; [| |destruct (style l); try destruct (waypoints l)];
    try destruct (isEditing st (source l) (target l));
    auto 8 with links.
Qed.

Lemma uniquePairs_step (st : State) (e : Event) :
  uniquePairs (links st) -> uniquePairs (links (step st e)).
Proof.
  intros H. destruct e; simpl step.
  - destruct (renderedAt st k) as [[[l a] b]|]; [|exact H].
    apply uniquePairs_beginEdit, H.
  - destruct (renderedAt st k) as [[[l a] b]|]; [|exact H].
    unfold onClick. destruct (_ && _); [|exact H].
    apply uniquePairs_setLinkWaypoints, H.
  - destruct (renderedAt st k) as [[[l a] b]|]; [|exact H].
    unfold onMouseDown. destruct (_ && _); [|exact H].
    apply uniquePairs_setLinkWaypoints, H.
  - unfold onMouseMove. destruct (draggingWp st) as [[[s t] i]|]; [|exact H].
    destruct (findLink st s t) as [l|]; [|exact H].
    destruct (style l); try exact H.
    destruct (wpsOf l !! i); [|exact H].
    apply uniquePairs_setLinkWaypoints, H.
  - unfold onMouseUp. destruct (draggingWp st); exact H.
  - unfold onMapContextMenu. destruct (editingLink st); exact H.
  - unfold onKey.
    assert (H1 : uniquePairs
                   (links match key, editingLink st with
                          | Escape, Some _ => setDraggingWp None (setEditingLink None st)
                          | _, _ => st
                          end)).
    { destruct key, (editingLink st); exact H. }
    destruct (selectedId st); [|exact H1]. destruct typing; [exact H1|].
    destruct key; try exact H1; apply uniquePairs_removeDevice, H1.
  - destruct (handleAt st i); exact H.
  - destruct (handleAt st i) as [l|]; [|exact H].
    apply (uniquePairs_setLinkWaypoints _ _ _ st), H.
  - destruct (handleAt st i) as [l|]; [|exact H].
    apply uniquePairs_setLinkWaypoints, H.
  - destruct (findDevice st d) as [dev|]; [|exact H].
    unfold onDeviceClick. destruct (openPopupId st) as [o|]; [|exact H].
    destruct (String.eqb o (id dev)); exact H.
  - destruct (findDevice st d) as [dev|]; [|exact H].
    apply uniquePairs_removeDevice, H.
  - destruct (findDevice st d) as [dev|]; [|exact H].
    destruct (String.eqb t ""); [exact H|]. apply uniquePairs_addLink, H.
  - destruct (incidentAt st k) as [l|]; [|exact H].
    apply uniquePairs_styleSelect, H.
  - destruct (incidentAt st k) as [l|]; [|exact H].
    destruct (style l); try exact H. apply uniquePairs_setLinkCurvy, H.
  - destruct (incidentAt st k) as [l|]; [|exact H].
    apply uniquePairs_beginEdit, H.
  - destruct (incidentAt st k) as [l|]; [|exact H].
    destruct (style l); try exact H. apply uniquePairs_setLinkWaypoints, H.
  - destruct (incidentAt st k) as [l|]; [|exact H].
    apply uniquePairs_removeLink, H.
Qed.

Lemma uniquePairs_sampleData : uniquePairs (links sampleData).
Proof.
  intros s t. unfold pairCount. simpl.
  destruct (sameLink s t linkAB) eqn:E1; destruct (sameLink s t linkBC) eqn:E2;
    destruct (sameLink s t linkAC) eqn:E3; destruct (sameLink s t linkCD) eqn:E4;
    simpl; try lia;
    repeat match goal with
           | H : sameLink _ _ _ = true |- _ =>
               apply sameLink_true in H; simpl in H; destruct H
           end;
    congruence.
Qed.

(** In every state the component can be in, no two links share an ordered
    pair. *)
Lemma reachable_uniquePairs (st : State) :
  reachable st -> uniquePairs (links st).
Proof.
  induction 1 as [|st e _ IH]; [apply uniquePairs_sampleData|].
  apply uniquePairs_step, IH.
Qed.

(** The handlers outside the edit session write [devices], [selectedId] or
    [openPopupId]: a property of the links that the events of the edit
    session keep is kept by every event of the component. *)
Lemma links_invariant_uiStep (P : list Link -> Prop) (s : State * nat) (e : UiEvent) :
  (forall st e', P (links st) -> P (links (step st e'))) ->
  P (links (fst s)) -> P (links (fst (uiStep s e))).
Proof.
  intros Hstep H. destruct s as [st n].
  destruct e as [[e' | ll | d lbl sts w h | d ll] | | d ref | d | d | i ref];
    simpl in *.
  - apply Hstep, H.
  - exact H.
  - destruct (findDevice st d); exact H.
  - destruct (findDevice st d); exact H.
  - unfold onMapClick. destruct (openPopupId st) as [o|]; [|exact H].
    destruct (String.eqb o ""); exact H.
  - destruct (findDevice st d); [|exact H]. destruct ref; exact H.
  - destruct (findDevice st d); exact H.
  - destruct (findDevice st d) as [dev|]; [|exact H].
    unfold onPopupClose. simpl. destruct (openPopupId st) as [o|]; [|exact H].
    destruct (String.eqb o (id dev)); exact H.
  - destruct ref; exact H.
Qed.

Lemma uiReachable_links_invariant (P : list Link -> Prop) :
  P (links sampleData) ->
  (forall st e, P (links st) -> P (links (step st e))) ->
  forall s, uiReachable s -> P (links (fst s)).
Proof.
  intros H0 Hstep s Hr. induction Hr as [|s e _ IH]; [exact H0|].
  apply links_invariant_uiStep; assumption.
Qed.

(** Whatever the user does, no two links share an ordered pair. *)
Lemma uiReachable_uniquePairs (s : State * nat) :
  uiReachable s -> uniquePairs (links (fst s)).
Proof.
  apply (uiReachable_links_invariant uniquePairs).
  - apply uniquePairs_sampleData.
  - apply uniquePairs_step.
Qed.

Lemma appReachable_uiReachable (s : State * nat) :
  appReachable s -> uiReachable s.
Proof.
  induction 1 as [|s e _ IH]; [apply uiReachable_init|].
  apply (uiReachable_step s (App e)), IH.
Qed.

Lemma reachable_uiReachable (st : State) :
  reachable st -> uiReachable (st, 1%nat).
Proof.
  induction 1 as [|st e _ IH]; [apply uiReachable_init|].
  apply (uiReachable_step (st, 1%nat) (App (Host e))), IH.
Qed.

(** C5. [addLink(s, t)] appends a [straight] link without waypoints exactly
    when no link with the ordered pair [(s, t)] is stored, and changes
    nothing otherwise; a second call changes nothing, and on a store that
    holds the pair at most once, as every store the component can reach
    does, two calls leave it exactly once. *)
Theorem addLink_inserts_iff_absent (s t : string) (st : State) :
  (links (addLink s t st) = links st ++ [freshLink s t]
   <-> ~ hasLink s t (links st))
  /\ (hasLink s t (links st) -> addLink s t st = st)
  /\ addLink s t (addLink s t st) = addLink s t st
  /\ ((pairCount s t (links st) <= 1)%nat ->
      pairCount s t (links (addLink s t (addLink s t st))) = 1%nat)
  /\ (reachable st ->
      pairCount s t (links (addLink s t (addLink s t st))) = 1%nat).
Proof.
  assert (Hone : (pairCount s t (links st) <= 1)%nat ->
                 pairCount s t (links (addLink s t (addLink s t st))) = 1%nat).
  { intros Hle. rewrite (addLink_present s t (addLink s t st))
      by apply hasLink_after_addLink.
    destruct (existsb (sameLink s t) (links st)) eqn:E.
    + apply existsb_sameLink in E. rewrite (addLink_present s t st E).
      pose proof (pairCount_present s t _ E). lia.
    + assert (Hno : ~ hasLink s t (links st)).
      { intros H. apply existsb_sameLink in H. congruence. }
      rewrite (addLink_absent s t st Hno), pairCount_app, pairCount_fresh.
      rewrite (pairCount_absent s t _ Hno). reflexivity. }
  split; [|split; [|split; [|split]]].
  - split; [|apply addLink_absent].
    intros Heq Hhas. rewrite (addLink_present s t st Hhas) in Heq.
    apply (f_equal (@length Link)) in Heq. rewrite length_app in Heq.
    simpl in Heq. lia.
  - apply addLink_present.
  - apply addLink_present, hasLink_after_addLink.
  - exact Hone.
  - intros Hr. apply Hone. apply (reachable_uniquePairs st Hr).
Qed.

(** ** Removing a device *)

Lemma clearIf_idem (i : string) (c : option string) :
  clearIf i (clearIf i c) = clearIf i c.
Proof.
  destruct c as [j|]; simpl; [|reflexivity].
  destruct (String.eqb j i) eqn:E; simpl; [reflexivity|]. rewrite E. reflexivity.
Qed.

Lemma clearIf_other (i : string) (c : option string) :
  c <> Some i -> clearIf i c = c.
Proof.
  destruct c as [j|]; simpl; [|reflexivity]. intros H.
  destruct (String.eqb_spec j i) as [-> | _]; [contradiction | reflexivity].
Qed.

Lemma filter_idem {A : Type} (f : A -> bool) (l : list A) :
  List.filter f (List.filter f l) = List.filter f l.
Proof.
  induction l as [|x l IH]; [reflexivity|]. simpl.
  destruct (f x) eqn:E; simpl; [rewrite E|]; congruence.
Qed.

Lemma filter_all {A : Type} (f : A -> bool) (l : list A) :
  (forall x, In x l -> f x = true) -> List.filter f l = l.
Proof.
  induction l as [|x l IH]; intros H; [reflexivity|]. simpl.
  rewrite (H x (or_introl eq_refl)). f_equal. apply IH.
  intros y Hy. apply H. right. exact Hy.
Qed.

Lemma removeDevice_idem (i : string) (st : State) :
  removeDevice i (removeDevice i st) = removeDevice i st.
Proof.
  unfold removeDevice. simpl. rewrite !filter_idem, !clearIf_idem.
  f_equal. destruct (editingLink st) as [[s t]|]; [|reflexivity].
  destruct (String.eqb s i || String.eqb t i) eqn:E; [reflexivity|].
  rewrite E. reflexivity.
Qed.

Lemma removeDevice_absent (i : string) (st : State) :
  absent i st -> removeDevice i st = st.
Proof.
  intros (Hd & Hl & Hs & Ho & He). unfold removeDevice.
  assert (E1 : List.filter (fun d => negb (String.eqb (id d) i)) (devices st)
               = devices st).
  { apply filter_all. intros d Hin. specialize (Hd d Hin).
    destruct (String.eqb_spec (id d) i); [contradiction | reflexivity]. }
  assert (E2 : List.filter (fun l => negb (String.eqb (source l) i)
                                     && negb (String.eqb (target l) i)) (links st)
               = links st).
  { apply filter_all. intros l Hin. destruct (Hl l Hin) as [H1 H2].
    destruct (String.eqb_spec (source l) i); [contradiction|].
    destruct (String.eqb_spec (target l) i); [contradiction|]. reflexivity. }
  assert (E3 : match editingLink st with
               | Some (s, t) =>
                   if String.eqb s i || String.eqb t i then None else Some (s, t)
               | None => None
               end = editingLink st).
  { destruct (editingLink st) as [[s t]|] eqn:E; [|reflexivity].
    destruct (He s t eq_refl) as [Hs' Ht'].
    destruct (String.eqb_spec s i); [contradiction|].
    destruct (String.eqb_spec t i); [contradiction|]. reflexivity. }
  rewrite E1, E2, E3, !clearIf_other by assumption.
  apply state_eta.
Qed.

(** What [removeDevice(id)] does to each state cell: it deletes the device
    and every link whose source or target is [id] and keeps all other
    devices and links; it sets [editingLink] to [null] when the edited link
    has the endpoint [id]; it never writes [draggingWp]; a repeated call, or
    a call for an id the state does not mention, changes nothing. *)
Lemma removeDevice_effects (i : string) (st : State) :
  findDevice (removeDevice i st) i = None
  /\ (forall d, In d (devices (removeDevice i st)) <-> In d (devices st) /\ id d <> i)
  /\ (forall l, In l (links (removeDevice i st))
                <-> In l (links st) /\ source l <> i /\ target l <> i)
  /\ (forall s t, editingLink st = Some (s, t) -> s = i \/ t = i ->
                  editingLink (removeDevice i st) = None)
  /\ draggingWp (removeDevice i st) = draggingWp st
  /\ removeDevice i (removeDevice i st) = removeDevice i st
  /\ (absent i st -> removeDevice i st = st).
Proof.
  split; [|split; [|split; [|split; [|split; [|split]]]]].
  - unfold findDevice, removeDevice. simpl.
    destruct (List.find _ _) as [d|] eqn:E; [|reflexivity].
    apply find_some in E. destruct E as [Hin Heq].
    apply List.filter_In in Hin. destruct Hin as [_ Hne].
    rewrite Heq in Hne. discriminate.
  - intros d. unfold removeDevice. simpl. rewrite List.filter_In.
    destruct (String.eqb_spec (id d) i); simpl; intuition congruence.
  - intros l. unfold removeDevice. simpl. rewrite List.filter_In.
    destruct (String.eqb_spec (source l) i), (String.eqb_spec (target l) i);
      simpl; intuition congruence.
  - intros s t He Hst. unfold removeDevice. simpl. rewrite He.
    destruct Hst as [-> | ->]; rewrite String.eqb_refl; [reflexivity|].
    rewrite orb_true_r. reflexivity.
  - reflexivity.
  - apply removeDevice_idem.
  - apply removeDevice_absent.
Qed.

(** C6 (the code departs from the claim). In the state reached from
    [sampleData] by a click on the device c, a right click on the link
    (c, d) and the start of a handle drag, the link (c, d) is being edited
    and the drag of its waypoint 0 is recorded.  [removeDevice("c")] deletes
    the device c and the three links that mention it, and a second call
    changes nothing more; it sets [editingLink] to [null] but leaves the drag
    recorded, so the session has not returned to [Idle]: the sub-state
    DraggingWaypoint(c, d, 0) is still there.  The Escape key and a right
    click on the map, the other ways out of the edit session, do return to
    [Idle]. *)
Theorem removeDevice_cascade_keeps_drag :
  draggingState
  = step (step (step sampleData (DeviceClick "c")) (LinkContextMenu 3))
         (HandleDragStart 0)
  /\ editingLink draggingState = Some ("c", "d")%string
  /\ draggingWp draggingState = Some ("c", "d", 0%nat)%string
  /\ findDevice (removeDevice "c" draggingState) "c" = None
  /\ devices (removeDevice "c" draggingState) = [deviceA; deviceB; deviceD]
  /\ links draggingState = [linkAB; linkBC; linkAC; linkCD]
  /\ links (removeDevice "c" draggingState) = [linkAB]
  /\ removeDevice "c" (removeDevice "c" draggingState) = removeDevice "c" draggingState
  /\ editingLink (removeDevice "c" draggingState) = None
  /\ draggingWp (removeDevice "c" draggingState) = Some ("c", "d", 0%nat)%string
  /\ ~ sessionIdle (removeDevice "c" draggingState)
  /\ sessionIdle (step draggingState (KeyDown Escape false))
  /\ sessionIdle (step draggingState MapContextMenu).
Proof.
  split; [reflexivity|].
  split; [reflexivity|]. split; [reflexivity|]. split; [reflexivity|].
  split; [reflexivity|]. split; [reflexivity|]. split; [reflexivity|].
  split; [apply removeDevice_idem|].
  split; [reflexivity|]. split; [reflexivity|].
  split; [intros [_ H]; discriminate H|].
  split; split; reflexivity.
Qed.

(** ** Seeding waypoints from the curve *)

Lemma lookup_List_map {A B : Type} (f : A -> B) (l : list A) (k : nat) :
  List.map f l !! k = option_map f (l !! k).
Proof.
  revert k. induction l as [|x l IH]; intros [|k]; simpl; auto.
Qed.

Lemma removelast_map {A B : Type} (f : A -> B) (l : list A) :
  removelast (List.map f l) = List.map f (removelast l).
Proof.
  induction l as [|x l IH]; [reflexivity|].
  destruct l as [|y l]; [reflexivity|].
  change (removelast (List.map f (x :: y :: l)))
    with (f x :: removelast (List.map f (y :: l))).
  rewrite IH. reflexivity.
Qed.

Lemma sliceInner_map {A B : Type} (f : A -> B) (l : list A) :
  sliceInner (List.map f l) = List.map f (sliceInner l).
Proof.
  unfold sliceInner. destruct l as [|x l]; [reflexivity|].
  simpl tl. apply removelast_map.
Qed.

Lemma filter_combine_map {A B : Type} (f : A -> B) (g : nat -> bool)
    (ns : list nat) (l : list A) :
  List.map snd (List.filter (fun ix => g (fst ix)) (combine ns (List.map f l)))
  = List.map f (List.map snd (List.filter (fun ix => g (fst ix)) (combine ns l))).
Proof.
  revert ns. induction l as [|x l IH]; intros [|n ns]; simpl; auto.
  destruct (g n); simpl; rewrite IH; reflexivity.
Qed.

Lemma filterIndex_map {A B : Type} (f : A -> B) (g : nat -> bool) (l : list A) :
  filterIndex g (List.map f l) = List.map f (filterIndex g l).
Proof.
  unfold filterIndex. rewrite length_map. apply filter_combine_map.
Qed.

(** The seeded waypoints are the samples of the 36-segment curve at the
    counters 1, 4, ..., 34. *)
Lemma seedPoints_samples (A B : Point) :
  seedPoints A B 10
  = List.map (curveSample A B (control A B 0.28) 36) seedCounters.
Proof.
  unfold seedPoints, curvedPath. cbv zeta.
  rewrite sliceInner_map, length_map, filterIndex_map.
  f_equal.
Qed.

Lemma seedPoints_length (A B : Point) : length (seedPoints A B 10) = 12%nat.
Proof. rewrite seedPoints_samples, length_map. reflexivity. Qed.

Lemma seedPoints_lookup (A B : Point) (i : nat) :
  (i < 12)%nat ->
  seedPoints A B 10 !! i = curvedPath A B 36 0.28 !! (3 * i + 1)%nat.
Proof.
  intros Hi. rewrite seedPoints_samples, curvedPath_lookup by lia.
  rewrite lookup_List_map.
  assert (Hc : seedCounters !! i = Some (3 * i + 1)%nat).
  { unfold seedCounters. do 12 (destruct i as [|i]; [reflexivity|]). lia. }
  rewrite Hc. reflexivity.
Qed.

Lemma control_poly (A B : Point) (c : R) :
  A <> B ->
  control A B c = ((fst A + fst B) / 2 - (snd B - snd A) * c,
                   (snd A + snd B) / 2 + (fst B - fst A) * c).
Proof.
  intros H. rewrite (control_distinct A B c H).
  pose proof (edgeLength_pos A B H) as Hp.
  unfold offsetBy, midpoint, leftNormal, leftTurn. simpl.
  f_equal; field; lra.
Qed.

Lemma sample_fraction (i : nat) :
  (0 < i < 36)%nat -> 0 < INR i / INR 36 < 1.
Proof.
  intros [H0 H1]. apply lt_INR in H0, H1. simpl INR in H0.
  assert (H36 : 0 < INR 36) by (apply lt_0_INR; lia).
  split.
  - apply Rdiv_lt_0_compat; assumption.
  - apply (Rmult_lt_reg_r (INR 36)); [assumption|].
    unfold Rdiv. rewrite Rmult_assoc, Rinv_l by lra. lra.
Qed.

(** An inner sample of the curve between distinct endpoints lies between
    the endpoints and on the bow side of the edge. *)
Lemma inner_sample_side (A B : Point) (c : R) (i : nat) :
  A <> B -> 0 < c -> (0 < i < 36)%nat ->
  betweenEnds A B (curveSample A B (control A B c) 36 i)
  /\ onBowSide A B (curveSample A B (control A B c) 36 i).
Proof.
  intros Hne Hc Hi. rewrite (control_poly A B c Hne).
  pose proof (sample_fraction i Hi) as [Ht0 Ht1].
  pose proof (edgeLength_pos A B Hne) as Hp.
  pose proof (hypot_sqr (fst B - fst A) (snd B - snd A)) as Hs.
  fold (edgeLength A B) in Hs.
  assert (Hv : 0 < (fst B - fst A) * (fst B - fst A)
                   + (snd B - snd A) * (snd B - snd A)) by nra.
  clear Hs Hp.
  unfold betweenEnds, onBowSide, curveSample, dot, vec, leftTurn.
  set (t := INR i / INR 36) in *. simpl.
  set (x := fst B - fst A) in *. set (y := snd B - snd A) in *.
  set (v := x * x + y * y) in *.
  assert (E1 : ((1 - t) * (1 - t) * fst A
                + 2 * (1 - t) * t * ((fst A + fst B) / 2 - y * c)
                + t * t * fst B - fst A) * x
               + ((1 - t) * (1 - t) * snd A
                  + 2 * (1 - t) * t * ((snd A + snd B) / 2 + x * c)
                  + t * t * snd B - snd A) * y
               = t * v).
  { unfold v, x, y. field. }
  assert (E2 : ((1 - t) * (1 - t) * fst A
                + 2 * (1 - t) * t * ((fst A + fst B) / 2 - y * c)
                + t * t * fst B - fst A) * - y
               + ((1 - t) * (1 - t) * snd A
                  + 2 * (1 - t) * t * ((snd A + snd B) / 2 + x * c)
                  + t * t * snd B - snd A) * x
               = 2 * t * (1 - t) * c * v).
  { unfold v, x, y. field. }
  rewrite E1, E2. clear E1 E2. clearbody v t. repeat split.
  - apply Rmult_lt_0_compat; assumption.
  - rewrite <- (Rmult_1_l v) at 2. apply Rmult_lt_compat_r; assumption.
  - repeat apply Rmult_lt_0_compat; lra.
Qed.

Lemma seedCounters_inner (i : nat) : In i seedCounters -> (0 < i < 36)%nat.
Proof. unfold seedCounters. simpl. intros H. intuition lia. Qed.

Lemma renderedAt_inv (st : State) (k : nat) (l : Link) (a b : Device) :
  renderedAt st k = Some (l, a, b) ->
  links st !! k = Some l
  /\ findDevice st (source l) = Some a
  /\ findDevice st (target l) = Some b.
Proof.
  unfold renderedAt. destruct (links st !! k) as [l'|]; [|discriminate].
  destruct (findDevice st (source l')) as [a'|] eqn:Ea; [|discriminate].
  destruct (findDevice st (target l')) as [b'|] eqn:Eb; [|discriminate].
  intros H. injection H as -> -> ->. auto.
Qed.

Lemma sameLink_self (l : Link) : sameLink (source l) (target l) l = true.
Proof. apply sameLink_true. auto. Qed.

(** C7. A right click on a rendered [curved] link enters the edit session
    of that link and turns it into a [custom], curvy link whose waypoints
    are the seed-from-curve samples: the curve at 36 segments has 37 points,
    35 of them after the first and the last are dropped, and of these every
    third is kept, the stride being [max 1 (35 / 10) = 3].  The seed thus
    has 12 points, seed [i] being the point [1 + 3 i] of the curve: the
    samples at the loop counters 1, 4, 7, ..., 34.  For distinct endpoints
    the seed is not empty and each seeded point lies between the endpoints
    and on the bow side of the edge. *)
Theorem begin_edit_seeds_curved_link (st : State) (k : nat) (l : Link) (a b : Device) :
  renderedAt st k = Some (l, a, b) ->
  style l = curved ->
  editingLink (step st (LinkContextMenu k)) = Some (source l, target l)
  /\ links (step st (LinkContextMenu k)) !! k
     = Some {| source := source l; target := target l; style := custom;
               waypoints := Some (seedPoints (latlng a) (latlng b) 10);
               curvy := Some true |}
  /\ length (curvedPath (latlng a) (latlng b) 36 0.28) = 37%nat
  /\ length (seedPoints (latlng a) (latlng b) 10) = 12%nat
  /\ (forall i, (i < 12)%nat ->
        seedPoints (latlng a) (latlng b) 10 !! i
        = curvedPath (latlng a) (latlng b) 36 0.28
            !! (1 + i * Nat.max 1 ((37 - 2) / 10))%nat)
  /\ seedPoints (latlng a) (latlng b) 10
     = List.map (curveSample (latlng a) (latlng b)
                   (control (latlng a) (latlng b) 0.28) 36)
                [1; 4; 7; 10; 13; 16; 19; 22; 25; 28; 31; 34]%nat
  /\ seedPoints (latlng a) (latlng b) 10
     = filterIndex (fun i => (i mod Nat.max 1 (35 / 10) =? 0)%nat)
                   (sliceInner (curvedPath (latlng a) (latlng b) 36 0.28))
  /\ length (sliceInner (curvedPath (latlng a) (latlng b) 36 0.28)) = 35%nat
  /\ (latlng a <> latlng b ->
      seedPoints (latlng a) (latlng b) 10 <> []
      /\ forall p, In p (seedPoints (latlng a) (latlng b) 10) ->
                   betweenEnds (latlng a) (latlng b) p
                   /\ onBowSide (latlng a) (latlng b) p).
Proof.
  intros Hr Hs. destruct (renderedAt_inv st k l a b Hr) as (Hk & Ha & Hb).
  assert (Hlen : length (sliceInner (curvedPath (latlng a) (latlng b) 36 0.28))
                 = 35%nat).
  { unfold curvedPath. rewrite sliceInner_map, length_map. reflexivity. }
  split; [|split; [|split; [|split; [|split; [|split; [|split; [|split]]]]]]].
  - unfold step. rewrite Hr. reflexivity.
  - unfold step. rewrite Hr. unfold onContextMenu, beginEditUpdates.
    rewrite Hs. unfold seedFromCurve. rewrite Ha, Hb.
    unfold setLinkWaypoints, setLinkCurvy, setLinkStyle, setLinks, setEditingLink.
    simpl. rewrite !lookup_List_map, Hk. simpl.
    rewrite sameLink_self. unfold withStyle, withCurvy, withWaypoints.
    unfold sameLink. simpl. rewrite !String.eqb_refl. reflexivity.
  - apply curvedPath_length.
  - apply seedPoints_length.
  - intros i Hi. rewrite (seedPoints_lookup _ _ i Hi). f_equal.
    change (Nat.max 1 ((37 - 2) / 10)) with 3%nat. lia.
  - exact (seedPoints_samples (latlng a) (latlng b)).
  - unfold seedPoints. cbv zeta. rewrite Hlen. reflexivity.
  - exact Hlen.
  - intros Hne. rewrite seedPoints_samples. split; [discriminate|].
    intros p Hin. apply in_map_iff in Hin. destruct Hin as (i & <- & Hi).
    apply inner_sample_side; [exact Hne | lra | apply seedCounters_inner, Hi].
Qed.

(** ** Moving a dragged waypoint *)

Lemma find_map_stable {A : Type} (p : A -> bool) (g : A -> A) (l : list A) :
  (forall x, p (g x) = p x) ->
  List.find p (List.map g l) = option_map g (List.find p l).
Proof.
  intros Hg. induction l as [|x l IH]; [reflexivity|].
  simpl. rewrite Hg. destruct (p x); [reflexivity | exact IH].
Qed.

Lemma sameLink_withWaypoints (s t : string) (l : Link) (wps : list Point) :
  sameLink s t (withWaypoints l wps) = sameLink s t l.
Proof. reflexivity. Qed.

Lemma findLink_setLinkWaypoints (st : State) (s t : string) (wps : list Point) :
  findLink (setLinkWaypoints s t wps st) s t
  = option_map (fun l => withWaypoints l wps) (findLink st s t).
Proof.
  unfold findLink, setLinkWaypoints, setLinks. simpl.
  rewrite find_map_stable.
  - destruct (List.find (sameLink s t) (links st)) as [l|] eqn:E; [|reflexivity].
    apply find_some in E. destruct E as [_ E]. simpl. rewrite E. reflexivity.
  - intros x. destruct (sameLink s t x) eqn:E; [|exact E].
    rewrite sameLink_withWaypoints. exact E.
Qed.



(** ** Self-loops *)

Lemma control_same (A : Point) (c : R) : control A A c = A.
Proof.
  unfold control, plen. destruct A as [a1 a2]. simpl.
  replace (a1 - a1) with 0 by ring. replace (a2 - a2) with 0 by ring.
  replace (- 0) with 0 by ring.
  rewrite hypot_zero, orElse_zero. f_equal; field.
Qed.

Lemma curveSample_same (A : Point) (n i : nat) : curveSample A A A n i = A.
Proof. unfold curveSample. destruct A as [a1 a2]. simpl. f_equal; ring. Qed.

Lemma map_constant {A B : Type} (f : A -> B) (y : B) (l : list A) :
  (forall x, f x = y) -> List.map f l = repeat y (length l).
Proof.
  intros H. induction l as [|x l IH]; [reflexivity|].
  simpl. rewrite H, IH. reflexivity.
Qed.

Lemma curvedPath_same (A : Point) (n : nat) (c : R) :
  curvedPath A A n c = repeat A (S n).
Proof.
  unfold curvedPath. rewrite control_same.
  rewrite (map_constant _ A) by (intros i; apply curveSample_same).
  rewrite length_seq. reflexivity.
Qed.

Lemma vv_same (A : Point) : vv A A = 1e-9.
Proof.
  unfold vv. cbv zeta. replace (fst A - fst A) with 0 by ring.
  replace (snd A - snd A) with 0 by ring.
  replace (0 * 0 + 0 * 0) with 0 by ring. apply orElse_zero.
Qed.

(** The distance to a segment of length zero is the squared distance to
    its only point. *)
Lemma segmentD_same (A p : Point) :
  segmentD A A p
  = (fst p - fst A) * (fst p - fst A) + (snd p - snd A) * (snd p - snd A).
Proof.
  unfold segmentD. cbv zeta. rewrite vv_same.
  replace (fst A - fst A) with 0 by ring. replace (snd A - snd A) with 0 by ring.
  replace ((0 * (fst p - fst A) + 0 * (snd p - snd A)) / 1e-9) with 0
    by (field; lra).
  replace (Rmax 0 (Rmin 1 0)) with 0.
  - ring.
  - unfold Rmax, Rmin. destruct (Rle_dec 1 0); [lra|].
    destruct (Rle_dec 0 0); reflexivity.
Qed.

Lemma distAt_repeat (A p : Point) (n j : nat) :
  (j + 1 < n)%nat -> distAt (repeat A n) p j = segmentD A A p.
Proof.
  intros H. unfold distAt. rewrite !nth_repeat_lt by lia. reflexivity.
Qed.

Lemma nearestSegmentIndex_repeat (A p : Point) (n : nat) :
  nearestSegmentIndex (repeat A n) p = 0%nat.
Proof.
  unfold nearestSegmentIndex. rewrite repeat_length.
  pose proof (nearestLoop_inv (repeat A n) p (n - 1)) as H.
  destruct (n - 1)%nat as [|m] eqn:E; [reflexivity|].
  destruct H as (Hi & _ & _ & Hfirst).
  set (i := fst _) in *. destruct i as [|i']; [reflexivity|].
  specialize (Hfirst 0%nat ltac:(lia)).
  rewrite !distAt_repeat in Hfirst by lia. lra.
Qed.

Lemma path_ends_cons_snoc (A B : Point) (mid : list Point) :
  hd_error (A :: mid ++ [B]) = Some A /\ last (A :: mid ++ [B]) = Some B.
Proof.
  split; [reflexivity|].
  change (A :: mid ++ [B]) with ((A :: mid) ++ [B]). apply last_snoc.
Qed.

Lemma repeat_ends (A : Point) (n : nat) :
  hd_error (repeat A (S n)) = Some A /\ last (repeat A (S n)) = Some A.
Proof.
  split; [reflexivity|].
  induction n as [|n IH]; [reflexivity|].
  change (repeat A (S (S n))) with (A :: repeat A (S n)).
  change (repeat A (S n)) with (A :: repeat A n) in *.
  rewrite last_cons_cons. exact IH.
Qed.

(** C10 (amended).  For a self-loop (source and target are the same
    device, at [A]) every style yields a render path, which starts and ends
    at [A]: a [straight] one is [A; A], a [curved] one has 29 points of
    which the first and the last are [A], a [custom] one without waypoints
    is [A; A].  No division is by zero: [plen] and [vv] are never zero, and
    the sample counts 28 and 14 are not zero.  Against a segment of length
    zero [nearestSegmentIndex] measures the squared distance to the point,
    and on vertices that all coincide it returns 0.  The inner points of the
    curved path are [A] in exact arithmetic ([curvedPath_same]); on binary64
    numbers they differ from it by rounding, as the evaluation below shows. *)
Theorem self_loop_geometry (st : State) (l : Link) (a : Device) :
  source l = target l ->
  findDevice st (source l) = Some a ->
  (exists path,
      computeRenderPath st l = Some path
      /\ hd_error path = Some (latlng a)
      /\ last path = Some (latlng a))
  /\ (style l = straight -> computeRenderPath st l = Some [latlng a; latlng a])
  /\ (style l = curved ->
      exists path,
        computeRenderPath st l = Some path
        /\ length path = 29%nat
        /\ path !! 0%nat = Some (latlng a)
        /\ path !! 28%nat = Some (latlng a))
  /\ (style l = custom -> wpsOf l = [] ->
      computeRenderPath st l = Some [latlng a; latlng a])
  /\ (forall p q : Point, plen p q <> 0 /\ vv p q <> 0)
  /\ (INR 28 <> 0 /\ INR 14 <> 0)
  /\ (forall p : Point,
         segmentD (latlng a) (latlng a) p
         = (fst p - fst (latlng a)) * (fst p - fst (latlng a))
           + (snd p - snd (latlng a)) * (snd p - snd (latlng a)))
  /\ (forall (n : nat) (p : Point),
         nearestSegmentIndex (repeat (latlng a) n) p = 0%nat).
Proof.
  intros Hst Ha. assert (Hb : findDevice st (target l) = Some a) by congruence.
  set (A := latlng a).
  assert (Hpath : computeRenderPath st l
                  = Some match style l with
                         | straight => [A; A]
                         | curved => curvedPath A A 28 0.28
                         | custom =>
                             if isCurvy l then catmullRomSpline (A :: wpsOf l ++ [A]) 14
                             else A :: wpsOf l ++ [A]
                         end).
  { unfold computeRenderPath. rewrite Ha, Hb. reflexivity. }
  split; [|split; [|split; [|split; [|split; [|split; [|split]]]]]].
  - rewrite Hpath. eexists. split; [reflexivity|].
    destruct (style l).
    + split; reflexivity.
    + rewrite curvedPath_same. apply repeat_ends.
    + destruct (isCurvy l); [|apply path_ends_cons_snoc].
      destruct (wpsOf l) as [|w wps]; [split; reflexivity|].
      destruct (catmullRomSpline_ends A A w wps 13) as [mid ->].
      apply path_ends_cons_snoc.
  - intros Hs. rewrite Hpath, Hs. reflexivity.
  - intros Hs. rewrite Hpath, Hs. eexists. split; [reflexivity|].
    split; [apply curvedPath_length|].
    split; rewrite curvedPath_lookup by lia; f_equal;
      [apply curveSample_first | apply curveSample_last; lia].
  - intros Hs Hw. rewrite Hpath, Hs, Hw. destruct (isCurvy l); reflexivity.
  - intros p q. split; [apply plen_nonzero|].
    pose proof (vv_pos p q). lra.
  - split; apply not_0_INR; lia.
  - intros p. apply segmentD_same.
  - intros n p. apply nearestSegmentIndex_repeat.
Qed.

Section Rounding.
Import PrimFloat.
#[local] Set Warnings "-inexact-float".
#[local] Open Scope float_scope.

(** C10 (counterexample).  On binary64 numbers, for the device a of
    [sampleData], at [A = (13.7563, 100.5018)], [curvedPath(A, A, 28, 0.28)]
    has 29 points that start and end at [A], but it is not 29 copies of [A]:
    the samples 1 and 4, for example, differ from [A] in the last digits, and
    so do 11 of the 29.  No sample is further than [1e-13] from [A]. *)
Lemma self_loop_curve_rounds :
  length (Binary64.curvedPath Binary64.positionA Binary64.positionA 28 0.28) = 29%nat
  /\ Binary64.curvedPath Binary64.positionA Binary64.positionA 28 0.28 !! 0%nat
     = Some (13.7563, 100.5018)
  /\ Binary64.curvedPath Binary64.positionA Binary64.positionA 28 0.28 !! 28%nat
     = Some (13.7563, 100.5018)
  /\ Binary64.curvedPath Binary64.positionA Binary64.positionA 28 0.28 !! 1%nat
     = Some (13.7563, 100.50180000000002)
  /\ Binary64.curvedPath Binary64.positionA Binary64.positionA 28 0.28 !! 4%nat
     = Some (13.756300000000003, 100.50180000000003)
  /\ (100.50180000000002 =? 100.5018) = false
  /\ (13.756300000000003 =? 13.7563) = false
  /\ Binary64.curvedPath Binary64.positionA Binary64.positionA 28 0.28
     <> repeat Binary64.positionA 29
  /\ length (List.filter (fun p => negb (Binary64.samePoint p Binary64.positionA))
               (Binary64.curvedPath Binary64.positionA Binary64.positionA 28 0.28))
     = 11%nat
  /\ forallb (fun p => (abs (fst p - 13.7563) <=? 1e-13)
                       && (abs (snd p - 100.5018) <=? 1e-13))
             (Binary64.curvedPath Binary64.positionA Binary64.positionA 28 0.28)
     = true.
Proof.
  split; [vm_compute; reflexivity|]. split; [vm_compute; reflexivity|].
  split; [vm_compute; reflexivity|]. split; [vm_compute; reflexivity|].
  split; [vm_compute; reflexivity|]. split; [vm_compute; reflexivity|].
  split; [vm_compute; reflexivity|].
  split; [|split; vm_compute; reflexivity].
  intros H.
  apply (f_equal (fun path => match path !! 1%nat with
                              | Some p => Binary64.samePoint p Binary64.positionA
                              | None => true
                              end)) in H.
  vm_compute in H. discriminate H.
Qed.

End Rounding.

(** ** The edit session *)

Lemma isEditing_true (st : State) (s t : string) :
  isEditing st s t = true -> editingLink st = Some (s, t).
Proof.
  unfold isEditing. destruct (editingLink st) as [[es et]|]; [|discriminate].
  rewrite andb_true_iff, !String.eqb_eq. intros [-> ->]. reflexivity.
Qed.

Lemma activeLink_editing (st : State) (l : Link) :
  activeLink st = Some l -> editingLink st = Some (source l, target l).
Proof.
  unfold activeLink. destruct (editingLink st) as [[s t]|]; [|discriminate].
  unfold findLink. destruct (List.find (sameLink s t) (links st)) as [l'|] eqn:E;
    [|discriminate].
  apply find_some in E. destruct E as [_ E]. apply sameLink_true in E.
  destruct E as [<- <-]. destruct (style l'); try discriminate.
  intros H. injection H as ->. reflexivity.
Qed.

Lemma handleAt_active (st : State) (i : nat) (l : Link) :
  handleAt st i = Some l -> activeLink st = Some l.
Proof.
  unfold handleAt. destruct (activeLink st) as [l'|]; [|discriminate].
  destruct (i <? length (wpsOf l'))%nat; [|discriminate].
  intros H. injection H as ->. reflexivity.
Qed.

(** The handlers of cancel, release, drag, click and of the updates that
    touch the store only keep a recorded drag inside the edit session. *)
Lemma dragWithinEdit_kept (st : State) (e : Event) :
  keepsSession e -> dragWithinEdit st -> dragWithinEdit (step st e).
Proof.
  intros He Hinv. destruct e; simpl in He; try contradiction; simpl step.
  - (* LinkClick *)
    destruct (renderedAt st k) as [[[l a] b]|]; [|exact Hinv].
    unfold onClick. destruct (_ && _); exact Hinv.
  - (* LinkMouseDown *)
    destruct (renderedAt st k) as [[[l a] b]|]; [|exact Hinv].
    unfold onMouseDown.
    destruct (isEditing st (source l) (target l)) eqn:E; [|exact Hinv].
    destruct (storedCustom st (source l) (target l)); [|exact Hinv].
    simpl. unfold dragWithinEdit. simpl. apply isEditing_true, E.
  - (* MapMouseMove *)
    unfold onMouseMove. destruct (draggingWp st) as [[[s t] i]|] eqn:Ed; [|exact Hinv].
    destruct (findLink st s t) as [l|]; [|exact Hinv].
    destruct (style l); try exact Hinv.
    destruct (wpsOf l !! i); exact Hinv.
  - (* MapMouseUp *)
    unfold onMouseUp. destruct (draggingWp st) eqn:Ed; [exact I | exact Hinv].
  - (* MapContextMenu *)
    unfold onMapContextMenu. destruct (editingLink st) eqn:Ee; [exact I | exact Hinv].
  - (* KeyDown *)
    unfold onKey. destruct key; try contradiction.
    + destruct (editingLink st) eqn:Ee.
      * destruct (selectedId st); [destruct typing|]; exact I.
      * destruct (selectedId st); [destruct typing|]; exact Hinv.
    + destruct (selectedId st); [destruct typing|]; exact Hinv.
  - (* HandleDragStart *)
    destruct (handleAt st i) as [l|] eqn:Eh; [|exact Hinv].
    unfold onHandleDragStart, dragWithinEdit. simpl.
    apply activeLink_editing, handleAt_active with (i := i), Eh.
  - (* HandleDragEnd *)
    destruct (handleAt st i) as [l|]; [exact I | exact Hinv].
  - (* HandleAltClick *)
    destruct (handleAt st i) as [l|]; exact Hinv.
  - (* DeviceClick *)
    destruct (findDevice st d) as [dev|]; [|exact Hinv].
    unfold onDeviceClick. destruct (openPopupId st) as [o|]; [|exact Hinv].
    destruct (String.eqb o (id dev)); exact Hinv.
  - (* PopupAddLink *)
    destruct (findDevice st d) as [dev|]; [|exact Hinv].
    destruct (String.eqb t ""); exact Hinv.
  - (* PopupStyleSelect custom *)
    destruct ns; try contradiction.
    destruct (incidentAt st k) as [l|]; [|exact Hinv].
    unfold onStyleSelect, seedFromCurve.
    destruct (style l); [| |]; try (destruct (waypoints l); exact Hinv).
    destruct (findDevice st (source l)), (findDevice st (target l)); exact Hinv.
  - (* PopupCurvySelect *)
    destruct (incidentAt st k) as [l|]; [|exact Hinv].
    destruct (style l); exact Hinv.
  - (* PopupClearPts *)
    destruct (incidentAt st k) as [l|]; [|exact Hinv].
    destruct (style l); exact Hinv.
Qed.

Lemma draggingState_reachable : reachable draggingState.
Proof. unfold draggingState. repeat apply reachable_step. apply reachable_init. Qed.

Lemma draggingState_editing : editingLink draggingState = Some ("c", "d")%string.
Proof. reflexivity. Qed.

Lemma draggingState_dragging :
  draggingWp draggingState = Some ("c", "d", 0%nat)%string.
Proof. reflexivity. Qed.

Lemma draggingState_selected : selectedId draggingState = Some "c"%string.
Proof. reflexivity. Qed.

(** C8 (the code departs from the claim). In the state reached from
    [sampleData] by a click on the device c, a right click on the link
    (c, d) and the start of a handle drag, the drag is recorded inside the
    edit session.  The Delete key then runs [removeDevice], which ends the
    edit session but leaves the drag recorded: the reached state records a
    drag although no link is being edited.  The popup's delete button, the
    removal of the link and the selection of the style [straight] or
    [curved] do the same, and a right click on another link moves the edit
    session away from the drag, whereas the Escape key and a right click on
    the map clear both records. *)
Theorem removeDevice_leaves_drag_recorded :
  reachable draggingState
  /\ dragWithinEdit draggingState
  /\ reachable (step draggingState (KeyDown Delete false))
  /\ step draggingState (KeyDown Delete false) = removeDevice "c" draggingState
  /\ editingLink (step draggingState (KeyDown Delete false)) = None
  /\ draggingWp (step draggingState (KeyDown Delete false))
     = Some ("c", "d", 0%nat)%string
  /\ ~ dragWithinEdit (step draggingState (KeyDown Delete false))
  /\ ~ dragWithinEdit (step draggingState (PopupDelete "c"))
  /\ ~ dragWithinEdit (step draggingState (PopupRemoveLink 3))
  /\ ~ dragWithinEdit (step draggingState (PopupStyleSelect 3 straight))
  /\ ~ dragWithinEdit (step draggingState (PopupStyleSelect 3 curved))
  /\ ~ dragWithinEdit (step draggingState (LinkContextMenu 0))
  /\ dragWithinEdit (step draggingState (KeyDown Escape false))
  /\ dragWithinEdit (step draggingState MapContextMenu).
Proof.
  split; [apply draggingState_reachable|].
  split; [reflexivity|].
  split; [apply reachable_step, draggingState_reachable|].
  split; [reflexivity|].
  split; [reflexivity|].
  split; [reflexivity|].
  repeat split; try (intros H; discriminate H).
Qed.


(** * Further properties of the geometry *)

Lemma point_eq_dec (A B : Point) : {A = B} + {A <> B}.
Proof.
  destruct A as [a1 a2], B as [b1 b2].
  destruct (Req_dec_T a1 b1) as [-> | H1].
  - destruct (Req_dec_T a2 b2) as [-> | H2]; [left; reflexivity|].
    right. intros H. injection H as H. contradiction.
  - right. intros H. injection H as H _. contradiction.
Qed.

Lemma curveSample_bowed (A B : Point) (c : R) (n i : nat) :
  curveSample A B (control A B c) n i = bowed A B c (INR i / INR n).
Proof.
  destruct (point_eq_dec A B) as [<- | Hne].
  - rewrite control_same, curveSample_same. unfold bowed, leftTurn.
    destruct A as [a1 a2]. simpl. f_equal; ring.
  - rewrite (control_poly A B c Hne). unfold curveSample, bowed, leftTurn.
    generalize (INR i / INR n). intros t. simpl. f_equal; field.
Qed.

(** X1. Every sample of [curvedPath] has a closed form: the point of the
    chord at [t = i / segments], moved by [2 t (1 - t) * curvature] times
    the left turn [(-vy, vx)] of the edge; this holds for coinciding
    endpoints too. *)
Theorem curvedPath_samples_bowed (A B : Point) (n i : nat) (c : R) :
  n <> 0%nat ->
  (i <= n)%nat ->
  curvedPath A B n c !! i = Some (bowed A B c (INR i / INR n)).
Proof.
  intros _ Hi. rewrite curvedPath_lookup by exact Hi.
  f_equal. apply curveSample_bowed.
Qed.

(** ** The spline *)

Lemma crWindow_length (P : list Point) (sps i : nat) :
  length (crWindow P sps i) = sps.
Proof. unfold crWindow. rewrite length_map, length_seq. reflexivity. Qed.

Lemma flat_map_uniform_length {A B : Type} (f : A -> list B) (m : nat) (l : list A) :
  (forall x, length (f x) = m) -> length (flat_map f l) = (length l * m)%nat.
Proof.
  intros H. induction l as [|x l IH]; [reflexivity|].
  simpl. rewrite length_app, H, IH. reflexivity.
Qed.

Lemma flat_map_uniform_lookup {A B : Type} (f : A -> list B) (m : nat)
    (l : list A) (i j : nat) (x : A) :
  (forall y, length (f y) = m) ->
  l !! i = Some x -> (j < m)%nat ->
  flat_map f l !! (i * m + j)%nat = f x !! j.
Proof.
  intros H. revert i. induction l as [|y l IH]; intros i Hi Hj; [discriminate|].
  simpl flat_map. destruct i as [|i].
  - simpl in Hi. injection Hi as ->. simpl.
    apply lookup_app_l. rewrite H. exact Hj.
  - simpl in Hi. rewrite lookup_app_r by (rewrite H; simpl; lia).
    rewrite H. replace (S i * m + j - m)%nat with (i * m + j)%nat by (simpl; lia).
    apply IH; assumption.
Qed.

Lemma crWindow_first (P : list Point) (sps i : nat) :
  sps <> 0%nat -> crWindow P sps i !! 0%nat = Some (nth (i + 1) P (0, 0)).
Proof.
  intros Hs. unfold crWindow. rewrite lookup_map_seq by lia.
  f_equal. change (INR 0) with 0. unfold Rdiv. rewrite Rmult_0_l, !crCoord_start.
  destruct (nth (i + 1) P (0, 0)); reflexivity.
Qed.

Lemma catmullRomSpline_long (points : list Point) (sps : nat) :
  (2 < length points)%nat ->
  catmullRomSpline points sps
  = flat_map (crWindow (nth 0 points (0, 0)
                        :: points ++ [nth (length points - 1) points (0, 0)]) sps)
             (seq 0 (length points - 1))
    ++ [nth (length points - 1) points (0, 0)].
Proof.
  intros H. unfold catmullRomSpline.
  destruct (Nat.leb_spec (length points) 2) as [Hle | _]; [lia|].
  cbv zeta. cbn [length]. rewrite length_app. cbn [length].
  replace (S (length points + 1) - 3)%nat with (length points - 1)%nat by lia.
  reflexivity.
Qed.

Lemma spline_length (points : list Point) (sps : nat) :
  (2 < length points)%nat ->
  length (catmullRomSpline points sps) = ((length points - 1) * sps + 1)%nat.
Proof.
  intros H. rewrite (catmullRomSpline_long points sps H), length_app.
  rewrite (flat_map_uniform_length _ sps) by (intros x; apply crWindow_length).
  rewrite length_seq. reflexivity.
Qed.

Lemma spline_lookup_control (points : list Point) (sps i : nat) :
  (2 < length points)%nat ->
  sps <> 0%nat ->
  (i < length points)%nat ->
  catmullRomSpline points sps !! (i * sps)%nat = points !! i.
Proof.
  intros Hlen Hs Hi. rewrite (catmullRomSpline_long points sps Hlen).
  set (lastp := nth (length points - 1) points (0, 0)).
  set (P := nth 0 points (0, 0) :: points ++ [lastp]).
  assert (Hflat : length (flat_map (crWindow P sps) (seq 0 (length points - 1)))
                  = ((length points - 1) * sps)%nat).
  { rewrite (flat_map_uniform_length _ sps) by (intros x; apply crWindow_length).
    rewrite length_seq. reflexivity. }
  destruct (Nat.eq_dec i (length points - 1)) as [-> | Hne].
  - rewrite lookup_app_r by lia. rewrite Hflat, Nat.sub_diag. simpl.
    unfold lastp. symmetry. rewrite nth_lookup.
    destruct (lookup_lt_is_Some_2 points (length points - 1)) as [x ->]; [lia|].
    reflexivity.
  - rewrite lookup_app_l by (rewrite Hflat; nia).
    replace (i * sps)%nat with (i * sps + 0)%nat by lia.
    rewrite (flat_map_uniform_lookup _ sps _ i 0 i);
      [| intros y; apply crWindow_length | apply lookup_seq_lt; lia | lia].
    rewrite crWindow_first by exact Hs.
    unfold P. replace (i + 1)%nat with (S i) by lia. cbn [nth].
    rewrite app_nth1 by lia. rewrite nth_lookup.
    destruct (lookup_lt_is_Some_2 points i Hi) as [x ->]. reflexivity.
Qed.

(** X2. With more than two control points the spline has
    [(n - 1) * samplesPerSeg + 1] points, [n] being the number of control
    points. *)
Theorem catmullRomSpline_length (points : list Point) (sps : nat) :
  (2 < length points)%nat ->
  length (catmullRomSpline points sps) = ((length points - 1) * sps + 1)%nat.
Proof. apply spline_length. Qed.

(** X3. With more than two control points the spline passes through every
    control point: control point [i] is the spline's point at position
    [i * samplesPerSeg]. *)
Theorem catmullRomSpline_through_control_points (points : list Point) (sps i : nat) :
  (2 < length points)%nat ->
  sps <> 0%nat ->
  (i < length points)%nat ->
  catmullRomSpline points sps !! (i * sps)%nat = points !! i.
Proof. apply spline_lookup_control. Qed.

Lemma chord_sqr_pos (A B : Point) : A <> B -> 0 < dot (vec A B) (vec A B).
Proof.
  intros Hne. pose proof (edgeLength_pos A B Hne) as Hp.
  pose proof (hypot_sqr (fst B - fst A) (snd B - snd A)) as Hs.
  fold (edgeLength A B) in Hs. unfold dot, vec. simpl. nra.
Qed.

Lemma bowed_along (A B : Point) (c t : R) :
  dot (vec A (bowed A B c t)) (vec A B) = t * dot (vec A B) (vec A B).
Proof. unfold bowed, dot, vec, leftTurn. simpl. ring. Qed.

Lemma bowed_across (A B : Point) (c t : R) :
  dot (vec A (bowed A B c t)) (leftTurn A B)
  = 2 * t * (1 - t) * c * dot (vec A B) (vec A B).
Proof. unfold bowed, dot, vec, leftTurn. simpl. ring. Qed.

Lemma bowed_back_along (A B : Point) (c t : R) :
  dot (vec A (bowed B A c t)) (vec A B) = (1 - t) * dot (vec A B) (vec A B).
Proof. unfold bowed, dot, vec, leftTurn. simpl. ring. Qed.

Lemma bowed_back_across (A B : Point) (c t : R) :
  dot (vec A (bowed B A c t)) (leftTurn A B)
  = - (2 * t * (1 - t) * c * dot (vec A B) (vec A B)).
Proof. unfold bowed, dot, vec, leftTurn. simpl. ring. Qed.

Lemma inner_fraction (n i : nat) : (0 < i < n)%nat -> 0 < INR i / INR n < 1.
Proof.
  intros [H0 H1]. assert (Hn : 0 < INR n) by (apply lt_0_INR; lia).
  apply lt_INR in H0, H1. simpl INR in H0. split.
  - apply Rdiv_lt_0_compat; assumption.
  - apply (Rmult_lt_reg_r (INR n)); [assumption|].
    unfold Rdiv. rewrite Rmult_assoc, Rinv_l by lra. lra.
Qed.

(** X4. Links in opposite directions bow to opposite sides.  For distinct
    endpoints and a positive curvature, every inner sample of the curve from
    [A] to [B] lies strictly to the left of the directed line from [A] to
    [B], every inner sample of the curve from [B] to [A] strictly to its
    right, and the feet of both lie strictly between [A] and [B]. *)
Theorem curvedPath_opposite_bow (A B : Point) (n i : nat) (c : R) :
  A <> B ->
  0 < c ->
  (0 < i < n)%nat ->
  exists p q,
    curvedPath A B n c !! i = Some p
    /\ curvedPath B A n c !! i = Some q
    /\ betweenEnds A B p
    /\ 0 < dot (vec A p) (leftTurn A B)
    /\ betweenEnds A B q
    /\ dot (vec A q) (leftTurn A B) < 0.
Proof.
  intros Hne Hc Hi. pose proof (inner_fraction n i Hi) as [Ht0 Ht1].
  pose proof (chord_sqr_pos A B Hne) as Hv.
  exists (bowed A B c (INR i / INR n)), (bowed B A c (INR i / INR n)).
  split; [rewrite curvedPath_lookup by lia; f_equal; apply curveSample_bowed|].
  split; [rewrite curvedPath_lookup by lia; f_equal; apply curveSample_bowed|].
  unfold betweenEnds.
  rewrite bowed_along, bowed_across, bowed_back_along, bowed_back_across.
  set (t := INR i / INR n) in *. set (v := dot (vec A B) (vec A B)) in *.
  clearbody t v.
  assert (Htv : 0 < t * v) by (apply Rmult_lt_0_compat; assumption).
  assert (Hsv : 0 < (1 - t) * v) by (apply Rmult_lt_0_compat; lra).
  assert (Hcv : 0 < 2 * t * (1 - t) * c * v)
    by (repeat apply Rmult_lt_0_compat; lra).
  repeat split; lra.
Qed.

(** ** The distance to a segment *)

Lemma clamp_range (t : R) : 0 <= Rmax 0 (Rmin 1 t) <= 1.
Proof.
  unfold Rmax, Rmin.
  destruct (Rle_dec 1 t); destruct (Rle_dec 0 _); cbv iota; lra.
Qed.

(** X5. The distance [d] that [nearestSegmentIndex] computes for a segment
    is the squared distance from [p] to a point of the segment, and no point
    of the segment is nearer to [p]; for a segment of length zero too. *)
Theorem segmentD_is_least_distance (a b p : Point) :
  (exists t, 0 <= t <= 1 /\ segmentD a b p = sqDist p (along a b t))
  /\ (forall s, 0 <= s <= 1 -> segmentD a b p <= sqDist p (along a b s)).
Proof.
  split.
  - exists (Rmax 0 (Rmin 1 (((fst b - fst a) * (fst p - fst a)
                             + (snd b - snd a) * (snd p - snd a)) / vv a b))).
    split; [apply clamp_range | reflexivity].
  - intros s Hs. apply (segmentD_closest a b p s Hs).
Qed.

(** * Further properties of the link store *)

(** ** Inserting and deleting a waypoint *)

Lemma nearestSegmentIndex_bound (vertices : list Point) (p : Point) :
  (2 <= length vertices)%nat ->
  (nearestSegmentIndex vertices p < length vertices - 1)%nat.
Proof.
  intros Hlen. unfold nearestSegmentIndex.
  pose proof (nearestLoop_inv vertices p (length vertices - 1)) as H.
  destruct (length vertices - 1)%nat as [|n] eqn:E; [lia|].
  destruct H as (Hi & _). exact Hi.
Qed.

Lemma linkVertices_length (a b : Device) (l : Link) :
  length (linkVertices a b l) = S (S (length (wpsOf l))).
Proof. unfold linkVertices. cbn [length]. rewrite length_app. simpl. lia. Qed.

Lemma insert_index_bound (a b : Device) (l : Link) (ll : Point) :
  (nearestSegmentIndex (linkVertices a b l) ll <= length (wpsOf l))%nat.
Proof.
  pose proof (nearestSegmentIndex_bound (linkVertices a b l) ll) as H.
  rewrite linkVertices_length in H. specialize (H ltac:(lia)). lia.
Qed.

Lemma splice0_length (seg : nat) (ll : Point) (wps : list Point) :
  length (splice0 seg ll wps) = S (length wps).
Proof.
  unfold splice0. rewrite length_app. cbn [length].
  rewrite length_take, length_drop. lia.
Qed.

Lemma splice0_lookup (seg : nat) (ll : Point) (wps : list Point) :
  (seg <= length wps)%nat -> splice0 seg ll wps !! seg = Some ll.
Proof.
  intros H. unfold splice0. apply list_lookup_middle.
  rewrite length_take_le; [reflexivity | exact H].
Qed.

Lemma splice0_delete (seg : nat) (ll : Point) (wps : list Point) :
  (seg <= length wps)%nat -> delete seg (splice0 seg ll wps) = wps.
Proof.
  intros H. unfold splice0.
  rewrite <- (length_take_le wps seg H) at 1.
  rewrite delete_middle. apply take_drop.
Qed.


Lemma map_snd_combine_seq {A : Type} (l : list A) (m : nat) :
  List.map snd (combine (seq m (length l)) l) = l.
Proof.
  revert m. induction l as [|y l IH]; intros m; [reflexivity|].
  simpl. f_equal. apply IH.
Qed.

Lemma filter_index_delete {A : Type} (l : list A) (k i : nat) :
  List.map snd
    (List.filter (fun ix : nat * A => negb (fst ix =? k + i)%nat)
                 (combine (seq k (length l)) l))
  = delete i l.
Proof.
  revert k i. induction l as [|x l IH]; intros k i; [destruct i; reflexivity|].
  simpl. destruct i as [|i].
  - rewrite Nat.add_0_r, Nat.eqb_refl. simpl.
    rewrite filter_all; [apply map_snd_combine_seq|].
    intros [j y] Hin. simpl.
    apply in_combine_l in Hin. apply in_seq in Hin.
    destruct (Nat.eqb_spec j k); [lia | reflexivity].
  - destruct (Nat.eqb_spec k (k + S i)); [lia|]. simpl. f_equal.
    replace (k + S i)%nat with (S k + i)%nat by lia. apply IH.
Qed.

Lemma filterIndex_delete {A : Type} (l : list A) (i : nat) :
  filterIndex (fun j => negb (j =? i)%nat) l = delete i l.
Proof. unfold filterIndex. apply (filter_index_delete l 0 i). Qed.

(** X6. [insertWp] stores the waypoints with the new point spliced in at
    the index of the nearest segment, which is at most the number of
    waypoints: the list grows by one, the new point is at that index, the
    other waypoints keep their order, and in the vertex list the new point
    sits between the two ends of the nearest segment. *)
Theorem insertWp_between_nearest_vertices
    (a b : Device) (l : Link) (ll : Point) (st : State) :
  insertWp a b l ll st
  = (setLinkWaypoints (source l) (target l)
       (splice0 (nearestSegmentIndex (linkVertices a b l) ll) ll (wpsOf l)) st,
     nearestSegmentIndex (linkVertices a b l) ll)
  /\ (nearestSegmentIndex (linkVertices a b l) ll <= length (wpsOf l))%nat
  /\ length (splice0 (nearestSegmentIndex (linkVertices a b l) ll) ll (wpsOf l))
     = S (length (wpsOf l))
  /\ splice0 (nearestSegmentIndex (linkVertices a b l) ll) ll (wpsOf l)
       !! nearestSegmentIndex (linkVertices a b l) ll = Some ll
  /\ delete (nearestSegmentIndex (linkVertices a b l) ll)
            (splice0 (nearestSegmentIndex (linkVertices a b l) ll) ll (wpsOf l))
     = wpsOf l
  /\ linkVertices a b
       (withWaypoints l
          (splice0 (nearestSegmentIndex (linkVertices a b l) ll) ll (wpsOf l)))
     = take (S (nearestSegmentIndex (linkVertices a b l) ll)) (linkVertices a b l)
       ++ ll :: drop (S (nearestSegmentIndex (linkVertices a b l) ll))
                     (linkVertices a b l).
Proof.
  pose proof (insert_index_bound a b l ll) as Hb.
  set (seg := nearestSegmentIndex (linkVertices a b l) ll) in *.
  split; [reflexivity|]. split; [exact Hb|].
  split; [apply splice0_length|].
  split; [apply splice0_lookup, Hb|].
  split; [apply splice0_delete, Hb|].
  unfold linkVertices.
  change (wpsOf (withWaypoints l (splice0 seg ll (wpsOf l))))
    with (splice0 seg ll (wpsOf l)).
  rewrite firstn_cons, skipn_cons.
  rewrite take_app_le, drop_app_le by exact Hb.
  unfold splice0. cbn [app]. rewrite <- !app_assoc. reflexivity.
Qed.

(** ** Looking a link up by its pair *)

Lemma uniquePairs_tail (x : Link) (p : list Link) :
  uniquePairs (x :: p) -> uniquePairs p.
Proof.
  intros H s t. specialize (H s t). unfold pairCount in *. simpl in H.
  destruct (sameLink s t x); simpl in H; lia.
Qed.

Lemma lookup_hasLink (p : list Link) (k : nat) (l : Link) :
  p !! k = Some l -> hasLink (source l) (target l) p.
Proof.
  intros H. exists l. split; [|auto].
  apply list_elem_of_In, list_elem_of_lookup. exists k. exact H.
Qed.

(** Under unique pairs no other position holds a link with the pair of the
    link at position [k]. *)
Lemma uniquePairs_other_position (p : list Link) (k k' : nat) (l l' : Link) :
  uniquePairs p ->
  p !! k = Some l -> p !! k' = Some l' -> k <> k' ->
  sameLink (source l) (target l) l' = false.
Proof.
  revert k k'. induction p as [|x p IH]; intros k k' Hu Hk Hk' Hne; [discriminate|].
  destruct k as [|k], k' as [|k']; simpl in Hk, Hk'; try lia.
  - injection Hk as ->. destruct (sameLink (source l) (target l) l') eqn:E; [|reflexivity].
    exfalso. specialize (Hu (source l) (target l)). unfold pairCount in Hu.
    simpl in Hu. rewrite sameLink_self in Hu. simpl in Hu.
    assert (1 <= pairCount (source l) (target l) p)%nat.
    { apply pairCount_present. exists l'. split.
      - apply list_elem_of_In, list_elem_of_lookup. exists k'. exact Hk'.
      - apply sameLink_true, E. }
    unfold pairCount in *. lia.
  - injection Hk' as ->. destruct (sameLink (source l) (target l) l') eqn:E; [|reflexivity].
    exfalso. specialize (Hu (source l) (target l)). unfold pairCount in Hu.
    simpl in Hu. rewrite E in Hu. simpl in Hu.
    pose proof (pairCount_present _ _ _ (lookup_hasLink p k l Hk)) as Hp.
    unfold pairCount in *. lia.
  - apply (IH k k'); auto. apply (uniquePairs_tail x), Hu.
Qed.

Lemma uniquePairs_find (p : list Link) (k : nat) (l : Link) :
  uniquePairs p -> p !! k = Some l ->
  List.find (sameLink (source l) (target l)) p = Some l.
Proof.
  revert k. induction p as [|x p IH]; intros k Hu Hk; [discriminate|].
  destruct k as [|k]; simpl in Hk.
  - injection Hk as ->. simpl. rewrite sameLink_self. reflexivity.
  - simpl.
    rewrite (uniquePairs_other_position (x :: p) (S k) 0 l x Hu Hk eq_refl)
      by lia.
    apply (IH k); [apply (uniquePairs_tail x), Hu | exact Hk].
Qed.

(** X7. In every state the component can reach, whatever the events (those
    of the edit session, double clicks that add nodes, form submissions,
    marker drags, clicks on the map and the popup events), [findLink] applied
    to the pair of a stored link returns that very link, and no other
    position of [links] holds a link with the same pair. *)
Theorem reachable_findLink_faithful (st : State) (n k : nat) (l : Link) :
  uiReachable (st, n) ->
  links st !! k = Some l ->
  findLink st (source l) (target l) = Some l
  /\ (forall k' l', links st !! k' = Some l' -> k' <> k ->
                    sameLink (source l) (target l) l' = false).
Proof.
  intros Hr Hk. pose proof (uiReachable_uniquePairs (st, n) Hr) as Hu.
  simpl in Hu. split.
  - apply (uniquePairs_find _ k); assumption.
  - intros k' l' Hk' Hne.
    apply (uniquePairs_other_position (links st) k k' l l'); auto.
Qed.

(** ** The setters of a link *)

Lemma find_none_sameLink (st : State) (s t : string) :
  findLink st s t = None ->
  forall l, In l (links st) -> sameLink s t l = false.
Proof. intros H l Hin. apply (find_none _ _ H l Hin). Qed.

Lemma map_untouched {A : Type} (p : A -> bool) (g : A -> A) (l : list A) :
  (forall x, In x l -> p x = false) ->
  List.map (fun x => if p x then g x else x) l = l.
Proof.
  intros H. induction l as [|x l IH]; [reflexivity|].
  simpl. rewrite (H x (or_introl eq_refl)). f_equal.
  apply IH. intros y Hy. apply H. right. exact Hy.
Qed.

Lemma setLinks_missing (st : State) (s t : string) (g : Link -> Link) :
  findLink st s t = None ->
  setLinks (List.map (fun l => if sameLink s t l then g l else l)) st = st.
Proof.
  intros H. unfold setLinks.
  rewrite (map_untouched (sameLink s t) g) by (apply find_none_sameLink, H).
  apply state_eta.
Qed.

Lemma setLinks_compose (f g : list Link -> list Link) (st : State) :
  setLinks f (setLinks g st) = setLinks (fun p => f (g p)) st.
Proof. reflexivity. Qed.

Lemma update_commute (s t : string) (f g : Link -> Link) (p : list Link) :
  (forall l, sameLink s t (f l) = sameLink s t l) ->
  (forall l, sameLink s t (g l) = sameLink s t l) ->
  (forall l, f (g l) = g (f l)) ->
  List.map (fun l => if sameLink s t l then f l else l)
           (List.map (fun l => if sameLink s t l then g l else l) p)
  = List.map (fun l => if sameLink s t l then g l else l)
             (List.map (fun l => if sameLink s t l then f l else l) p).
Proof.
  intros Hf Hg Hfg. rewrite !map_map. apply map_ext. intros l.
  destruct (sameLink s t l) eqn:E; [|rewrite E; reflexivity].
  rewrite Hf, Hg, E, Hfg. reflexivity.
Qed.

(** X8. [setLinkStyle], [setLinkCurvy] and [setLinkWaypoints] change
    nothing when no link with the pair is stored; applied to the same pair
    they commute, and the three together overwrite exactly the style, the
    curvy flag and the waypoints of each link with that pair. *)
Theorem link_setters_compose
    (s t : string) (sty : LinkStyle) (c : bool) (w : list Point) (st : State) :
  (findLink st s t = None ->
   setLinkStyle s t sty st = st
   /\ setLinkCurvy s t c st = st
   /\ setLinkWaypoints s t w st = st)
  /\ setLinkCurvy s t c (setLinkStyle s t sty st)
     = setLinkStyle s t sty (setLinkCurvy s t c st)
  /\ setLinkWaypoints s t w (setLinkStyle s t sty st)
     = setLinkStyle s t sty (setLinkWaypoints s t w st)
  /\ setLinkWaypoints s t w (setLinkCurvy s t c st)
     = setLinkCurvy s t c (setLinkWaypoints s t w st)
  /\ (forall k l,
         links st !! k = Some l ->
         links (setLinkWaypoints s t w (setLinkCurvy s t c (setLinkStyle s t sty st)))
           !! k
         = Some (if sameLink s t l
                 then {| source := source l; target := target l; style := sty;
                         waypoints := Some w; curvy := Some c |}
                 else l)).
Proof.
  split; [|split; [|split; [|split]]].
  - intros H. repeat split; apply setLinks_missing, H.
  - unfold setLinkCurvy, setLinkStyle. rewrite !setLinks_compose.
    unfold setLinks. f_equal. simpl. apply update_commute; reflexivity.
  - unfold setLinkWaypoints, setLinkStyle. rewrite !setLinks_compose.
    unfold setLinks. f_equal. simpl. apply update_commute; reflexivity.
  - unfold setLinkWaypoints, setLinkCurvy. rewrite !setLinks_compose.
    unfold setLinks. f_equal. simpl. apply update_commute; reflexivity.
  - intros k l Hk. unfold setLinkWaypoints, setLinkCurvy, setLinkStyle, setLinks.
    simpl. rewrite !lookup_List_map, Hk. simpl. f_equal.
    destruct (sameLink s t l) eqn:E; [|rewrite !E; reflexivity].
    change (sameLink s t (withStyle l sty)) with (sameLink s t l). rewrite E.
    change (sameLink s t (withCurvy (withStyle l sty) c)) with (sameLink s t l).
    rewrite E. reflexivity.
Qed.

(** ** Removing a link *)

Lemma isEditing_false_after_clear (s t : string) (st : State) :
  isEditing (setEditingLink None st) s t = false.
Proof. reflexivity. Qed.

Lemma isEditing_iff (st : State) (s t : string) :
  isEditing st s t = true <-> editingLink st = Some (s, t).
Proof.
  split; [apply isEditing_true|]. intros H. unfold isEditing. rewrite H.
  rewrite !String.eqb_refl. reflexivity.
Qed.

(** X9. [removeLink(s, t)] deletes every link with the pair [(s, t)] and
    keeps all others and all devices; afterwards [findLink] finds nothing for
    the pair; an edit session on that link ends and any other is kept; a
    repeated call changes nothing, and neither does a call for a pair that is
    neither stored nor being edited. *)
Theorem removeLink_removes (s t : string) (st : State) :
  findLink (removeLink s t st) s t = None
  /\ (forall l, In l (links (removeLink s t st))
                <-> In l (links st) /\ ~ (source l = s /\ target l = t))
  /\ devices (removeLink s t st) = devices st
  /\ (editingLink st = Some (s, t) -> Idle (removeLink s t st))
  /\ (editingLink st <> Some (s, t) ->
      editingLink (removeLink s t st) = editingLink st)
  /\ removeLink s t (removeLink s t st) = removeLink s t st
  /\ (findLink st s t = None -> editingLink st <> Some (s, t) ->
      removeLink s t st = st).
Proof.
  assert (Hlinks : links (removeLink s t st)
                   = List.filter (fun l => negb (sameLink s t l)) (links st)).
  { unfold removeLink. destruct (isEditing st s t); reflexivity. }
  assert (Hdev : devices (removeLink s t st) = devices st).
  { unfold removeLink. destruct (isEditing st s t); reflexivity. }
  split; [|split; [|split; [|split; [|split; [|split]]]]].
  - unfold findLink. rewrite Hlinks.
    destruct (List.find _ _) as [l|] eqn:E; [|reflexivity].
    apply find_some in E. destruct E as [Hin E].
    apply List.filter_In in Hin. destruct Hin as [_ Hn]. rewrite E in Hn. discriminate.
  - intros l. rewrite Hlinks, List.filter_In, <- sameLink_true.
    destruct (sameLink s t l); simpl; intuition congruence.
  - exact Hdev.
  - intros He. apply isEditing_iff in He. unfold removeLink, Idle. rewrite He.
    reflexivity.
  - intros He. unfold removeLink.
    destruct (isEditing st s t) eqn:E; [|reflexivity].
    apply isEditing_iff in E. contradiction.
  - unfold removeLink at 1.
    assert (Hoff : isEditing (removeLink s t st) s t = false).
    { unfold removeLink. destruct (isEditing st s t) eqn:E; [reflexivity|exact E]. }
    rewrite Hoff. unfold setLinks. rewrite Hlinks, filter_idem, <- Hlinks.
    apply state_eta.
  - intros Hf He. unfold removeLink.
    destruct (isEditing st s t) eqn:E; [apply isEditing_iff in E; contradiction|].
    unfold setLinks. rewrite filter_all; [apply state_eta|].
    intros l Hin. rewrite (find_none_sameLink st s t Hf l Hin). reflexivity.
Qed.

(** ** Deleting a device and the links that survive *)

Lemma find_filter_other (i j : string) (ds : list Device) :
  j <> i ->
  List.find (fun d => String.eqb (id d) j)
            (List.filter (fun d => negb (String.eqb (id d) i)) ds)
  = List.find (fun d => String.eqb (id d) j) ds.
Proof.
  intros Hne. induction ds as [|d ds IH]; [reflexivity|].
  simpl. destruct (String.eqb_spec (id d) i) as [Hi | Hi]; simpl.
  - destruct (String.eqb_spec (id d) j); [congruence | exact IH].
  - destruct (String.eqb (id d) j); [reflexivity | exact IH].
Qed.

Lemma removeDevice_lookup_gone (i : string) (st : State) :
  findDevice (removeDevice i st) i = None.
Proof.
  unfold findDevice, removeDevice. simpl.
  destruct (List.find _ _) as [d|] eqn:E; [|reflexivity].
  apply find_some in E. destruct E as [Hin Heq].
  apply List.filter_In in Hin. destruct Hin as [_ Hne].
  rewrite Heq in Hne. discriminate.
Qed.

(** X10. Deleting a device does not disturb the links that survive: each
    link left in the store resolves its two endpoints to the same devices as
    before, so its render path is unchanged. *)
Theorem removeDevice_keeps_surviving_paths (i : string) (st : State) (l : Link) :
  In l (links (removeDevice i st)) ->
  findDevice (removeDevice i st) (source l) = findDevice st (source l)
  /\ findDevice (removeDevice i st) (target l) = findDevice st (target l)
  /\ computeRenderPath (removeDevice i st) l = computeRenderPath st l.
Proof.
  intros Hin. unfold removeDevice in Hin. simpl in Hin.
  apply List.filter_In in Hin. destruct Hin as [_ Hne].
  apply andb_true_iff in Hne. destruct Hne as [Hs Ht].
  apply negb_true_iff in Hs, Ht.
  apply String.eqb_neq in Hs, Ht.
  assert (E1 : findDevice (removeDevice i st) (source l) = findDevice st (source l)).
  { unfold findDevice, removeDevice. simpl. apply find_filter_other, Hs. }
  assert (E2 : findDevice (removeDevice i st) (target l) = findDevice st (target l)).
  { unfold findDevice, removeDevice. simpl. apply find_filter_other, Ht. }
  split; [exact E1|]. split; [exact E2|].
  unfold computeRenderPath. rewrite E1, E2. reflexivity.
Qed.

(** * Further properties of the edit session *)

Lemma activeLink_found (st : State) (l : Link) :
  activeLink st = Some l ->
  findLink st (source l) (target l) = Some l /\ style l = custom.
Proof.
  unfold activeLink. destruct (editingLink st) as [[s t]|]; [|discriminate].
  destruct (findLink st s t) as [l'|] eqn:E; [|discriminate].
  destruct (style l') eqn:Es; try discriminate.
  intros [= <-].
  assert (Hp : sameLink s t l' = true).
  { unfold findLink in E. apply find_some in E. apply E. }
  apply sameLink_true in Hp. destruct Hp as [-> ->]. auto.
Qed.

Lemma handleAt_inv (st : State) (i : nat) (l : Link) :
  handleAt st i = Some l ->
  activeLink st = Some l /\ (i < length (wpsOf l))%nat.
Proof.
  unfold handleAt. destruct (activeLink st) as [l'|]; [|discriminate].
  destruct (Nat.ltb_spec i (length (wpsOf l'))); [|discriminate].
  intros [= <-]. auto.
Qed.

Lemma setLinkWaypoints_lookup_self (st : State) (k : nat) (l : Link) (w : list Point) :
  links st !! k = Some l ->
  links (setLinkWaypoints (source l) (target l) w st) !! k
  = Some (withWaypoints l w).
Proof.
  intros Hk. unfold setLinkWaypoints, setLinks. simpl.
  rewrite lookup_List_map, Hk. simpl. rewrite sameLink_self. reflexivity.
Qed.

Lemma setLinkWaypoints_lookup_other
    (st : State) (s t : string) (k : nat) (w : list Point) :
  (forall l', links st !! k = Some l' -> sameLink s t l' = false) ->
  links (setLinkWaypoints s t w st) !! k = links st !! k.
Proof.
  intros H. unfold setLinkWaypoints, setLinks. simpl. rewrite lookup_List_map.
  destruct (links st !! k) as [l'|] eqn:E; [|reflexivity].
  simpl. rewrite (H l' eq_refl). reflexivity.
Qed.


Section EditingCustomLink.
Variables (st : State) (k : nat) (l : Link) (a b : Device).
Hypothesis Hunique : uniquePairs (links st).
Hypothesis Hrendered : renderedAt st k = Some (l, a, b).
Hypothesis Hediting : editingLink st = Some (source l, target l).
Hypothesis Hcustom : style l = custom.

Lemma editing_found : findLink st (source l) (target l) = Some l.
Proof.
  destruct (renderedAt_inv st k l a b Hrendered) as (Hk & _).
  apply (uniquePairs_find (links st) k l Hunique Hk).
Qed.

Lemma editing_gate :
  isEditing st (source l) (target l) && storedCustom st (source l) (target l) = true.
Proof.
  apply andb_true_iff. split; [apply isEditing_iff, Hediting|].
  unfold storedCustom. rewrite editing_found, Hcustom. reflexivity.
Qed.

Lemma click_inserts (ll : Point) :
  step st (LinkClick k ll)
  = setLinkWaypoints (source l) (target l)
      (splice0 (nearestSegmentIndex (linkVertices a b l) ll) ll (wpsOf l)) st.
Proof.
  simpl step. rewrite Hrendered. unfold onClick. rewrite editing_gate. reflexivity.
Qed.


Lemma others_untouched (w : list Point) (k' : nat) :
  k' <> k ->
  links (setLinkWaypoints (source l) (target l) w st) !! k' = links st !! k'.
Proof.
  intros Hne. destruct (renderedAt_inv st k l a b Hrendered) as (Hk & _).
  apply setLinkWaypoints_lookup_other. intros l' Hk'.
  apply (uniquePairs_other_position (links st) k k' l l'); auto.
Qed.

End EditingCustomLink.

(** X12. In a state whose links have pairwise different ordered pairs,
    inserting a waypoint by a click on the edited path and then alt-clicking
    the handle it got restores the waypoints: the link has its former
    waypoints again and every other link is as before. *)
Theorem click_then_alt_click_restores
    (st : State) (k : nat) (l : Link) (a b : Device) (ll : Point) :
  uniquePairs (links st) ->
  renderedAt st k = Some (l, a, b) ->
  editingLink st = Some (source l, target l) ->
  style l = custom ->
  links (step (step st (LinkClick k ll))
              (HandleAltClick (nearestSegmentIndex (linkVertices a b l) ll))) !! k
  = Some (withWaypoints l (wpsOf l))
  /\ (forall k', k' <> k ->
        links (step (step st (LinkClick k ll))
                    (HandleAltClick (nearestSegmentIndex (linkVertices a b l) ll)))
          !! k'
        = links st !! k').
Proof.
  intros Hr Hren He Hs.
  destruct (renderedAt_inv st k l a b Hren) as (Hk & _).
  pose proof (insert_index_bound a b l ll) as Hb.
  set (seg := nearestSegmentIndex (linkVertices a b l) ll) in *.
  rewrite (click_inserts st k l a b Hr Hren He Hs ll). fold seg.
  set (w1 := splice0 seg ll (wpsOf l)).
  set (st1 := setLinkWaypoints (source l) (target l) w1 st).
  assert (Hh : handleAt st1 seg = Some (withWaypoints l w1)).
  { unfold handleAt, activeLink.
    change (editingLink st1) with (editingLink st). rewrite He.
    unfold st1. rewrite findLink_setLinkWaypoints.
    rewrite (editing_found st k l a b Hr Hren). simpl. rewrite Hs.
    change (wpsOf (withWaypoints l w1)) with w1.
    unfold w1. rewrite splice0_length.
    destruct (Nat.ltb_spec seg (S (length (wpsOf l)))); [reflexivity | lia]. }
  simpl step. rewrite Hh. unfold onHandleAltClick.
  change (wpsOf (withWaypoints l w1)) with w1.
  rewrite filterIndex_delete. unfold w1 at 1 3. rewrite splice0_delete by exact Hb.
  change (source (withWaypoints l w1)) with (source l).
  change (target (withWaypoints l w1)) with (target l).
  split.
  - assert (Hk1 : links st1 !! k = Some (withWaypoints l w1))
      by (apply setLinkWaypoints_lookup_self, Hk).
    exact (setLinkWaypoints_lookup_self st1 k (withWaypoints l w1) (wpsOf l) Hk1).
  - intros k' Hne.
    assert (H1 : links st1 !! k' = links st !! k')
      by (apply (others_untouched st k l a b Hr Hren), Hne).
    rewrite <- H1. apply setLinkWaypoints_lookup_other.
    intros l' Hk'. rewrite H1 in Hk'.
    apply (uniquePairs_other_position (links st) k k' l l'); auto.
Qed.


(** ** The keyboard *)

(** X14. The Escape key never changes the store or the selection: it ends
    an edit session together with its drag and does nothing when no link is
    edited.  Delete and Backspace are ignored while a form field has the
    focus or no device is selected; otherwise they run [removeDevice] on the
    selected device, which afterwards is neither stored nor selected.  Any
    other key changes nothing. *)
Theorem onKey_cases (typing : bool) (st : State) :
  (devices (onKey Escape typing st) = devices st
   /\ links (onKey Escape typing st) = links st
   /\ selectedId (onKey Escape typing st) = selectedId st
   /\ Idle (onKey Escape typing st)
   /\ (editingLink st <> None -> draggingWp (onKey Escape typing st) = None)
   /\ (editingLink st = None -> onKey Escape typing st = st))
  /\ (forall key, key = Delete \/ key = Backspace ->
                  typing = true \/ selectedId st = None ->
                  onKey key typing st = st)
  /\ (forall key i, key = Delete \/ key = Backspace ->
                    typing = false -> selectedId st = Some i ->
                    onKey key typing st = removeDevice i st
                    /\ selectedId (onKey key typing st) = None
                    /\ findDevice (onKey key typing st) i = None)
  /\ onKey OtherKey typing st = st.
Proof.
  split; [|split; [|split]].
  - unfold onKey, Idle.
    destruct (editingLink st) as [e|] eqn:Ee; destruct (selectedId st) as [sel|] eqn:Es;
      destruct typing; simpl; rewrite ?Ee, ?Es;
      repeat split; auto; try congruence; intros H; contradiction.
  - intros key Hk Hq. unfold onKey.
    destruct Hk as [-> | ->]; destruct Hq as [-> | ->];
      destruct (selectedId st); reflexivity.
  - intros key i Hk -> Hsel. unfold onKey. rewrite Hsel.
    assert (E : removeDevice i st = removeDevice i st) by reflexivity.
    destruct Hk as [-> | ->].
    + split; [reflexivity|]. split.
      * unfold removeDevice. simpl. rewrite Hsel. simpl.
        rewrite String.eqb_refl. reflexivity.
      * apply removeDevice_lookup_gone.
    + split; [reflexivity|]. split.
      * unfold removeDevice. simpl. rewrite Hsel. simpl.
        rewrite String.eqb_refl. reflexivity.
      * apply removeDevice_lookup_gone.
  - unfold onKey. destruct (selectedId st); destruct typing; reflexivity.
Qed.

(** ** Selecting a style *)

(** X15. Selecting the style [straight] or [curved] for a link listed in a
    device popup rewrites the link at that position to the selected style
    with no waypoints and the curvy flag of the style, ends the edit session
    if it was on that link and keeps any other, and leaves the devices and
    the drag record alone. *)
Theorem style_select_resets_link (st : State) (k : nat) (l : Link) (ns : LinkStyle) :
  incidentAt st k = Some l ->
  ns <> custom ->
  links (step st (PopupStyleSelect k ns)) !! k
  = Some {| source := source l; target := target l; style := ns;
            waypoints := Some [];
            curvy := Some match ns with curved => true | _ => false end |}
  /\ (editingLink st = Some (source l, target l) ->
      Idle (step st (PopupStyleSelect k ns)))
  /\ (editingLink st <> Some (source l, target l) ->
      editingLink (step st (PopupStyleSelect k ns)) = editingLink st)
  /\ devices (step st (PopupStyleSelect k ns)) = devices st
  /\ draggingWp (step st (PopupStyleSelect k ns)) = draggingWp st.
Proof.
  intros Hi Hns. simpl step. rewrite Hi.
  assert (Hk : links st !! k = Some l).
  { unfold incidentAt in Hi. destruct (links st !! k) as [l'|]; [|discriminate].
    destruct (existsb _ _); [|discriminate]. injection Hi as ->. reflexivity. }
  assert (Hlook : forall sty c (X : State),
             links X = links (setLinkCurvy (source l) (target l) c
                                (setLinkWaypoints (source l) (target l) []
                                   (setLinkStyle (source l) (target l) sty st))) ->
             links X !! k
             = Some {| source := source l; target := target l; style := sty;
                       waypoints := Some []; curvy := Some c |}).
  { intros sty c X ->. unfold setLinkCurvy, setLinkWaypoints, setLinkStyle, setLinks.
    simpl. rewrite !lookup_List_map, Hk. simpl. rewrite sameLink_self.
    change (sameLink (source l) (target l) (withStyle l sty))
      with (sameLink (source l) (target l) l). rewrite sameLink_self.
    change (sameLink (source l) (target l) (withWaypoints (withStyle l sty) []))
      with (sameLink (source l) (target l) l). rewrite sameLink_self.
    reflexivity. }
  unfold onStyleSelect. cbv zeta beta.
  destruct ns; [| |contradiction].
  - destruct (isEditing st (source l) (target l)) eqn:E.
    + apply isEditing_iff in E.
      split; [apply Hlook; reflexivity|]. split; [reflexivity|].
      split; [intros H; contradiction|]. split; reflexivity.
    + split; [apply Hlook; reflexivity|].
      split; [intros H; apply isEditing_iff in H; congruence|].
      split; [reflexivity|]. split; reflexivity.
  - destruct (isEditing st (source l) (target l)) eqn:E.
    + apply isEditing_iff in E.
      split; [apply Hlook; reflexivity|]. split; [reflexivity|].
      split; [intros H; contradiction|]. split; reflexivity.
    + split; [apply Hlook; reflexivity|].
      split; [intros H; apply isEditing_iff in H; congruence|].
      split; [reflexivity|]. split; reflexivity.
Qed.

(** ** When the drag record can leave the edit session *)

Lemma draggingWp_beginEdit (st0 : State) (l : Link) (st : State) :
  draggingWp (beginEditUpdates st0 l st) = draggingWp st.
Proof.
  unfold beginEditUpdates, seedFromCurve.
  destruct (style l); [destruct (waypoints l)| |]; try reflexivity.
  destruct (findDevice st0 (source l)), (findDevice st0 (target l)); reflexivity.
Qed.

Lemma drag_untouched_outside (st : State) (e : Event) :
  ~ keepsSession e -> draggingWp (step st e) = draggingWp st.
Proof.
  intros He. destruct e; simpl in He; try (exfalso; apply He; exact I); simpl step.
  - destruct (renderedAt st k) as [[[l a] b]|]; [|reflexivity].
    apply (draggingWp_beginEdit st l st).
  - unfold onKey. destruct key; try (exfalso; apply He; exact I);
      destruct (selectedId st); try destruct typing; reflexivity.
  - destruct (findDevice st d); reflexivity.
  - destruct ns; try (exfalso; apply He; exact I);
      destruct (incidentAt st k) as [l|]; try reflexivity;
      unfold onStyleSelect; cbv zeta beta;
      destruct (isEditing st (source l) (target l)); reflexivity.
  - destruct (incidentAt st k) as [l|]; [|reflexivity].
    apply (draggingWp_beginEdit st l st).
  - destruct (incidentAt st k) as [l|]; [|reflexivity].
    unfold removeLink. destruct (isEditing st (source l) (target l)); reflexivity.
Qed.

Lemma keepsSession_dec (e : Event) : {keepsSession e} + {~ keepsSession e}.
Proof.
  destruct e; simpl; try (left; exact I); try (right; intros H; exact H).
  - destruct key; simpl; try (left; exact I); right; intros H; exact H.
  - destruct ns; simpl; try (left; exact I); right; intros H; exact H.
Qed.

(** X16. A drag is recorded only for the link being edited as long as no
    device or link is deleted, no plain style is selected and no other edit
    is begun in the middle of a drag: every handler keeps this invariant when
    it runs while no drag is recorded, and the handlers of cancel, release,
    click, press, move, handle drag and of the store-only updates keep it
    always. *)
Theorem drag_leaves_edit_only_mid_drag (st : State) (e : Event) :
  dragWithinEdit st ->
  keepsSession e \/ draggingWp st = None ->
  dragWithinEdit (step st e).
Proof.
  intros Hinv [He | Hnone]; [apply dragWithinEdit_kept; assumption|].
  destruct (keepsSession_dec e) as [He | He];
    [apply dragWithinEdit_kept; assumption|].
  unfold dragWithinEdit. rewrite (drag_untouched_outside st e He), Hnone.
  exact I.
Qed.

(** * Waypoints belong to custom links *)

Lemma in_updated (s t : string) (g : Link -> Link) (p : list Link) (x : Link) :
  In x (List.map (fun l => if sameLink s t l then g l else l) p) ->
  (In x p /\ sameLink s t x = false)
  \/ (exists l, In l p /\ sameLink s t l = true /\ x = g l).
Proof.
  intros H. apply in_map_iff in H. destruct H as (l & Hx & Hin).
  destruct (sameLink s t l) eqn:E.
  - right. exists l. auto.
  - left. subst x. auto.
Qed.

Lemma woc_setLinkWaypoints (s t : string) (w : list Point) (st : State) :
  waypointsOnlyCustom (links st) ->
  pairIsCustom s t (links st) ->
  waypointsOnlyCustom (links (setLinkWaypoints s t w st)).
Proof.
  intros H Hc x Hin Hx. unfold setLinkWaypoints, setLinks in Hin. simpl in Hin.
  apply in_updated in Hin. destruct Hin as [[Hin _] | (l & Hin & El & ->)].
  - apply H; assumption.
  - exfalso. apply Hx. exact (Hc l Hin El).
Qed.

Lemma woc_clear (s t : string) (st : State) :
  waypointsOnlyCustom (links st) ->
  waypointsOnlyCustom (links (setLinkWaypoints s t [] st)).
Proof.
  intros H x Hin Hx. unfold setLinkWaypoints, setLinks in Hin. simpl in Hin.
  apply in_updated in Hin. destruct Hin as [[Hin _] | (l & Hin & El & ->)].
  - apply H; assumption.
  - reflexivity.
Qed.

Lemma woc_setLinkCurvy (s t : string) (c : bool) (st : State) :
  waypointsOnlyCustom (links st) ->
  waypointsOnlyCustom (links (setLinkCurvy s t c st)).
Proof.
  intros H x Hin Hx. unfold setLinkCurvy, setLinks in Hin. simpl in Hin.
  apply in_updated in Hin. destruct Hin as [[Hin _] | (l & Hin & El & ->)].
  - apply H; assumption.
  - apply (H l Hin Hx).
Qed.

Lemma woc_setCustom (s t : string) (st : State) :
  waypointsOnlyCustom (links st) ->
  waypointsOnlyCustom (links (setLinkStyle s t custom st)).
Proof.
  intros H x Hin Hx. unfold setLinkStyle, setLinks in Hin. simpl in Hin.
  apply in_updated in Hin. destruct Hin as [[Hin _] | (l & Hin & El & ->)].
  - apply H; assumption.
  - exfalso. apply Hx. reflexivity.
Qed.

Lemma woc_restyle_clear (s t : string) (sty : LinkStyle) (st : State) :
  waypointsOnlyCustom (links st) ->
  waypointsOnlyCustom
    (links (setLinkWaypoints s t [] (setLinkStyle s t sty st))).
Proof.
  intros H x Hin Hx.
  unfold setLinkWaypoints, setLinkStyle, setLinks in Hin. simpl in Hin.
  apply in_updated in Hin. destruct Hin as [[Hin E] | (l & Hin & El & ->)].
  - apply in_updated in Hin. destruct Hin as [[Hin _] | (l & Hin & El & ->)].
    + apply H; assumption.
    + change (sameLink s t (withStyle l sty)) with (sameLink s t l) in E. congruence.
  - reflexivity.
Qed.

Lemma pairIsCustom_setCustom (s t : string) (st : State) :
  pairIsCustom s t (links (setLinkStyle s t custom st)).
Proof.
  intros x Hin Ex. unfold setLinkStyle, setLinks in Hin. simpl in Hin.
  apply in_updated in Hin. destruct Hin as [[_ E] | (l & _ & _ & ->)];
    [congruence | reflexivity].
Qed.

Lemma pairIsCustom_setLinkCurvy (s t : string) (c : bool) (st : State) :
  pairIsCustom s t (links st) ->
  pairIsCustom s t (links (setLinkCurvy s t c st)).
Proof.
  intros H x Hin Ex. unfold setLinkCurvy, setLinks in Hin. simpl in Hin.
  apply in_updated in Hin. destruct Hin as [[Hin _] | (l & Hin & El & ->)].
  - apply H; assumption.
  - apply (H l Hin El).
Qed.

Lemma pairIsCustom_found (st : State) (s t : string) (l : Link) :
  uniquePairs (links st) ->
  findLink st s t = Some l -> style l = custom ->
  pairIsCustom s t (links st).
Proof.
  intros Hu Hf Hs x Hin Ex. unfold findLink in Hf.
  pose proof (find_some _ _ Hf) as [Hl El].
  apply list_elem_of_In, list_elem_of_lookup in Hin, Hl.
  destruct Hin as [kx Hkx]. destruct Hl as [kl Hkl].
  apply sameLink_true in El. destruct El as [<- <-].
  destruct (Nat.eq_dec kl kx) as [-> | Hne]; [congruence|].
  rewrite (uniquePairs_other_position (links st) kl kx l x Hu Hkl Hkx Hne) in Ex.
  discriminate.
Qed.

Lemma woc_filter (f : Link -> bool) (p : list Link) :
  waypointsOnlyCustom p -> waypointsOnlyCustom (List.filter f p).
Proof.
  intros H l Hin. apply List.filter_In in Hin. apply H, Hin.
Qed.

Lemma woc_addLink (s t : string) (st : State) :
  waypointsOnlyCustom (links st) ->
  waypointsOnlyCustom (links (addLink s t st)).
Proof.
  intros H l Hin Hl. unfold addLink, setLinks in Hin. simpl in Hin.
  destruct (existsb (sameLink s t) (links st)); [apply H; assumption|].
  apply in_app_or in Hin. destruct Hin as [Hin | [<- | []]];
    [apply H; assumption | reflexivity].
Qed.

Lemma woc_seedFromCurve (st0 : State) (l : Link) (n : nat) (st : State) :
  waypointsOnlyCustom (links st) ->
  pairIsCustom (source l) (target l) (links st) ->
  waypointsOnlyCustom (links (seedFromCurve st0 l n st)).
Proof.
  intros H Hc. unfold seedFromCurve.
  destruct (findDevice st0 (source l)); [|exact H].
  destruct (findDevice st0 (target l)); [|exact H].
  apply woc_setLinkWaypoints; assumption.
Qed.

Lemma woc_beginEdit (st0 : State) (l : Link) (st : State) :
  waypointsOnlyCustom (links st) ->
  waypointsOnlyCustom (links (beginEditUpdates st0 l st)).
Proof.
  intros H. unfold beginEditUpdates. destruct (style l).
  - destruct (waypoints l).
    + apply woc_setLinkCurvy, woc_setCustom, H.
    + apply woc_clear, woc_setLinkCurvy, woc_setCustom, H.
  - apply woc_seedFromCurve.
    + apply woc_setLinkCurvy, woc_setCustom, H.
    + apply pairIsCustom_setLinkCurvy, pairIsCustom_setCustom.
  - exact H.
Qed.

Lemma woc_styleSelect (l : Link) (ns : LinkStyle) (st : State) :
  waypointsOnlyCustom (links st) ->
  waypointsOnlyCustom (links (onStyleSelect l ns st)).
Proof.
  intros H. unfold onStyleSelect. cbv zeta beta. destruct ns.
  - destruct (isEditing st (source l) (target l));
      apply (woc_setLinkCurvy _ _ _ (setLinkWaypoints _ _ [] (setLinkStyle _ _ _ st)));
      apply woc_restyle_clear, H.
  - destruct (isEditing st (source l) (target l));
      apply (woc_setLinkCurvy _ _ _ (setLinkWaypoints _ _ [] (setLinkStyle _ _ _ st)));
      apply woc_restyle_clear, H.
  - destruct (style l).
    + destruct (waypoints l).
      * apply woc_setLinkCurvy, woc_setCustom, H.
      * apply woc_clear, woc_setLinkCurvy, woc_setCustom, H.
    + apply woc_seedFromCurve.
      * apply woc_setLinkCurvy, woc_setCustom, H.
      * apply pairIsCustom_setLinkCurvy, pairIsCustom_setCustom.
    + destruct (waypoints l).
      * apply woc_setLinkCurvy, woc_setCustom, H.
      * apply woc_clear, woc_setLinkCurvy, woc_setCustom, H.
Qed.

Lemma storedCustom_found (st : State) (s t : string) :
  storedCustom st s t = true ->
  exists l, findLink st s t = Some l /\ style l = custom.
Proof.
  unfold storedCustom. destruct (findLink st s t) as [l|]; [|discriminate].
  destruct (style l) eqn:E; try discriminate. intros _. exists l. auto.
Qed.

Lemma woc_step (st : State) (e : Event) :
  uniquePairs (links st) ->
  waypointsOnlyCustom (links st) ->
  waypointsOnlyCustom (links (step st e)).
Proof.
  intros Hu H. destruct e; simpl step.
  - destruct (renderedAt st k) as [[[l a] b]|]; [|exact H].
    apply woc_beginEdit, H.
  - destruct (renderedAt st k) as [[[l a] b]|]; [|exact H].
    unfold onClick. destruct (isEditing _ _ _); [|exact H]. simpl.
    destruct (storedCustom st (source l) (target l)) eqn:E; [|exact H].
    destruct (storedCustom_found _ _ _ E) as (l' & Hf & Hs).
    apply woc_setLinkWaypoints; [exact H|].
    apply (pairIsCustom_found st _ _ l'); assumption.
  - destruct (renderedAt st k) as [[[l a] b]|]; [|exact H].
    unfold onMouseDown. destruct (isEditing _ _ _); [|exact H]. simpl.
    destruct (storedCustom st (source l) (target l)) eqn:E; [|exact H].
    destruct (storedCustom_found _ _ _ E) as (l' & Hf & Hs).
    apply (woc_setLinkWaypoints _ _ _ st); [exact H|].
    apply (pairIsCustom_found st _ _ l'); assumption.
  - unfold onMouseMove. destruct (draggingWp st) as [[[s t] i]|]; [|exact H].
    destruct (findLink st s t) as [l|] eqn:Hf; [|exact H].
    destruct (style l) eqn:Hs; try exact H.
    destruct (wpsOf l !! i); [|exact H].
    apply woc_setLinkWaypoints; [exact H|].
    apply (pairIsCustom_found st _ _ l); assumption.
  - unfold onMouseUp. destruct (draggingWp st); exact H.
  - unfold onMapContextMenu. destruct (editingLink st); exact H.
  - unfold onKey.
    assert (H1 : waypointsOnlyCustom
                   (links match key, editingLink st with
                          | Escape, Some _ => setDraggingWp None (setEditingLink None st)
                          | _, _ => st
                          end)).
    { destruct key, (editingLink st); exact H. }
    destruct (selectedId st); [|exact H1]. destruct typing; [exact H1|].
    destruct key; try exact H1; apply woc_filter, H1.
  - destruct (handleAt st i); exact H.
  - destruct (handleAt st i) as [l|] eqn:Eh; [|exact H].
    destruct (handleAt_inv st i l Eh) as [Ha _].
    destruct (activeLink_found st l Ha) as [Hf Hs].
    apply (woc_setLinkWaypoints _ _ _ st); [exact H|].
    apply (pairIsCustom_found st _ _ l); assumption.
  - destruct (handleAt st i) as [l|] eqn:Eh; [|exact H].
    destruct (handleAt_inv st i l Eh) as [Ha _].
    destruct (activeLink_found st l Ha) as [Hf Hs].
    apply woc_setLinkWaypoints; [exact H|].
    apply (pairIsCustom_found st _ _ l); assumption.
  - destruct (findDevice st d) as [dev|]; [|exact H].
    unfold onDeviceClick. destruct (openPopupId st) as [o|]; [|exact H].
    destruct (String.eqb o (id dev)); exact H.
  - destruct (findDevice st d) as [dev|]; [|exact H].
    apply woc_filter, H.
  - destruct (findDevice st d) as [dev|]; [|exact H].
    destruct (String.eqb t ""); [exact H|]. apply woc_addLink, H.
  - destruct (incidentAt st k) as [l|]; [|exact H].
    apply woc_styleSelect, H.
  - destruct (incidentAt st k) as [l|]; [|exact H].
    destruct (style l); try exact H. apply woc_setLinkCurvy, H.
  - destruct (incidentAt st k) as [l|]; [|exact H].
    apply woc_beginEdit, H.
  - destruct (incidentAt st k) as [l|]; [|exact H].
    destruct (style l); try exact H. apply woc_clear, H.
  - destruct (incidentAt st k) as [l|]; [|exact H].
    unfold removeLink. destruct (isEditing st (source l) (target l)); simpl;
      apply woc_filter, H.
Qed.

Lemma woc_sampleData : waypointsOnlyCustom (links sampleData).
Proof.
  intros l Hin Hl. simpl in Hin.
  destruct Hin as [<- | [<- | [<- | [<- | []]]]]; try reflexivity.
  exfalso. apply Hl. reflexivity.
Qed.

Lemma reachable_woc (st : State) :
  reachable st -> waypointsOnlyCustom (links st).
Proof.
  induction 1 as [|st e Hr IH]; [apply woc_sampleData|].
  apply woc_step; [apply reachable_uniquePairs, Hr | exact IH].
Qed.

Lemma uiReachable_woc (s : State * nat) :
  uiReachable s -> waypointsOnlyCustom (links (fst s)).
Proof.
  intros Hr.
  apply (uiReachable_links_invariant
           (fun p => uniquePairs p /\ waypointsOnlyCustom p)); [| |exact Hr].
  - split; [apply uniquePairs_sampleData | apply woc_sampleData].
  - intros st e [Hu Hw]. split; [apply uniquePairs_step, Hu|].
    apply woc_step; assumption.
Qed.

(** X17. In every state the component can reach, whatever the events (those
    of the edit session, double clicks that add nodes, form submissions,
    marker drags, clicks on the map and the popup events), only links of
    style [custom] carry waypoints: a [straight] or [curved] link has none,
    so what is drawn for it never hides stored control points. *)
Theorem reachable_waypoints_only_custom (st : State) (n : nat) (l : Link) :
  uiReachable (st, n) ->
  In l (links st) ->
  style l <> custom ->
  wpsOf l = [].
Proof. intros Hr Hin Hs. exact (uiReachable_woc (st, n) Hr l Hin Hs). Qed.

Lemma computeRenderPath_devices (X st : State) (l : Link) :
  devices X = devices st -> computeRenderPath X l = computeRenderPath st l.
Proof.
  intros H. unfold computeRenderPath, findDevice. rewrite H. reflexivity.
Qed.

(** X18. In a state where only [custom] links carry waypoints, beginning
    to edit a [straight] link keeps what is drawn: the link becomes [custom]
    with straight segments and no waypoints, and its render path is the same
    two points as before. *)
Theorem begin_edit_keeps_straight_path
    (st : State) (k : nat) (l : Link) (a b : Device) :
  waypointsOnlyCustom (links st) ->
  renderedAt st k = Some (l, a, b) ->
  style l = straight ->
  exists l',
    links (step st (LinkContextMenu k)) !! k = Some l'
    /\ style l' = custom
    /\ isCurvy l' = false
    /\ wpsOf l' = []
    /\ computeRenderPath (step st (LinkContextMenu k)) l' = computeRenderPath st l
    /\ computeRenderPath st l = Some [latlng a; latlng b]
    /\ editingLink (step st (LinkContextMenu k)) = Some (source l, target l).
Proof.
  intros Hr Hren Hs. destruct (renderedAt_inv st k l a b Hren) as (Hk & Ha & Hb).
  assert (Hw : wpsOf l = []).
  { apply (Hr l).
    - apply list_elem_of_In, list_elem_of_lookup. exists k. exact Hk.
    - rewrite Hs. discriminate. }
  assert (Hpath : computeRenderPath st l = Some [latlng a; latlng b]).
  { unfold computeRenderPath. rewrite Ha, Hb, Hs. reflexivity. }
  simpl step. rewrite Hren. unfold onContextMenu, beginEditUpdates. rewrite Hs.
  exists {| source := source l; target := target l; style := custom;
            waypoints := Some (wpsOf l); curvy := Some false |}.
  split.
  { destruct (waypoints l) as [w|] eqn:Ew;
      unfold setLinkWaypoints, setLinkCurvy, setLinkStyle, setLinks, setEditingLink;
      simpl; rewrite !lookup_List_map, Hk; simpl; rewrite sameLink_self;
      change (sameLink (source l) (target l) (withStyle l custom))
        with (sameLink (source l) (target l) l); rewrite ?sameLink_self;
      unfold withCurvy, withStyle, withWaypoints, wpsOf; simpl; rewrite Ew;
      try reflexivity.
    unfold sameLink. simpl. rewrite !String.eqb_refl. reflexivity. }
  split; [reflexivity|]. split; [reflexivity|].
  split; [exact Hw|]. split; [|split; [exact Hpath | reflexivity]].
  rewrite Hpath.
  set (l' := {| source := source l; target := target l; style := custom;
                waypoints := Some (wpsOf l); curvy := Some false |}).
  transitivity (computeRenderPath st l').
  - apply computeRenderPath_devices.
    destruct (waypoints l); reflexivity.
  - unfold computeRenderPath, l'. cbn [source target style]. rewrite Ha, Hb.
    unfold isCurvy, wpsOf. cbn [curvy waypoints default].
    fold (wpsOf l). rewrite Hw. reflexivity.
Qed.

(** * Devices: adding, updating, moving *)

Lemma numeral_inj (m n : nat) : numeral m = numeral n -> m = n.
Proof.
  unfold numeral. intros H.
  assert (E : Some (Nat.to_uint m) = Some (Nat.to_uint n)).
  { rewrite <- !NilEmpty.usu. rewrite H. reflexivity. }
  injection E as E. rewrite <- (Unsigned.of_to m), <- (Unsigned.of_to n), E.
  reflexivity.
Qed.

Lemma nodeId_inj (m n : nat) : nodeId m = nodeId n -> m = n.
Proof. unfold nodeId. simpl. intros [= H]. apply numeral_inj, H. Qed.

Lemma find_id_map (j : string) (g : Device -> Device) (ds : list Device) :
  (forall d, id (g d) = id d) ->
  List.find (fun d => String.eqb (id d) j) (List.map g ds)
  = option_map g (List.find (fun d => String.eqb (id d) j) ds).
Proof.
  intros Hg. apply (find_map_stable (fun d => String.eqb (id d) j) g ds).
  intros x. rewrite Hg. reflexivity.
Qed.

Lemma find_id_app (j : string) (ds : list Device) (d : Device) :
  List.find (fun x => String.eqb (id x) j) (ds ++ [d])
  = match List.find (fun x => String.eqb (id x) j) ds with
    | Some x => Some x
    | None => if String.eqb (id d) j then Some d else None
    end.
Proof.
  induction ds as [|x ds IH]; simpl.
  - destruct (String.eqb (id d) j); reflexivity.
  - destruct (String.eqb (id x) j); [reflexivity | exact IH].
Qed.

Lemma find_id_nodup (ds : list Device) (d : Device) :
  NoDup (List.map id ds) -> In d ds ->
  List.find (fun x => String.eqb (id x) (id d)) ds = Some d.
Proof.
  induction ds as [|x ds IH]; intros Hn Hin; [destruct Hin|].
  simpl in Hn. apply NoDup_cons in Hn. destruct Hn as [Hx Hn]. simpl.
  destruct Hin as [-> | Hin].
  - rewrite String.eqb_refl. reflexivity.
  - destruct (String.eqb_spec (id x) (id d)) as [E | _]; [|apply IH; assumption].
    exfalso. apply Hx. rewrite E. apply list_elem_of_In, in_map, Hin.
Qed.

Lemma find_id_absent (ds : list Device) (j : string) :
  ~ In j (List.map id ds) ->
  List.find (fun x => String.eqb (id x) j) ds = None.
Proof.
  intros H. destruct (List.find _ ds) as [d|] eqn:E; [|reflexivity].
  apply find_some in E. destruct E as [Hin E]. apply String.eqb_eq in E.
  exfalso. apply H. rewrite <- E. apply in_map, Hin.
Qed.

(** The handlers of the edit session keep the devices or filter one id out. *)
Lemma devices_step (st : State) (e : Event) :
  devices (step st e) = devices st
  \/ exists i, devices (step st e)
               = List.filter (fun d => negb (String.eqb (id d) i)) (devices st).
Proof.
  destruct e; simpl step.
  - destruct (renderedAt st k) as [[[l a] b]|]; [|left; reflexivity].
    left. unfold onContextMenu, beginEditUpdates, seedFromCurve.
    destruct (style l); [destruct (waypoints l)| |]; try reflexivity.
    destruct (findDevice st (source l)), (findDevice st (target l)); reflexivity.
  - destruct (renderedAt st k) as [[[l a] b]|]; [|left; reflexivity].
    left. unfold onClick. destruct (_ && _); reflexivity.
  - destruct (renderedAt st k) as [[[l a] b]|]; [|left; reflexivity].
    left. unfold onMouseDown. destruct (_ && _); reflexivity.
  - left. unfold onMouseMove. destruct (draggingWp st) as [[[s t] i]|]; [|reflexivity].
    destruct (findLink st s t) as [l|]; [|reflexivity].
    destruct (style l); try reflexivity. destruct (wpsOf l !! i); reflexivity.
  - left. unfold onMouseUp. destruct (draggingWp st); reflexivity.
  - left. unfold onMapContextMenu. destruct (editingLink st); reflexivity.
  - unfold onKey. destruct (selectedId st) as [sel|].
    + destruct typing.
      * left. destruct key, (editingLink st); reflexivity.
      * destruct key; try (left; destruct (editingLink st); reflexivity);
          right; exists sel; reflexivity.
    + left. destruct key, (editingLink st); reflexivity.
  - left. destruct (handleAt st i); reflexivity.
  - left. destruct (handleAt st i); reflexivity.
  - left. destruct (handleAt st i); reflexivity.
  - left. destruct (findDevice st d) as [dev|]; [|reflexivity].
    unfold onDeviceClick. destruct (openPopupId st) as [o|]; [|reflexivity].
    destruct (String.eqb o (id dev)); reflexivity.
  - destruct (findDevice st d) as [dev|]; [|left; reflexivity].
    right. exists (id dev). reflexivity.
  - left. destruct (findDevice st d) as [dev|]; [|reflexivity].
    destruct (String.eqb t ""); reflexivity.
  - left. destruct (incidentAt st k) as [l|]; [|reflexivity].
    unfold onStyleSelect, seedFromCurve. cbv zeta beta.
    destruct ns; try (destruct (isEditing st (source l) (target l)); reflexivity).
    destruct (style l); try (destruct (waypoints l); reflexivity).
    destruct (findDevice st (source l)), (findDevice st (target l)); reflexivity.
  - left. destruct (incidentAt st k) as [l|]; [|reflexivity].
    destruct (style l); reflexivity.
  - left. destruct (incidentAt st k) as [l|]; [|reflexivity].
    unfold onEditPath, beginEditUpdates, seedFromCurve.
    destruct (style l); [destruct (waypoints l)| |]; try reflexivity.
    destruct (findDevice st (source l)), (findDevice st (target l)); reflexivity.
  - left. destruct (incidentAt st k) as [l|]; [|reflexivity].
    destruct (style l); reflexivity.
  - left. destruct (incidentAt st k) as [l|]; [|reflexivity].
    unfold removeLink. destruct (isEditing st (source l) (target l)); reflexivity.
Qed.

Lemma idsFresh_same_ids (ls : State) (n : nat) (st' : State) :
  List.map id (devices st') = List.map id (devices ls) ->
  idsFresh (ls, n) -> idsFresh (st', n).
Proof.
  intros Hid [Hn Hf]. split; simpl in *.
  - rewrite Hid. exact Hn.
  - intros d k Hin Hk.
    assert (Hi : In (id d) (List.map id (devices ls)))
      by (rewrite <- Hid; apply in_map, Hin).
    apply in_map_iff in Hi. destruct Hi as (d0 & E & Hin0).
    rewrite <- E. apply Hf; assumption.
Qed.

Lemma NoDup_map_filter (f : Device -> bool) (ds : list Device) :
  NoDup (List.map id ds) -> NoDup (List.map id (List.filter f ds)).
Proof.
  induction ds as [|d ds IH]; intros H; [exact H|].
  simpl in H. apply NoDup_cons in H. destruct H as [Hd Hn]. simpl.
  destruct (f d); [|apply IH, Hn]. simpl. apply NoDup_cons. split; [|apply IH, Hn].
  intros Hin. apply Hd. apply list_elem_of_In in Hin.
  apply in_map_iff in Hin. destruct Hin as (x & E & Hx).
  apply List.filter_In in Hx. rewrite <- E. apply list_elem_of_In, in_map, Hx.
Qed.

Lemma idsFresh_filter (f : Device -> bool) (st st' : State) (n : nat) :
  devices st' = List.filter f (devices st) ->
  idsFresh (st, n) -> idsFresh (st', n).
Proof.
  intros Hd [Hn Hf]. split; simpl in *; rewrite Hd.
  - apply NoDup_map_filter, Hn.
  - intros d k Hin Hk. apply List.filter_In in Hin. apply Hf; [apply Hin | exact Hk].
Qed.

Lemma map_id_update (i : string) (g : Device -> Device) (ds : list Device) :
  (forall d, id (g d) = id d) ->
  List.map id (List.map (fun d => if String.eqb (id d) i then g d else d) ds)
  = List.map id ds.
Proof.
  intros Hg. rewrite map_map. apply map_ext. intros d.
  destruct (String.eqb (id d) i); [apply Hg | reflexivity].
Qed.

Lemma idsFresh_addNodeAt (st : State) (n : nat) (ll : Point) :
  idsFresh (st, n) -> idsFresh (addNodeAt n ll st).
Proof.
  intros [Hn Hf]. split; simpl in *.
  - rewrite map_app. simpl. apply NoDup_app. split; [exact Hn|]. split.
    + intros i Hi Hin. apply list_elem_of_In in Hi.
      apply in_map_iff in Hi. destruct Hi as (d & E & Hd).
      apply list_elem_of_In in Hin. destruct Hin as [<- | []].
      apply (Hf d n Hd (le_n n)). exact E.
    + apply NoDup_singleton.
  - intros d k Hin Hk. apply in_app_or in Hin. destruct Hin as [Hin | [<- | []]].
    + apply Hf; [exact Hin | lia].
    + simpl. intros E. apply nodeId_inj in E. lia.
Qed.

Lemma idsFresh_appStep (s : State * nat) (e : AppEvent) :
  idsFresh s -> idsFresh (appStep s e).
Proof.
  intros H. destruct s as [st n]. destruct e; simpl appStep.
  - destruct (devices_step st e) as [E | [i E]].
    + apply (idsFresh_same_ids st); [rewrite E; reflexivity | exact H].
    + eapply idsFresh_filter; [exact E | exact H].
  - apply idsFresh_addNodeAt, H.
  - destruct (findDevice st d) as [dev|]; [|exact H].
    apply (idsFresh_same_ids st); [|exact H].
    unfold updateDevice, setDevices. simpl. apply map_id_update. reflexivity.
  - destruct (findDevice st d) as [dev|]; [|exact H].
    apply (idsFresh_same_ids st); [|exact H].
    unfold onMarkerDragEnd, setDevices. simpl.
    apply (map_id_update (id dev)
             (fun x => {| id := id x; label := label x; coords := (snd ll, fst ll);
                          status := status x; width := width x; height := height x |})).
    reflexivity.
Qed.

Lemma idsFresh_init : idsFresh (sampleData, 1%nat).
Proof.
  split; simpl.
  - repeat (apply NoDup_cons; split;
            [intros H; apply list_elem_of_In in H; simpl in H;
             repeat (destruct H as [H | H]; try discriminate); exact H|]).
    apply NoDup_nil. exact I.
  - intros d k [<- | [<- | [<- | [<- | []]]]] _; discriminate.
Qed.

Lemma appReachable_idsFresh (s : State * nat) : appReachable s -> idsFresh s.
Proof.
  induction 1 as [|s e _ IH]; [apply idsFresh_init | apply idsFresh_appStep, IH].
Qed.

(** X19. Whatever the user does (the events of the edit session, double
    clicks that add nodes, form submissions, marker drags), the device ids
    stay pairwise different, and [findDevice] applied to the id of a stored
    device returns that device. *)
Theorem reachable_device_ids_unique (st : State) (n : nat) :
  appReachable (st, n) ->
  NoDup (List.map id (devices st))
  /\ (forall d, In d (devices st) -> findDevice st (id d) = Some d).
Proof.
  intros Hr. destruct (appReachable_idsFresh _ Hr) as [Hn _]. simpl in Hn.
  split; [exact Hn|]. intros d Hin. apply find_id_nodup; assumption.
Qed.

(** X20. A double click on the map at [ll] appends a device with the id
    [n<counter>], status [available] and position [ll], and increments the
    counter; the new device is the one [findDevice] returns for its id, every
    device found before is found unchanged, and links, session and the render
    path of every link are as before. *)
Theorem addNodeAt_adds_fresh_node (st : State) (n : nat) (ll : Point) :
  appReachable (st, n) ->
  snd (addNodeAt n ll st) = S n
  /\ devices (fst (addNodeAt n ll st)) = devices st ++ [newNode n ll]
  /\ findDevice (fst (addNodeAt n ll st)) (nodeId n) = Some (newNode n ll)
  /\ latlng (newNode n ll) = ll
  /\ status (newNode n ll) = available
  /\ (forall j d, findDevice st j = Some d ->
                  findDevice (fst (addNodeAt n ll st)) j = Some d)
  /\ links (fst (addNodeAt n ll st)) = links st
  /\ editingLink (fst (addNodeAt n ll st)) = editingLink st
  /\ draggingWp (fst (addNodeAt n ll st)) = draggingWp st
  /\ (forall l path, computeRenderPath st l = Some path ->
                     computeRenderPath (fst (addNodeAt n ll st)) l = Some path).
Proof.
  intros Hr. destruct (appReachable_idsFresh _ Hr) as [Hn Hf]. simpl in Hn, Hf.
  assert (Hold : forall j d, findDevice st j = Some d ->
                             findDevice (fst (addNodeAt n ll st)) j = Some d).
  { intros j d Hj. unfold findDevice, addNodeAt, setDevices in *. simpl.
    rewrite find_id_app, Hj. reflexivity. }
  split; [reflexivity|]. split; [reflexivity|]. split.
  { unfold findDevice, addNodeAt, setDevices. simpl. rewrite find_id_app.
    rewrite find_id_absent.
    - simpl. rewrite String.eqb_refl. reflexivity.
    - intros Hin. apply in_map_iff in Hin. destruct Hin as (d & E & Hd).
      apply (Hf d n Hd (le_n n)). exact E. }
  split; [destruct ll; reflexivity|]. split; [reflexivity|].
  split; [exact Hold|]. split; [reflexivity|]. split; [reflexivity|].
  split; [reflexivity|].
  intros l path. unfold computeRenderPath.
  destruct (findDevice st (source l)) as [a|] eqn:Ea; [|discriminate].
  destruct (findDevice st (target l)) as [b|] eqn:Eb; [|discriminate].
  rewrite (Hold _ _ Ea), (Hold _ _ Eb). auto.
Qed.

(** Every render path starts at the source device and ends at the target
    device. *)
Lemma render_path_ends (st : State) (l : Link) (a b : Device) :
  findDevice st (source l) = Some a ->
  findDevice st (target l) = Some b ->
  exists path,
    computeRenderPath st l = Some path
    /\ hd_error path = Some (latlng a)
    /\ last path = Some (latlng b).
Proof.
  intros Ha Hb. unfold computeRenderPath. rewrite Ha, Hb. cbv zeta.
  eexists. split; [reflexivity|]. destruct (style l).
  - split; reflexivity.
  - split.
    + unfold curvedPath. change (seq 0 29) with (0%nat :: seq 1 28).
      cbn [List.map hd_error]. f_equal. apply curveSample_first.
    + rewrite last_lookup, curvedPath_length. cbn [pred].
      rewrite curvedPath_lookup by lia. f_equal. apply curveSample_last. lia.
  - destruct (isCurvy l); [|apply path_ends_cons_snoc].
    destruct (wpsOf l) as [|w wps]; [split; reflexivity|].
    destruct (catmullRomSpline_ends (latlng a) (latlng b) w wps 13) as [mid ->].
    apply path_ends_cons_snoc.
Qed.

Lemma findDevice_update (i j : string) (g : Device -> Device) (st : State) :
  (forall d, id (g d) = id d) ->
  findDevice
    (setDevices (List.map (fun d => if String.eqb (id d) i then g d else d)) st) j
  = option_map (fun d => if String.eqb (id d) i then g d else d) (findDevice st j).
Proof.
  intros Hg. unfold findDevice, setDevices. simpl.
  apply find_id_map. intros d. destruct (String.eqb (id d) i); [apply Hg | reflexivity].
Qed.

Lemma findDevice_id (st : State) (j : string) (d : Device) :
  findDevice st j = Some d -> id d = j.
Proof.
  unfold findDevice. intros H. apply find_some in H. apply String.eqb_eq, H.
Qed.

(** X21. [updateDevice(id, patch)] changes nothing when no device has the
    id.  With a patch that leaves the id alone it keeps the list of ids, the
    device found for [id] is the old one with the patch applied, and every
    other lookup is as before; the links are never touched, and when the
    patch also leaves the coordinates alone (as the popup form's does) every
    render path is as before. *)
Theorem updateDevice_patches_one (i : string) (patch : DevicePatch) (st : State) :
  (findDevice st i = None -> updateDevice i patch st = st)
  /\ links (updateDevice i patch st) = links st
  /\ (patchId patch = None ->
      List.map id (devices (updateDevice i patch st)) = List.map id (devices st)
      /\ findDevice (updateDevice i patch st) i
         = option_map (fun d => applyPatch d patch) (findDevice st i)
      /\ (forall j, j <> i ->
                    findDevice (updateDevice i patch st) j = findDevice st j)
      /\ (patchCoords patch = None ->
          forall l, computeRenderPath (updateDevice i patch st) l
                    = computeRenderPath st l)).
Proof.
  split; [|split; [reflexivity|]].
  - intros Hf. unfold updateDevice, setDevices.
    rewrite map_untouched; [apply state_eta|].
    intros d Hin. unfold findDevice in Hf. apply (find_none _ _ Hf d Hin).
  - intros Hid.
    assert (Hg : forall d, id (applyPatch d patch) = id d).
    { intros d. unfold applyPatch. simpl. rewrite Hid. reflexivity. }
    assert (Hfind : forall j, findDevice (updateDevice i patch st) j
                              = option_map
                                  (fun d => if String.eqb (id d) i
                                            then applyPatch d patch else d)
                                  (findDevice st j)).
    { intros j. apply (findDevice_update i j (fun d => applyPatch d patch)), Hg. }
    split; [|split; [|split]].
    + unfold updateDevice, setDevices. simpl.
      apply (map_id_update i (fun d => applyPatch d patch)), Hg.
    + rewrite Hfind. destruct (findDevice st i) as [d|] eqn:E; [|reflexivity].
      simpl. rewrite (findDevice_id st i d E), String.eqb_refl. reflexivity.
    + intros j Hne. rewrite Hfind.
      destruct (findDevice st j) as [d|] eqn:E; [|reflexivity].
      simpl. rewrite (findDevice_id st j d E).
      destruct (String.eqb_spec j i); [contradiction | reflexivity].
    + intros Hc l. unfold computeRenderPath. rewrite !Hfind.
      destruct (findDevice st (source l)) as [a|]; [|reflexivity].
      destruct (findDevice st (target l)) as [b|]; [|reflexivity].
      simpl.
      assert (Hll : forall d, latlng (if String.eqb (id d) i
                                      then applyPatch d patch else d) = latlng d).
      { intros d. destruct (String.eqb (id d) i); [|reflexivity].
        unfold latlng, applyPatch. simpl. rewrite Hc. reflexivity. }
      rewrite !Hll. reflexivity.
Qed.

(** X22. When the marker of a stored device is released at [ll], the device
    found for its id has the position [ll] and is otherwise the same, every
    other lookup is as before, and each link that starts (ends) at that
    device has a render path that starts (ends) at [ll]. *)
Theorem marker_drag_moves_endpoints (st : State) (d : Device) (ll : Point) :
  findDevice st (id d) = Some d ->
  (exists d', findDevice (onMarkerDragEnd d ll st) (id d) = Some d'
              /\ latlng d' = ll
              /\ id d' = id d /\ label d' = label d /\ status d' = status d)
  /\ (forall j, j <> id d ->
                findDevice (onMarkerDragEnd d ll st) j = findDevice st j)
  /\ links (onMarkerDragEnd d ll st) = links st
  /\ (forall l path,
         computeRenderPath st l = Some path ->
         exists path',
           computeRenderPath (onMarkerDragEnd d ll st) l = Some path'
           /\ (source l = id d -> hd_error path' = Some ll)
           /\ (target l = id d -> last path' = Some ll)).
Proof.
  intros Hd.
  set (g := fun x : Device =>
              {| id := id x; label := label x; coords := (snd ll, fst ll);
                 status := status x; width := width x; height := height x |}).
  assert (Hfind : forall j, findDevice (onMarkerDragEnd d ll st) j
                            = option_map
                                (fun x => if String.eqb (id x) (id d) then g x else x)
                                (findDevice st j)).
  { intros j. apply (findDevice_update (id d) j g). reflexivity. }
  assert (Hself : findDevice (onMarkerDragEnd d ll st) (id d) = Some (g d)).
  { rewrite Hfind, Hd. simpl. rewrite String.eqb_refl. reflexivity. }
  assert (Hll : latlng (g d) = ll) by (destruct ll; reflexivity).
  split; [|split; [|split; [reflexivity|]]].
  - exists (g d). repeat split; auto.
  - intros j Hne. rewrite Hfind.
    destruct (findDevice st j) as [x|] eqn:E; [|reflexivity].
    simpl. rewrite (findDevice_id st j x E).
    destruct (String.eqb_spec j (id d)); [contradiction | reflexivity].
  - intros l path Hp. unfold computeRenderPath in Hp.
    destruct (findDevice st (source l)) as [a|] eqn:Ea; [|discriminate].
    destruct (findDevice st (target l)) as [b|] eqn:Eb; [|discriminate].
    assert (Ha' : findDevice (onMarkerDragEnd d ll st) (source l)
                  = Some (if String.eqb (id a) (id d) then g a else a))
      by (rewrite Hfind, Ea; reflexivity).
    assert (Hb' : findDevice (onMarkerDragEnd d ll st) (target l)
                  = Some (if String.eqb (id b) (id d) then g b else b))
      by (rewrite Hfind, Eb; reflexivity).
    destruct (render_path_ends _ l _ _ Ha' Hb') as (path' & Hp' & Hh & Hl).
    exists path'. split; [exact Hp'|]. split.
    + intros Hs. rewrite Hh. rewrite (findDevice_id st _ a Ea), Hs, String.eqb_refl.
      destruct ll; reflexivity.
    + intros Ht. rewrite Hl. rewrite (findDevice_id st _ b Eb), Ht, String.eqb_refl.
      destruct ll; reflexivity.
Qed.

(** * The pan overlay *)

Lemma nonzero_false (x : R) : Pan.nonzero x = false -> x = 0.
Proof. unfold Pan.nonzero. destruct (Req_dec_T x 0); [auto | discriminate]. Qed.

Lemma nonzero_true (x : R) : Pan.nonzero x = true -> x <> 0.
Proof. unfold Pan.nonzero. destruct (Req_dec_T x 0); [discriminate | auto]. Qed.

Lemma moves_idle (ps : list (R * R)) (o : Pan.Overlay) :
  Pan.dragging o = false -> Pan.moves ps o = (o, []).
Proof.
  intros H. induction ps as [|[x y] ps IH]; [reflexivity|].
  simpl. unfold Pan.onMove. rewrite H, IH. reflexivity.
Qed.

Lemma moves_dragging (ps : list (R * R)) (o : Pan.Overlay) (x0 y0 : R) :
  Pan.dragging o = true ->
  Pan.last o = Some (x0, y0) ->
  Pan.dragging (fst (Pan.moves ps o)) = true
  /\ Pan.last (fst (Pan.moves ps o)) = Some (List.last ps (x0, y0))
  /\ Pan.pe (fst (Pan.moves ps o)) = Pan.pe o
  /\ Pan.total (snd (Pan.moves ps o))
     = (x0 - fst (List.last ps (x0, y0)), y0 - snd (List.last ps (x0, y0)))
  /\ Forall (fun v => v <> (0, 0)) (snd (Pan.moves ps o)).
Proof.
  revert o x0 y0. induction ps as [|[x y] ps IH]; intros o x0 y0 Hd Hl.
  - simpl. repeat split; auto. f_equal; ring.
  - cbn [Pan.moves]. unfold Pan.onMove. rewrite Hd, Hl. cbv zeta.
    assert (Hlast : forall d, List.last ((x, y) :: ps) d = List.last ps (x, y)).
    { intros d. clear. revert x y. induction ps as [|q ps IHp]; intros x y;
        [reflexivity|]. change (List.last ((x, y) :: q :: ps) d)
                        with (List.last (q :: ps) d).
      destruct q as [qx qy]. rewrite IHp. symmetry.
      change (List.last ((qx, qy) :: ps) (x, y)) with
        (match ps with [] => (qx, qy) | _ => List.last ps (x, y) end).
      destruct ps as [|r ps]; [reflexivity|].
      change (List.last ((qx, qy) :: r :: ps) (qx, qy))
        with (List.last (r :: ps) (qx, qy)).
      clear IHp. revert r. induction ps as [|s ps IHs]; intros r; [reflexivity|].
      change (List.last (r :: s :: ps) (x, y)) with (List.last (s :: ps) (x, y)).
      change (List.last (r :: s :: ps) (qx, qy)) with (List.last (s :: ps) (qx, qy)).
      apply IHs. }
    rewrite Hlast.
    destruct (Pan.nonzero (x - x0) || Pan.nonzero (y - y0)) eqn:E.
    + pose proof (IH {| Pan.dragging := true; Pan.last := Some (x, y);
                        Pan.pe := Pan.pe o |} x y eq_refl eq_refl)
        as (H1 & H2 & H3 & H4 & H5).
      destruct (Pan.moves ps {| Pan.dragging := true;
                                Pan.last := Some (x, y); Pan.pe := Pan.pe o |})
        as [o2 out2].
      cbn [fst snd app Pan.pe] in *.
      split; [exact H1|]. split; [exact H2|]. split; [exact H3|]. split.
      * unfold Pan.total. cbn [fold_right]. fold (Pan.total out2).
        rewrite H4. cbn [fst snd]. f_equal; ring.
      * constructor; [|exact H5]. intros [= Hx Hy].
        apply orb_true_iff in E. destruct E as [E | E]; apply nonzero_true in E; lra.
    + apply orb_false_iff in E. destruct E as [Ex Ey].
      apply nonzero_false in Ex, Ey.
      assert (Hx : x = x0) by lra. assert (Hy : y = y0) by lra. subst x y.
      destruct (IH o x0 y0 Hd Hl) as (H1 & H2 & H3 & H4 & H5).
      destruct (Pan.moves ps o) as [o2 out2]. cbn [fst snd app] in *.
      repeat split; assumption.
Qed.

(** X23. The pan overlay follows the pointer: after a press of the main
    button at [(x0, y0)] the calls of [onPanBy] made during any run of mouse
    moves add up to the start position minus the last position, none of them
    is the zero vector, and the overlay remembers the last position and
    keeps accepting pointer events; a press
    of another button changes nothing, and after a release, as before any
    press, moves make no call at all. *)
Theorem pan_follows_pointer (o : Pan.Overlay) (x0 y0 : R) (ps : list (R * R)) :
  Pan.total (snd (Pan.moves ps (Pan.onDown 0 x0 y0 o)))
  = (x0 - fst (List.last ps (x0, y0)), y0 - snd (List.last ps (x0, y0)))
  /\ Forall (fun v => v <> (0, 0)) (snd (Pan.moves ps (Pan.onDown 0 x0 y0 o)))
  /\ Pan.last (fst (Pan.moves ps (Pan.onDown 0 x0 y0 o)))
     = Some (List.last ps (x0, y0))
  /\ Pan.dragging (fst (Pan.moves ps (Pan.onDown 0 x0 y0 o))) = true
  /\ Pan.pe (fst (Pan.moves ps (Pan.onDown 0 x0 y0 o))) = Pan.peAuto
  /\ (forall button, button <> 0%nat -> Pan.onDown button x0 y0 o = o)
  /\ Pan.moves ps (Pan.onUp o) = (Pan.onUp o, [])
  /\ Pan.moves ps Pan.mounted = (Pan.mounted, []).
Proof.
  destruct (moves_dragging ps (Pan.onDown 0 x0 y0 o) x0 y0 eq_refl eq_refl)
    as (H1 & H2 & H3 & H4 & H5).
  repeat split; auto.
  - intros button Hb. unfold Pan.onDown.
    destruct (Nat.eqb_spec button 0); [contradiction | reflexivity].
  - apply moves_idle. reflexivity.
  - apply moves_idle. reflexivity.
Qed.

(** * The spline of a seeded link *)

Lemma render_custom_curvy (st : State) (l : Link) (a b : Device) :
  findDevice st (source l) = Some a ->
  findDevice st (target l) = Some b ->
  style l = custom ->
  isCurvy l = true ->
  computeRenderPath st l
  = Some (catmullRomSpline (latlng a :: wpsOf l ++ [latlng b]) 14).
Proof.
  intros Ha Hb Hs Hc. unfold computeRenderPath. rewrite Ha, Hb, Hs, Hc.
  reflexivity.
Qed.

Lemma seeded_link_at (st : State) (k : nat) (l : Link) (a b : Device) :
  renderedAt st k = Some (l, a, b) ->
  style l = curved ->
  links (step st (LinkContextMenu k)) !! k
  = Some {| source := source l; target := target l; style := custom;
            waypoints := Some (seedPoints (latlng a) (latlng b) 10);
            curvy := Some true |}
  /\ devices (step st (LinkContextMenu k)) = devices st.
Proof.
  intros Hr Hs. destruct (renderedAt_inv st k l a b Hr) as (Hk & Ha & Hb).
  simpl step. rewrite Hr. unfold onContextMenu, beginEditUpdates.
  rewrite Hs. unfold seedFromCurve. rewrite Ha, Hb. split; [|reflexivity].
  unfold setLinkWaypoints, setLinkCurvy, setLinkStyle, setLinks, setEditingLink.
  simpl. rewrite !lookup_List_map, Hk. simpl.
  rewrite sameLink_self. unfold withStyle, withCurvy, withWaypoints.
  unfold sameLink. simpl. rewrite !String.eqb_refl. reflexivity.
Qed.

Lemma seeded_control_length (A B : Point) (seeds : list Point) :
  length seeds = 12%nat -> length (A :: seeds ++ [B]) = 14%nat.
Proof. intros H. cbn [length]. rewrite length_app, H. reflexivity. Qed.

Lemma seeded_spline_points (A B : Point) (seeds : list Point) :
  length seeds = 12%nat ->
  length (catmullRomSpline (A :: seeds ++ [B]) 14) = 183%nat
  /\ catmullRomSpline (A :: seeds ++ [B]) 14 !! 0%nat = Some A
  /\ catmullRomSpline (A :: seeds ++ [B]) 14 !! 182%nat = Some B
  /\ (forall i, (i < 12)%nat ->
        catmullRomSpline (A :: seeds ++ [B]) 14 !! ((i + 1) * 14)%nat = seeds !! i).
Proof.
  intros H. pose proof (seeded_control_length A B seeds H) as Hlen.
  split; [rewrite spline_length by lia; rewrite Hlen; reflexivity|].
  split.
  { change 0%nat with (0 * 14)%nat. rewrite spline_lookup_control by lia.
    reflexivity. }
  split.
  { change 182%nat with (13 * 14)%nat. rewrite spline_lookup_control by lia.
    change (A :: seeds ++ [B]) with ((A :: seeds) ++ [B]).
    rewrite lookup_app_r by (cbn [length]; lia).
    cbn [length]. rewrite H. reflexivity. }
  intros i Hi. rewrite spline_lookup_control by lia.
  replace (i + 1)%nat with (S i) by lia. cbn [lookup list_lookup].
  apply lookup_app_l. lia.
Qed.

(** X24. After a right click on a rendered [curved] link the link is drawn
    as a spline of 183 points that starts at [A], ends at [B] and passes
    through each of the 12 seeded waypoints, which are points of the curve
    that was drawn before: seed [i] is the point at position [(i + 1) * 14]
    of the new path and the sample [3 i + 1] of the 36-segment curve. *)
Theorem seeded_link_spline_through_seeds
    (st : State) (k : nat) (l : Link) (a b : Device) :
  renderedAt st k = Some (l, a, b) ->
  style l = curved ->
  exists l' path,
    links (step st (LinkContextMenu k)) !! k = Some l'
    /\ computeRenderPath (step st (LinkContextMenu k)) l' = Some path
    /\ length path = 183%nat
    /\ path !! 0%nat = Some (latlng a)
    /\ path !! 182%nat = Some (latlng b)
    /\ (forall i, (i < 12)%nat ->
          path !! ((i + 1) * 14)%nat = seedPoints (latlng a) (latlng b) 10 !! i
          /\ seedPoints (latlng a) (latlng b) 10 !! i
             = curvedPath (latlng a) (latlng b) 36 0.28 !! (3 * i + 1)%nat).
Proof.
  intros Hr Hs. destruct (renderedAt_inv st k l a b Hr) as (Hk & Ha & Hb).
  destruct (seeded_link_at st k l a b Hr Hs) as [Hat Hdev].
  destruct (seeded_spline_points (latlng a) (latlng b)
              (seedPoints (latlng a) (latlng b) 10)
              (seedPoints_length (latlng a) (latlng b)))
    as (Hlen & H0 & H182 & Hseeds).
  eexists. eexists. split; [exact Hat|]. split.
  { rewrite (computeRenderPath_devices _ st _ Hdev).
    exact (render_custom_curvy st
             {| source := source l; target := target l; style := custom;
                waypoints := Some (seedPoints (latlng a) (latlng b) 10);
                curvy := Some true |} a b Ha Hb eq_refl eq_refl). }
  split; [exact Hlen|]. split; [exact H0|]. split; [exact H182|].
  intros i Hi. split; [apply Hseeds, Hi | apply seedPoints_lookup, Hi].
Qed.
(** * Worked instances on [sampleData] *)

Lemma straight_render_is_endpoints_witness :
  findDevice sampleData (source linkAB) = Some deviceA
  /\ findDevice sampleData (target linkAB) = Some deviceB
  /\ style linkAB = straight
  /\ computeRenderPath sampleData linkAB = Some [latlng deviceA; latlng deviceB].
Proof.
  assert (Ha : findDevice sampleData (source linkAB) = Some deviceA) by reflexivity.
  assert (Hb : findDevice sampleData (target linkAB) = Some deviceB) by reflexivity.
  assert (Hs : style linkAB = straight) by reflexivity.
  repeat (split; [assumption|]).
  exact (straight_render_is_endpoints sampleData linkAB deviceA deviceB Ha Hb Hs).
Defined.

Lemma tokyo_is_not_paris : latlng deviceB <> latlng deviceC.
Proof. unfold latlng, deviceB, deviceC. simpl. intros H. injection H as H1 H2. lra. Qed.

Lemma curved_render_shape_witness :
  findDevice sampleData (source linkBC) = Some deviceB
  /\ findDevice sampleData (target linkBC) = Some deviceC
  /\ style linkBC = curved
  /\ latlng deviceB <> latlng deviceC
  /\ exists path,
      computeRenderPath sampleData linkBC = Some path
      /\ length path = 29%nat
      /\ path !! 0%nat = Some (latlng deviceB)
      /\ path !! 28%nat = Some (latlng deviceC)
      /\ path !! 14%nat
         = Some (offsetBy (midpoint (latlng deviceB) (latlng deviceC))
                          (leftNormal (latlng deviceB) (latlng deviceC))
                          (edgeLength (latlng deviceB) (latlng deviceC) * 0.28 / 2)).
Proof.
  assert (Ha : findDevice sampleData (source linkBC) = Some deviceB) by reflexivity.
  assert (Hb : findDevice sampleData (target linkBC) = Some deviceC) by reflexivity.
  assert (Hs : style linkBC = curved) by reflexivity.
  repeat (split; [assumption || exact tokyo_is_not_paris|]).
  destruct (curved_render_shape sampleData linkBC deviceB deviceC Ha Hb Hs)
    as (path & Hp & Hlen & H0 & H28 & Hmid).
  exists path. repeat (split; [assumption|]).
  exact (proj1 (Hmid tokyo_is_not_paris)).
Defined.

Lemma custom_render_shape_witness :
  findDevice sampleData (source linkCD) = Some deviceC
  /\ findDevice sampleData (target linkCD) = Some deviceD
  /\ style linkCD = custom
  /\ isCurvy linkCD = false
  /\ computeRenderPath sampleData linkCD
     = Some [latlng deviceC; (45, 10); latlng deviceD]
  /\ isCurvy (withCurvy linkCD true) = true
  /\ (exists mid, computeRenderPath sampleData (withCurvy linkCD true)
                  = Some (latlng deviceC :: mid ++ [latlng deviceD]))
  /\ isCurvy (withCurvy linkAB true) = true
  /\ (length (latlng deviceA :: wpsOf (withStyle (withCurvy linkAB true) custom)
              ++ [latlng deviceB]) <= 2)%nat
  /\ computeRenderPath sampleData (withStyle (withCurvy linkAB true) custom)
     = Some [latlng deviceA; latlng deviceB].
Proof.
  assert (Ha : findDevice sampleData (source linkCD) = Some deviceC) by reflexivity.
  assert (Hb : findDevice sampleData (target linkCD) = Some deviceD) by reflexivity.
  assert (Hs : style linkCD = custom) by reflexivity.
  assert (Hc : isCurvy linkCD = false) by reflexivity.
  assert (Hc' : isCurvy (withCurvy linkCD true) = true) by reflexivity.
  assert (Hc'' : isCurvy (withCurvy linkAB true) = true) by reflexivity.
  assert (Hlen : (length (latlng deviceA
                          :: wpsOf (withStyle (withCurvy linkAB true) custom)
                          ++ [latlng deviceB]) <= 2)%nat) by (simpl; lia).
  repeat (split; [assumption|]).
  split.
  { exact (proj1 (custom_render_shape sampleData linkCD deviceC deviceD Ha Hb Hs) Hc). }
  repeat (split; [assumption|]).
  split.
  { exact (proj1 (proj2 (custom_render_shape sampleData (withCurvy linkCD true)
                           deviceC deviceD Ha Hb Hs)) Hc'). }
  repeat (split; [assumption|]).
  exact (proj2 (proj2 (custom_render_shape sampleData
                         (withStyle (withCurvy linkAB true) custom)
                         deviceA deviceB eq_refl eq_refl eq_refl)) Hc'' Hlen).
Defined.


Lemma no_link_from_b_to_a : ~ hasLink "b" "a" (links sampleData).
Proof.
  intros (l & Hin & Hs & Ht). simpl in Hin.
  destruct Hin as [<- | [<- | [<- | [<- | []]]]]; discriminate.
Qed.

Lemma link_from_a_to_b : hasLink "a" "b" (links sampleData).
Proof. exists linkAB. split; [left; reflexivity | split; reflexivity]. Qed.

Lemma addLink_inserts_iff_absent_witness :
  ~ hasLink "b" "a" (links sampleData)
  /\ links (addLink "b" "a" sampleData) = links sampleData ++ [freshLink "b" "a"]
  /\ (pairCount "b" "a" (links sampleData) <= 1)%nat
  /\ pairCount "b" "a" (links (addLink "b" "a" (addLink "b" "a" sampleData))) = 1%nat
  /\ hasLink "a" "b" (links sampleData)
  /\ addLink "a" "b" sampleData = sampleData.
Proof.
  assert (Hle : (pairCount "b" "a" (links sampleData) <= 1)%nat)
    by (unfold pairCount; simpl; lia).
  split; [exact no_link_from_b_to_a|].
  split.
  { exact (proj2 (proj1 (addLink_inserts_iff_absent "b" "a" sampleData))
                 no_link_from_b_to_a). }
  split; [assumption|].
  split.
  { exact (proj1 (proj2 (proj2 (proj2 (addLink_inserts_iff_absent "b" "a" sampleData))))
                 Hle). }
  split; [exact link_from_a_to_b|].
  exact (proj1 (proj2 (addLink_inserts_iff_absent "a" "b" sampleData)) link_from_a_to_b).
Defined.

Lemma nothing_mentions_z : absent "z" sampleData.
Proof.
  unfold absent. simpl. repeat split; try discriminate.
  - intros d [<- | [<- | [<- | [<- | []]]]]; discriminate.
  - destruct H as [<- | [<- | [<- | [<- | []]]]]; discriminate.
  - destruct H as [<- | [<- | [<- | [<- | []]]]]; discriminate.
Qed.

(** Deleting a device that the state does not mention changes nothing. *)
Lemma removeDevice_unknown_id : removeDevice "z" sampleData = sampleData.
Proof.
  exact (proj2 (proj2 (proj2 (proj2 (proj2 (proj2
          (removeDevice_effects "z" sampleData)))))) nothing_mentions_z).
Qed.

Lemma begin_edit_seeds_curved_link_witness :
  renderedAt sampleData 1 = Some (linkBC, deviceB, deviceC)
  /\ style linkBC = curved
  /\ latlng deviceB <> latlng deviceC
  /\ editingLink (step sampleData (LinkContextMenu 1)) = Some ("b", "c")%string
  /\ links (step sampleData (LinkContextMenu 1)) !! 1%nat
     = Some {| source := "b"; target := "c"; style := custom;
               waypoints := Some (seedPoints (latlng deviceB) (latlng deviceC) 10);
               curvy := Some true |}
  /\ length (seedPoints (latlng deviceB) (latlng deviceC) 10) = 12%nat
  /\ seedPoints (latlng deviceB) (latlng deviceC) 10 !! 11%nat
     = curvedPath (latlng deviceB) (latlng deviceC) 36 0.28 !! 34%nat
  /\ seedPoints (latlng deviceB) (latlng deviceC) 10 <> [].
Proof.
  assert (Hr : renderedAt sampleData 1 = Some (linkBC, deviceB, deviceC))
    by reflexivity.
  assert (Hs : style linkBC = curved) by reflexivity.
  destruct (begin_edit_seeds_curved_link sampleData 1 linkBC deviceB deviceC Hr Hs)
    as (He & Hl & _ & Hlen & Hat & _ & _ & _ & Hseed).
  repeat (split; [assumption || exact tokyo_is_not_paris|]).
  split; [exact (Hat 11%nat ltac:(lia))|].
  exact (proj1 (Hseed tokyo_is_not_paris)).
Defined.


Lemma self_loop_geometry_witness :
  source (selfLoop curved) = target (selfLoop curved)
  /\ findDevice selfLoopState (source (selfLoop curved)) = Some deviceA
  /\ style (selfLoop curved) = curved
  /\ (exists path,
        computeRenderPath selfLoopState (selfLoop curved) = Some path
        /\ length path = 29%nat
        /\ path !! 0%nat = Some (latlng deviceA)
        /\ path !! 28%nat = Some (latlng deviceA))
  /\ In (selfLoop straight) (links selfLoopState)
  /\ computeRenderPath selfLoopState (selfLoop straight)
     = Some [latlng deviceA; latlng deviceA].
Proof.
  assert (Hst : source (selfLoop curved) = target (selfLoop curved)) by reflexivity.
  assert (Ha : findDevice selfLoopState (source (selfLoop curved)) = Some deviceA)
    by reflexivity.
  assert (Hs : style (selfLoop curved) = curved) by reflexivity.
  assert (Hin : In (selfLoop straight) (links selfLoopState))
    by (simpl; auto 10).
  repeat (split; [assumption|]).
  split.
  { exact (proj1 (proj2 (proj2 (self_loop_geometry selfLoopState (selfLoop curved)
                                  deviceA Hst Ha))) Hs). }
  split; [assumption|].
  exact (proj1 (proj2 (self_loop_geometry selfLoopState (selfLoop straight)
                         deviceA eq_refl eq_refl)) eq_refl).
Defined.

(** * Worked instances of the further properties *)

Lemma curvedPath_samples_bowed_witness :
  28%nat <> 0%nat
  /\ (14 <= 28)%nat
  /\ curvedPath (0, 0) (0, 10) 28 0.28 !! 14%nat
     = Some (bowed (0, 0) (0, 10) 0.28 (INR 14 / INR 28)).
Proof.
  assert (Hn : 28%nat <> 0%nat) by lia.
  assert (Hi : (14 <= 28)%nat) by lia.
  repeat (split; [assumption|]).
  exact (curvedPath_samples_bowed (0, 0) (0, 10) 28 14 0.28 Hn Hi).
Defined.

Lemma curvedPath_opposite_bow_witness :
  ((0, 0) : Point) <> (0, 10)
  /\ 0 < 0.28
  /\ (0 < 3 < 28)%nat
  /\ exists p q,
      curvedPath (0, 0) (0, 10) 28 0.28 !! 3%nat = Some p
      /\ curvedPath (0, 10) (0, 0) 28 0.28 !! 3%nat = Some q
      /\ betweenEnds (0, 0) (0, 10) p
      /\ 0 < dot (vec (0, 0) p) (leftTurn (0, 0) (0, 10))
      /\ betweenEnds (0, 0) (0, 10) q
      /\ dot (vec (0, 0) q) (leftTurn (0, 0) (0, 10)) < 0.
Proof.
  assert (Hne : ((0, 0) : Point) <> (0, 10)) by (intros [= H]; lra).
  assert (Hc : 0 < 0.28) by lra.
  assert (Hi : (0 < 3 < 28)%nat) by lia.
  repeat (split; [assumption|]).
  exact (curvedPath_opposite_bow (0, 0) (0, 10) 28 3 0.28 Hne Hc Hi).
Defined.

Lemma catmullRomSpline_length_witness :
  (2 < length threePoints)%nat
  /\ length (catmullRomSpline threePoints 14) = 29%nat.
Proof.
  assert (H : (2 < length threePoints)%nat) by (simpl; lia).
  split; [exact H|].
  exact (catmullRomSpline_length threePoints 14 H).
Defined.

Lemma catmullRomSpline_through_control_points_witness :
  (2 < length threePoints)%nat
  /\ 14%nat <> 0%nat
  /\ (1 < length threePoints)%nat
  /\ catmullRomSpline threePoints 14 !! 14%nat = Some (1, 1).
Proof.
  assert (H : (2 < length threePoints)%nat) by (simpl; lia).
  assert (Hs : 14%nat <> 0%nat) by lia.
  assert (Hi : (1 < length threePoints)%nat) by (simpl; lia).
  repeat (split; [assumption|]).
  exact (catmullRomSpline_through_control_points
           threePoints 14 1 H Hs Hi).
Defined.

Lemma segmentD_is_least_distance_witness :
  0 <= 1 / 2 <= 1
  /\ segmentD (0, 0) (0, 10) (0, 15)
     <= sqDist (0, 15) (along (0, 0) (0, 10) (1 / 2)).
Proof.
  assert (Hs : 0 <= 1 / 2 <= 1) by lra.
  split; [exact Hs|].
  exact (proj2 (segmentD_is_least_distance (0, 0) (0, 10) (0, 15)) (1 / 2) Hs).
Defined.

Lemma after_double_click_reachable :
  uiReachable (fst (addNodeAt 1 (1, 2) sampleData), 2%nat).
Proof. exact (uiReachable_step (sampleData, 1%nat) (App (MapDblClick (1, 2))) uiReachable_init). Qed.

Lemma reachable_findLink_faithful_witness :
  uiReachable (fst (addNodeAt 1 (1, 2) sampleData), 2%nat)
  /\ links (fst (addNodeAt 1 (1, 2) sampleData)) !! 1%nat = Some linkBC
  /\ findLink (fst (addNodeAt 1 (1, 2) sampleData)) (source linkBC) (target linkBC)
     = Some linkBC.
Proof.
  assert (Hk : links (fst (addNodeAt 1 (1, 2) sampleData)) !! 1%nat = Some linkBC)
    by reflexivity.
  split; [exact after_double_click_reachable|]. split; [exact Hk|].
  exact (proj1 (reachable_findLink_faithful (fst (addNodeAt 1 (1, 2) sampleData)) 2 1
                  linkBC after_double_click_reachable Hk)).
Defined.

Lemma link_setters_compose_witness :
  findLink sampleData "x" "y" = None
  /\ setLinkStyle "x" "y" curved sampleData = sampleData
  /\ links sampleData !! 0%nat = Some linkAB
  /\ links (setLinkWaypoints "a" "b" [(1, 2)]
              (setLinkCurvy "a" "b" true (setLinkStyle "a" "b" custom sampleData)))
       !! 0%nat
     = Some {| source := "a"; target := "b"; style := custom;
               waypoints := Some [(1, 2)]; curvy := Some true |}.
Proof.
  assert (Hf : findLink sampleData "x" "y" = None) by reflexivity.
  assert (Hk : links sampleData !! 0%nat = Some linkAB) by reflexivity.
  split; [exact Hf|]. split.
  { exact (proj1 (proj1 (link_setters_compose "x" "y" curved true [] sampleData) Hf)). }
  split; [exact Hk|].
  exact (proj2 (proj2 (proj2 (proj2
           (link_setters_compose "a" "b" custom true [(1, 2)] sampleData))))
           0%nat linkAB Hk).
Defined.

Lemma removeLink_removes_witness :
  editingLink draggingState = Some ("c", "d")%string
  /\ Idle (removeLink "c" "d" draggingState)
  /\ findLink (removeLink "c" "d" draggingState) "c" "d" = None.
Proof.
  assert (He : editingLink draggingState = Some ("c", "d")%string) by reflexivity.
  destruct (removeLink_removes "c" "d" draggingState) as (Hf & _ & _ & Hi & _).
  split; [exact He|]. split; [exact (Hi He) | exact Hf].
Defined.

Lemma removeDevice_keeps_surviving_paths_witness :
  In linkAB (links (removeDevice "d" sampleData))
  /\ computeRenderPath (removeDevice "d" sampleData) linkAB
     = computeRenderPath sampleData linkAB.
Proof.
  assert (Hin : In linkAB (links (removeDevice "d" sampleData)))
    by (simpl; auto).
  split; [exact Hin|].
  exact (proj2 (proj2 (removeDevice_keeps_surviving_paths "d" sampleData linkAB Hin))).
Defined.


Lemma draggingState_rendered :
  renderedAt draggingState 3 = Some (linkCD, deviceC, deviceD).
Proof. reflexivity. Qed.

Lemma draggingState_uniquePairs : uniquePairs (links draggingState).
Proof. exact (reachable_uniquePairs draggingState draggingState_reachable). Qed.

Lemma click_then_alt_click_restores_witness :
  uniquePairs (links draggingState)
  /\ renderedAt draggingState 3 = Some (linkCD, deviceC, deviceD)
  /\ editingLink draggingState = Some (source linkCD, target linkCD)
  /\ style linkCD = custom
  /\ links (step (step draggingState (LinkClick 3 (46, 11)))
                 (HandleAltClick
                    (nearestSegmentIndex (linkVertices deviceC deviceD linkCD) (46, 11))))
       !! 3%nat
     = Some (withWaypoints linkCD (wpsOf linkCD)).
Proof.
  assert (He : editingLink draggingState = Some (source linkCD, target linkCD))
    by reflexivity.
  assert (Hs : style linkCD = custom) by reflexivity.
  split; [exact draggingState_uniquePairs|].
  split; [exact draggingState_rendered|].
  split; [exact He|]. split; [exact Hs|].
  exact (proj1 (click_then_alt_click_restores draggingState 3 linkCD deviceC deviceD
                  (46, 11) draggingState_uniquePairs draggingState_rendered He Hs)).
Defined.


Lemma onKey_cases_witness :
  selectedId draggingState = Some "c"%string
  /\ onKey Delete false draggingState = removeDevice "c" draggingState
  /\ onKey Backspace true draggingState = draggingState.
Proof.
  assert (Hsel : selectedId draggingState = Some "c"%string) by reflexivity.
  split; [exact Hsel|]. split.
  { exact (proj1 (proj1 (proj2 (proj2 (onKey_cases false draggingState)))
                    Delete "c"%string (or_introl eq_refl) eq_refl Hsel)). }
  exact (proj1 (proj2 (onKey_cases true draggingState))
           Backspace (or_intror eq_refl) (or_introl eq_refl)).
Defined.

Lemma style_select_resets_link_witness :
  incidentAt draggingState 3 = Some linkCD
  /\ straight <> custom
  /\ links (step draggingState (PopupStyleSelect 3 straight)) !! 3%nat
     = Some {| source := "c"; target := "d"; style := straight;
               waypoints := Some []; curvy := Some false |}.
Proof.
  assert (Hi : incidentAt draggingState 3 = Some linkCD) by reflexivity.
  assert (Hn : straight <> custom) by discriminate.
  split; [exact Hi|]. split; [exact Hn|].
  exact (proj1 (style_select_resets_link draggingState 3 linkCD straight Hi Hn)).
Defined.

Lemma reachable_waypoints_only_custom_witness :
  uiReachable (fst (addNodeAt 1 (1, 2) sampleData), 2%nat)
  /\ In linkAB (links (fst (addNodeAt 1 (1, 2) sampleData)))
  /\ style linkAB <> custom
  /\ wpsOf linkAB = [].
Proof.
  assert (Hin : In linkAB (links (fst (addNodeAt 1 (1, 2) sampleData))))
    by (simpl; auto).
  assert (Hs : style linkAB <> custom) by discriminate.
  split; [exact after_double_click_reachable|]. split; [exact Hin|].
  split; [exact Hs|].
  exact (reachable_waypoints_only_custom (fst (addNodeAt 1 (1, 2) sampleData)) 2 linkAB
           after_double_click_reachable Hin Hs).
Defined.

Lemma begin_edit_keeps_straight_path_witness :
  waypointsOnlyCustom (links sampleData)
  /\ renderedAt sampleData 0 = Some (linkAB, deviceA, deviceB)
  /\ style linkAB = straight
  /\ exists l',
      links (step sampleData (LinkContextMenu 0)) !! 0%nat = Some l'
      /\ computeRenderPath (step sampleData (LinkContextMenu 0)) l'
         = computeRenderPath sampleData linkAB.
Proof.
  assert (Hr : renderedAt sampleData 0 = Some (linkAB, deviceA, deviceB))
    by reflexivity.
  assert (Hs : style linkAB = straight) by reflexivity.
  split; [exact woc_sampleData|]. split; [exact Hr|]. split; [exact Hs|].
  destruct (begin_edit_keeps_straight_path sampleData 0 linkAB deviceA deviceB
              woc_sampleData Hr Hs) as (l' & Hk & _ & _ & _ & Hp & _).
  exists l'. split; assumption.
Defined.

Lemma reachable_device_ids_unique_witness :
  appReachable (sampleData, 1%nat)
  /\ NoDup (List.map id (devices sampleData)).
Proof.
  split; [exact appReachable_init|].
  exact (proj1 (reachable_device_ids_unique sampleData 1 appReachable_init)).
Defined.

Lemma addNodeAt_adds_fresh_node_witness :
  appReachable (sampleData, 1%nat)
  /\ findDevice (fst (addNodeAt 1 (20, 30) sampleData)) (nodeId 1)
     = Some (newNode 1 (20, 30))
  /\ nodeId 1 = "n1"%string.
Proof.
  split; [exact appReachable_init|]. split; [|reflexivity].
  exact (proj1 (proj2 (proj2
           (addNodeAt_adds_fresh_node sampleData 1 (20, 30) appReachable_init)))).
Defined.

Lemma updateDevice_patches_one_witness :
  patchId (formPatch "Hub" connected 10 20) = None
  /\ patchCoords (formPatch "Hub" connected 10 20) = None
  /\ computeRenderPath (updateDevice "a" (formPatch "Hub" connected 10 20) sampleData)
                       linkAB
     = computeRenderPath sampleData linkAB
  /\ findDevice sampleData "z" = None
  /\ updateDevice "z" (formPatch "Hub" connected 10 20) sampleData = sampleData.
Proof.
  assert (Hid : patchId (formPatch "Hub" connected 10 20) = None) by reflexivity.
  assert (Hc : patchCoords (formPatch "Hub" connected 10 20) = None) by reflexivity.
  assert (Hz : findDevice sampleData "z" = None) by reflexivity.
  split; [exact Hid|]. split; [exact Hc|]. split.
  { exact (proj2 (proj2 (proj2 (proj2 (proj2
             (updateDevice_patches_one "a" (formPatch "Hub" connected 10 20) sampleData))
             Hid))) Hc linkAB). }
  split; [exact Hz|].
  exact (proj1 (updateDevice_patches_one "z" (formPatch "Hub" connected 10 20) sampleData)
           Hz).
Defined.

Lemma marker_drag_moves_endpoints_witness :
  findDevice sampleData (id deviceA) = Some deviceA
  /\ exists d', findDevice (onMarkerDragEnd deviceA (1, 2) sampleData) (id deviceA)
                = Some d'
                /\ latlng d' = (1, 2).
Proof.
  assert (Hd : findDevice sampleData (id deviceA) = Some deviceA) by reflexivity.
  split; [exact Hd|].
  destruct (proj1 (marker_drag_moves_endpoints sampleData deviceA (1, 2) Hd))
    as (d' & Hf & Hll & _).
  exists d'. split; assumption.
Defined.

Lemma pan_follows_pointer_witness :
  2%nat <> 0%nat
  /\ Pan.onDown 2 5 5 Pan.mounted = Pan.mounted
  /\ Pan.total (snd (Pan.moves [(6, 5); (8, 9)] (Pan.onDown 0 5 5 Pan.mounted)))
     = (5 - fst (List.last [(6, 5); (8, 9)] (5, 5)),
        5 - snd (List.last [(6, 5); (8, 9)] (5, 5))).
Proof.
  assert (Hb : 2%nat <> 0%nat) by lia.
  split; [exact Hb|]. split.
  { exact (proj1 (proj2 (proj2 (proj2 (proj2 (proj2
             (pan_follows_pointer Pan.mounted 5 5 [])))))) 2%nat Hb). }
  exact (proj1 (pan_follows_pointer Pan.mounted 5 5 [(6, 5); (8, 9)])).
Defined.


Lemma seeded_link_spline_through_seeds_witness :
  renderedAt sampleData 1 = Some (linkBC, deviceB, deviceC)
  /\ style linkBC = curved
  /\ exists l' path,
      links (step sampleData (LinkContextMenu 1)) !! 1%nat = Some l'
      /\ computeRenderPath (step sampleData (LinkContextMenu 1)) l' = Some path
      /\ length path = 183%nat.
Proof.
  assert (Hr : renderedAt sampleData 1 = Some (linkBC, deviceB, deviceC))
    by reflexivity.
  assert (Hs : style linkBC = curved) by reflexivity.
  split; [exact Hr|]. split; [exact Hs|].
  destruct (seeded_link_spline_through_seeds sampleData 1 linkBC deviceB deviceC Hr Hs)
    as (l' & path & Hk & Hp & Hlen & _).
  exists l', path. repeat split; assumption.
Defined.

Lemma drag_leaves_edit_only_mid_drag_witness :
  dragWithinEdit sampleData
  /\ draggingWp sampleData = None
  /\ dragWithinEdit (step sampleData (PopupDelete "c")).
Proof.
  assert (Hinv : dragWithinEdit sampleData) by exact I.
  assert (Hnone : draggingWp sampleData = None) by reflexivity.
  split; [exact Hinv|]. split; [exact Hnone|].
  exact (drag_leaves_edit_only_mid_drag sampleData (PopupDelete "c") Hinv
           (or_intror Hnone)).
Defined.
